(** * Verification of the code-agent configuration synchronisers

    The repository holds three Python scripts that distribute a shared tree of
    configuration assets into the configuration directories of several tools:

    - [sync-config.py]   (class [ConfigSyncer]):     every resource of a tool, batch mode;
    - [sync-resource.py] (class [ResourceSyncer]):   one resource kind of one tool;
    - [sync-single.py]   (class [SingleItemSyncer]): one item of one resource kind.

    The scripts are filesystem programs.  The development therefore starts with
    a model of the part of POSIX and of the Python library ([pathlib],
    [shutil]) the scripts call, then embeds the three classes over it, and
    finally states and proves the properties of the specification.

    Conventions of the model:
    - the file tree is a tree of regular files, symbolic links and
      directories on one device; permissions and metadata are left out;
    - paths are absolute sequences of segments, [..] included; the paths of
      the manifest are taken after [expanduser], and an item name is one
      segment;
    - path resolution follows links as the kernel does, at most
      [MAXSYMLINKS] of them, so that [exists()], [is_dir()], [is_symlink()]
      and [resolve()] differ on links exactly as in Python;
    - an exception that no handler catches ends the run; the tree reached so
      far is kept;
    - the clock read by [_backup_if_exists] is an input of the run;
    - what is printed is kept as a list of events; the file counts and the
      listing of available items that some messages carry are left out. *)

From Stdlib Require Import List String Ascii Bool Arith Lia Sorted Permutation.
Import ListNotations.
Local Open Scope string_scope.
Local Open Scope list_scope.

Set Implicit Arguments.

(* ================================================================= *)
(** * Association lists

    Python dictionaries keep insertion order and directory listings have an
    order of their own; both are modelled as association lists. *)

Fixpoint afind {A : Type} (k : string) (es : list (string * A)) : option A :=
  match es with
  | [] => None
  | (k', v) :: es' => if String.eqb k k' then Some v else afind k es'
  end.

(** Replace the binding of [k] in place, or append a new binding at the end. *)
Fixpoint aset {A : Type} (k : string) (v : A) (es : list (string * A)) : list (string * A) :=
  match es with
  | [] => [(k, v)]
  | (k', v') :: es' =>
      if String.eqb k k' then (k, v) :: es' else (k', v') :: aset k v es'
  end.

Fixpoint adel {A : Type} (k : string) (es : list (string * A)) : list (string * A) :=
  match es with
  | [] => []
  | (k', v') :: es' =>
      if String.eqb k k' then adel k es' else (k', v') :: adel k es'
  end.

Definition amem {A : Type} (k : string) (es : list (string * A)) : bool :=
  match afind k es with Some _ => true | None => false end.

Fixpoint first_some {A B : Type} (f : A -> option B) (l : list A) : option B :=
  match l with
  | [] => None
  | x :: l' => match f x with Some y => Some y | None => first_some f l' end
  end.

(* ================================================================= *)
(** * Paths and the file tree *)

Module Fs.

(** A path is a sequence of segments.  All paths are absolute (the manifest's
    home-relative paths are taken after [expanduser]); [Up] is a [..] segment,
    which the manifest's [resourceMapping] values may contain. *)
Inductive seg : Type :=
| Up
| Name (s : string).

Definition Path := list seg.

(** A location is a path without links and without [..]: the names leading
    from the root directory to an entry of the tree. *)
Definition loc := list string.

Definition of_loc (l : loc) : Path := map Name l.

Definition seg_string (s : seg) : string :=
  match s with Up => ".." | Name n => n end.

Definition seg_eqb (a b : seg) : bool :=
  match a, b with
  | Up, Up => true
  | Name x, Name y => String.eqb x y
  | _, _ => false
  end.

Fixpoint path_eqb (p q : Path) : bool :=
  match p, q with
  | [], [] => true
  | a :: p', b :: q' => seg_eqb a b && path_eqb p' q'
  | _, _ => false
  end.

Fixpoint loc_eqb (p q : loc) : bool :=
  match p, q with
  | [], [] => true
  | a :: p', b :: q' => String.eqb a b && loc_eqb p' q'
  | _, _ => false
  end.

Fixpoint loc_prefix (p q : loc) : bool :=
  match p, q with
  | [], _ => true
  | a :: p', b :: q' => String.eqb a b && loc_prefix p' q'
  | _ :: _, [] => false
  end.

(** [pathlib]'s purely lexical accessors. *)
Definition parent (p : Path) : Path := removelast p.

Definition name (p : Path) : string :=
  match rev p with [] => "" | s :: _ => seg_string s end.

(** [p.parts]: the root, then one part per segment. *)
Definition parts (p : Path) : list string := "/" :: map seg_string p.

Definition startswith_dot (s : string) : bool :=
  match s with
  | String c _ => Ascii.eqb c "."%char
  | EmptyString => false
  end.

(** Entries of the tree: regular files, symbolic links (with the absolute
    path they were created with) and directories (in listing order). *)
#[warnings="-register-all"]
Inductive node : Type :=
| File (data : string)
| Link (target : Path)
| Dir (entries : list (string * node)).

Definition is_Link (n : node) : bool := match n with Link _ => true | _ => false end.

(** Entry at a location. *)
Fixpoint get (t : node) (l : loc) : option node :=
  match l with
  | [] => Some t
  | c :: l' =>
      match t with
      | Dir es => match afind c es with Some ch => get ch l' | None => None end
      | _ => None
      end
  end.

(** Write an entry at a location whose parent is an existing directory. *)
Fixpoint put (t : node) (l : loc) (n : node) : option node :=
  match l with
  | [] => Some n
  | c :: l' =>
      match t with
      | Dir es =>
          match l' with
          | [] => Some (Dir (aset c n es))
          | _ :: _ =>
              match afind c es with
              | Some ch =>
                  match put ch l' n with
                  | Some ch' => Some (Dir (aset c ch' es))
                  | None => None
                  end
              | None => None
              end
          end
      | _ => None
      end
  end.

(** Remove the entry at a location. *)
Fixpoint del (t : node) (l : loc) : option node :=
  match l with
  | [] => None
  | c :: l' =>
      match t with
      | Dir es =>
          match l' with
          | [] => match afind c es with Some _ => Some (Dir (adel c es)) | None => None end
          | _ :: _ =>
              match afind c es with
              | Some ch =>
                  match del ch l' with
                  | Some ch' => Some (Dir (aset c ch' es))
                  | None => None
                  end
              | None => None
              end
          end
      | _ => None
      end
  end.

(* ----------------------------------------------------------------- *)
(** ** Path resolution *)

Inductive errno : Type :=
| ENOENT | ENOTDIR | ELOOP | EEXIST | EISDIR | ENOTEMPTY | EINVAL.

(** The kernel follows at most this many links while it resolves one path. *)
Definition MAXSYMLINKS : nat := 40.

Inductive follow : Type := Follow | NoFollow.

(** Kernel path resolution.  Every segment but the last must name an existing
    directory (through links); the last one may be absent, and is followed
    when it is a link only in mode [Follow].  The result is the location the
    path denotes. *)
Fixpoint walk (links : nat) (t : node) (m : follow) (cur : loc) (rest : Path)
  {struct links} : errno + loc :=
  (fix go (cur : loc) (rest : Path) {struct rest} : errno + loc :=
     match rest with
     | [] => inr cur
     | s :: rest' =>
         match get t cur with
         | Some (Dir es) =>
             match s with
             | Up => go (removelast cur) rest'
             | Name c =>
                 match afind c es with
                 | Some (Link tgt) =>
                     match rest', m with
                     | [], NoFollow => inr (cur ++ [c])
                     | _, _ =>
                         match links with
                         | 0 => inl ELOOP
                         | S l => walk l t m [] (tgt ++ rest')
                         end
                     end
                 | Some _ => go (cur ++ [c]) rest'
                 | None =>
                     match rest' with
                     | [] => inr (cur ++ [c])
                     | _ :: _ => inl ENOENT
                     end
                 end
             end
         | Some _ => inl ENOTDIR
         | None => inl ENOENT
         end
     end) cur rest.

Definition locate (t : node) (m : follow) (p : Path) : errno + loc :=
  walk MAXSYMLINKS t m [] p.

(** [os.stat] and [os.lstat], reduced to the entry they describe. *)
Definition stat (t : node) (p : Path) : option node :=
  match locate t Follow p with inr l => get t l | inl _ => None end.

Definition lstat (t : node) (p : Path) : option node :=
  match locate t NoFollow p with inr l => get t l | inl _ => None end.

(** [Path.exists], [Path.is_dir], [Path.is_symlink]: errors read as [False]. *)
Definition exists_ (t : node) (p : Path) : bool :=
  match stat t p with Some _ => true | None => false end.

Definition is_dir (t : node) (p : Path) : bool :=
  match stat t p with Some (Dir _) => true | _ => false end.

Definition is_symlink (t : node) (p : Path) : bool :=
  match lstat t p with Some (Link _) => true | _ => false end.

Definition readlink (t : node) (p : Path) : option Path :=
  match lstat t p with Some (Link tgt) => Some tgt | _ => None end.

(** [os.path.realpath], not strict: links are resolved as far as entries
    exist, the remaining segments are appended as they are.  [None] is a
    chain of more than [MAXSYMLINKS] links (a loop). *)
Fixpoint realpath (links : nat) (t : node) (cur : loc) (rest : Path)
  {struct links} : option loc :=
  (fix go (cur : loc) (rest : Path) {struct rest} : option loc :=
     match rest with
     | [] => Some cur
     | Up :: rest' => go (removelast cur) rest'
     | Name c :: rest' =>
         match get t (cur ++ [c]) with
         | Some (Link tgt) =>
             match links with
             | 0 => None
             | S l => realpath l t [] (tgt ++ rest')
             end
         | _ => go (cur ++ [c]) rest'
         end
     end) cur rest.

(* ----------------------------------------------------------------- *)
(** ** Exceptions and system calls *)

Inductive exn : Type :=
| FileNotFoundError
| FileExistsError
| NotADirectoryError
| IsADirectoryError
| OSError (e : errno)
| RuntimeError          (* [Path.resolve] on a symlink loop *)
| SameFileError
| ShutilError           (* [shutil.Error] *)
| KeyError.

Definition exn_of (e : errno) : exn :=
  match e with
  | ENOENT => FileNotFoundError
  | ENOTDIR => NotADirectoryError
  | EEXIST => FileExistsError
  | EISDIR => IsADirectoryError
  | _ => OSError e
  end.

Definition sys (A : Type) := (exn + A)%type.

(** [os.mkdir]. *)
Definition os_mkdir (t : node) (p : Path) : sys node :=
  match locate t NoFollow p with
  | inl e => inl (exn_of e)
  | inr l =>
      match get t l with
      | Some _ => inl FileExistsError
      | None =>
          match put t l (Dir []) with
          | Some t' => inr t'
          | None => inl FileNotFoundError
          end
      end
  end.

(** Library functions made of several system calls can fail half-way: they
    return the tree they reached together with the exception, if any. *)
Definition io := (node * option exn)%type.

(** [Path.mkdir(parents=True, exist_ok=True)], on the reversed path:
    try [os.mkdir]; on [FileNotFoundError] make the parent the same way and
    retry once without [parents]; on any other [OSError] succeed only if the
    path is a directory. *)
Fixpoint mkdir_rev (t : node) (rp : list seg) : io :=
  let p := rev rp in
  match os_mkdir t p with
  | inr t' => (t', None)
  | inl FileNotFoundError =>
      match rp with
      | [] => (t, Some FileNotFoundError)
      | _ :: rparent =>
          match mkdir_rev t rparent with
          | (t1, Some e) => (t1, Some e)
          | (t1, None) =>
              match os_mkdir t1 p with
              | inr t2 => (t2, None)
              | inl FileNotFoundError => (t1, Some FileNotFoundError)
              | inl e => if is_dir t1 p then (t1, None) else (t1, Some e)
              end
          end
      end
  | inl e => if is_dir t p then (t, None) else (t, Some e)
  end.

Definition mkdir_parents (t : node) (p : Path) : io := mkdir_rev t (rev p).

(** [os.makedirs(name, exist_ok=True)]: make the missing ancestors first (an
    ancestor found to exist meanwhile is no error), then the leaf. *)
Fixpoint makedirs_rev (t : node) (rp : list seg) : io :=
  let p := rev rp in
  let leaf (t0 : node) : io :=
    match os_mkdir t0 p with
    | inr t' => (t', None)
    | inl e => if is_dir t0 p then (t0, None) else (t0, Some e)
    end in
  match rp with
  | [] => leaf t
  | _ :: rhead =>
      if exists_ t (rev rhead) then leaf t
      else
        match makedirs_rev t rhead with
        | (t1, None) => leaf t1
        | (t1, Some FileExistsError) => leaf t1
        | (t1, Some e) => (t1, Some e)
        end
  end.

Definition os_makedirs (t : node) (p : Path) : io := makedirs_rev t (rev p).

(** [os.unlink]. *)
Definition os_unlink (t : node) (p : Path) : sys node :=
  match locate t NoFollow p with
  | inl e => inl (exn_of e)
  | inr l =>
      match get t l with
      | None => inl FileNotFoundError
      | Some (Dir _) => inl IsADirectoryError
      | Some _ =>
          match del t l with
          | Some t' => inr t'
          | None => inl FileNotFoundError
          end
      end
  end.

(** [os.symlink(target, p)]: the target is stored as given and need not exist. *)
Definition os_symlink (t : node) (target p : Path) : sys node :=
  match locate t NoFollow p with
  | inl e => inl (exn_of e)
  | inr l =>
      match get t l with
      | Some _ => inl FileExistsError
      | None =>
          match put t l (Link target) with
          | Some t' => inr t'
          | None => inl FileNotFoundError
          end
      end
  end.

(** [os.rename] within one device. *)
Definition os_rename (t : node) (src dst : Path) : sys node :=
  match locate t NoFollow src, locate t NoFollow dst with
  | inl e, _ => inl (exn_of e)
  | _, inl e => inl (exn_of e)
  | inr ls, inr ld =>
      match get t ls with
      | None => inl FileNotFoundError
      | Some n =>
          if loc_eqb ls ld then inr t
          else if loc_prefix ls ld then inl (OSError EINVAL)
          else
            let move :=
              match del t ls with
              | Some t1 =>
                  match put t1 ld n with
                  | Some t2 => inr t2
                  | None => inl FileNotFoundError
                  end
              | None => inl FileNotFoundError
              end in
            match get t ld, n with
            | None, _ => move
            | Some (Dir []), Dir _ => move
            | Some (Dir _), Dir _ => inl (OSError ENOTEMPTY)
            | Some (Dir _), _ => inl IsADirectoryError
            | Some _, Dir _ => inl NotADirectoryError
            | Some _, _ => move
            end
      end
  end.

(** [os.path.samefile], with [shutil._samefile]'s reading of errors. *)
Definition samefile (t : node) (p q : Path) : bool :=
  match locate t Follow p, locate t Follow q with
  | inr lp, inr lq =>
      match get t lp, get t lq with
      | Some _, Some _ => loc_eqb lp lq
      | _, _ => false
      end
  | _, _ => false
  end.

(** [shutil.move(src, dst)].  A destination that is a directory receives the
    source inside it.  The copy-and-delete fallback, which [shutil.move]
    enters when [os.rename] is refused, is meant for moves across devices;
    on the single device modelled here every refused rename ends in an
    exception and leaves the tree as it was. *)
Definition shutil_move (t : node) (src dst : Path) : sys node :=
  if is_dir t dst then
    if samefile t src dst && negb (is_symlink t src) then os_rename t src dst
    else
      let real_dst := dst ++ [Name (name src)] in
      if exists_ t real_dst then inl ShutilError
      else os_rename t src real_dst
  else os_rename t src dst.

(** [shutil.copy2(src, dst)] for paths: a destination that is a directory
    receives the file inside it; the source is opened before the
    destination; both are opened through links. *)
Definition shutil_copy2 (t : node) (src dst : Path) : sys node :=
  let dst := if is_dir t dst then dst ++ [Name (name src)] else dst in
  if samefile t src dst then inl SameFileError
  else
    match stat t src with
    | Some (Dir _) => inl IsADirectoryError
    | Some (File data) =>
        match locate t Follow dst with
        | inl e => inl (exn_of e)
        | inr l =>
            match get t l with
            | Some (Dir _) => inl IsADirectoryError
            | _ =>
                match put t l (File data) with
                | Some t' => inr t'
                | None => inl FileNotFoundError
                end
            end
        end
    | _ => inl FileNotFoundError
    end.

(** Outcome of [shutil.copytree]: it either raises an [OSError] of its own
    (the listing or [os.makedirs] failed), or goes through all entries and
    collects the errors of the entries, raising [shutil.Error] at the end
    when there are any. *)
Inductive copied : Type :=
| CopyRaised (e : exn)
| CopyDone (errors : list (Path * Path * exn)).

(** [shutil.copytree(src, dst, dirs_exist_ok=True)] ([symlinks=False]).
    [n] is the listing of the source directory.  Links in the source are
    followed: a link to a file is copied as a file, a link to a directory as
    a directory, a dangling link is an error of that entry.  The listing of
    a sub-directory is the one the source had when the copy started. *)
Fixpoint copytree (links : nat) (n : node) (src dst : Path) (t : node)
  {struct links} : node * copied :=
  (fix cp_dir (n : node) (src dst : Path) (t : node) {struct n} : node * copied :=
     match n with
     | Dir es =>
         match os_makedirs t dst with
         | (t1, Some e) => (t1, CopyRaised e)
         | (t1, None) =>
             (fix cp_entries (es : list (string * node)) (t : node)
                  (errs : list (Path * Path * exn)) {struct es} : node * copied :=
                match es with
                | [] => (t, CopyDone errs)
                | (c, ch) :: es' =>
                    let srcname := src ++ [Name c] in
                    let dstname := dst ++ [Name c] in
                    let file_copy :=
                      match shutil_copy2 t srcname dstname with
                      | inr t' => (t', CopyDone [])
                      | inl e => (t, CopyRaised e)
                      end in
                    let '(t', out) :=
                      match ch with
                      | Dir _ => cp_dir ch srcname dstname t
                      | File _ => file_copy
                      | Link _ =>
                          match stat t srcname with
                          | Some (Dir es2) =>
                              match links with
                              | 0 => (t, CopyRaised (OSError ELOOP))
                              | S l => copytree l (Dir es2) srcname dstname t
                              end
                          | _ => file_copy
                          end
                      end in
                    match out with
                    | CopyRaised e => cp_entries es' t' (errs ++ [(srcname, dstname, e)])
                    | CopyDone errs' => cp_entries es' t' (errs ++ errs')
                    end
                end) es t1 []
         end
     | _ => (t, CopyRaised NotADirectoryError)
     end) n src dst t.

Definition shutil_copytree (t : node) (src dst : Path) : io :=
  match stat t src with
  | Some (Dir es) =>
      match copytree MAXSYMLINKS (Dir es) src dst t with
      | (t', CopyRaised e) => (t', Some e)
      | (t', CopyDone []) => (t', None)
      | (t', CopyDone (_ :: _)) => (t', Some ShutilError)
      end
  | Some _ => (t, Some NotADirectoryError)
  | None => (t, Some FileNotFoundError)
  end.

(** [start.rglob("SKILL.md")], relative to the directory [n]: in every
    directory reached without passing through a link, the entry of that
    name; a directory before its sub-directories, those in listing order. *)
Fixpoint rglob (pattern : string) (n : node) (rel : loc) {struct n} : list loc :=
  match n with
  | Dir es =>
      (if amem pattern es then [rel ++ [pattern]] else []) ++
      (fix sub (es : list (string * node)) : list loc :=
         match es with
         | [] => []
         | (c, ch) :: es' =>
             match ch with
             | Dir _ => rglob pattern ch (rel ++ [c])
             | _ => []
             end ++ sub es'
         end) es
  | _ => []
  end.

(** [os.listdir], which [Path.iterdir] calls: the names of a directory in
    listing order, through links. *)
Definition iterdir (t : node) (p : Path) : sys (list string) :=
  match locate t Follow p with
  | inl e => inl (exn_of e)
  | inr l =>
      match get t l with
      | Some (Dir es) => inr (map fst es)
      | Some _ => inl NotADirectoryError
      | None => inl FileNotFoundError
      end
  end.

(** The loop of [copytree] over the entries of one directory, as a function
    of its own; [copytree_unfold] below shows that it is that loop. *)
Fixpoint copy_entries (links : nat) (src dst : Path) (es : list (string * node))
    (t : node) (errs : list (Path * Path * exn)) {struct es} : node * copied :=
  match es with
  | [] => (t, CopyDone errs)
  | (c, ch) :: es' =>
      let srcname := src ++ [Name c] in
      let dstname := dst ++ [Name c] in
      let file_copy :=
        match shutil_copy2 t srcname dstname with
        | inr t' => (t', CopyDone [])
        | inl e => (t, CopyRaised e)
        end in
      let '(t', out) :=
        match ch with
        | Dir _ => copytree links ch srcname dstname t
        | File _ => file_copy
        | Link _ =>
            match stat t srcname with
            | Some (Dir es2) =>
                match links with
                | 0 => (t, CopyRaised (OSError ELOOP))
                | S l => copytree l (Dir es2) srcname dstname t
                end
            | _ => file_copy
            end
        end in
      match out with
      | CopyRaised e => copy_entries links src dst es' t' (errs ++ [(srcname, dstname, e)])
      | CopyDone errs' => copy_entries links src dst es' t' (errs ++ errs')
      end
  end.

(* ----------------------------------------------------------------- *)
(** ** Notions used to state and prove the properties *)

(** Two options of an entry have the same shape when the entry is of the
    same kind, a link with the same target. *)
Definition same_shape (a b : option node) : Prop :=
  match a with
  | Some (File _) => exists d, b = Some (File d)
  | Some (Link tgt) => b = Some (Link tgt)
  | Some (Dir _) => exists es, b = Some (Dir es)
  | None => True
  end.

(** [t'] extends [t]: every entry of [t] is still there, with its shape. *)
Definition extends (t t' : node) : Prop :=
  forall q, same_shape (get t q) (get t' q).

(** Two locations are apart when neither is the other or above it. *)
Definition apart (p q : loc) : bool :=
  negb (loc_prefix p q) && negb (loc_prefix q p).

Fixpoint uniq (l : list string) : bool :=
  match l with
  | [] => true
  | x :: l' => negb (existsb (String.eqb x) l') && uniq l'
  end.

(** A plain tree: directories and regular files only, no name twice in one
    directory. *)
Fixpoint plain (n : node) : bool :=
  match n with
  | File _ => true
  | Link _ => false
  | Dir es => uniq (map fst es) && forallb (fun e => plain (snd e)) es
  end.


(** A location none of whose entries on the way, itself included, is a
    link: what [os.path.realpath] returns. *)
Definition nolink (t : node) (l : loc) : Prop :=
  forall q r tg, l = q ++ r -> get t q <> Some (Link tg).

(** [t'] keeps what is not a link in [t]: every regular file and every
    directory of [t] is still there in [t'], a file with its content. *)
Definition keeps_files_and_dirs (t t' : node) : Prop :=
  forall q,
    match get t q with
    | Some (File d) => get t' q = Some (File d)
    | Some (Dir _) => exists es, get t' q = Some (Dir es)
    | _ => True
    end.

End Fs.

Import Fs.

(* ================================================================= *)
(** * The manifest ([config-manifest.json])

    The manifest is loaded once by [_load_manifest]; the classes only read
    it.  Objects are association lists in document order. *)

(** One entry of [sharedResources.skills.nestedSkills]. *)
Record nested_group : Type := {
  basePath : Path;
  skills : list string
}.

(** One entry of [sharedResources]; a missing [nestedSkills] is the empty
    object, as [.get("nestedSkills", {})] reads it. *)
Record shared_resource : Type := {
  path : Path;
  nestedSkills : list (string * nested_group)
}.

(** One entry of [agentCompatibility]; a missing [resourceMapping] is the
    empty object. *)
Record agent_config : Type := {
  configDir : Path;
  resourceMapping : list (string * Path)
}.

Record manifest : Type := {
  sharedConfigPath : Path;
  supportedAgents : list string;
  agentCompatibility : list (string * agent_config);
  sharedResources : list (string * shared_resource)
}.

(** [--strategy], restricted to its two choices by the argument parser. *)
Inductive strategy : Type := symlink | copy.

(* ================================================================= *)
(** * The world of a run: the file tree and the console *)

(** What the scripts print, one constructor per message. *)
Inductive event : Type :=
| UnknownAgent (agent : string)
| ConfigDirMissing (agent : string)
| SkipAgent (agent : string)
| UnknownResource (resource : string)
| Unsupported (agent resource : string)
| Header (agent : string) (s : strategy)
| Plan (source target : Path) (s : strategy)
| Backup (old new : string)
| OldLinkRemoved (target : Path)
| LinkCreated (target source : Path)
| DirCopied (source target : Path)
| FileCopied (source target : Path)
| NestedSkillFound (group item : string)
| AgentSkillStructure (from to : Path)
| NestedSkillStructure (from to : Path)
| SkillMdNotFound (source : Path)
| SourceMissing (source : Path)
| BatchStart (s : strategy)
| BatchDone (success_count : nat)
| Done.

Record world : Type := World {
  tree : node;
  console : list event
}.

(** A run either returns a value or stops with an uncaught exception (the
    scripts have no handler); the world it reached is kept in both cases. *)
Inductive res (A : Type) : Type :=
| Ok (a : A)
| Raised (e : exn).
Arguments Raised {A} e.

Definition M (A : Type) : Type := world -> res A * world.

Definition ret {A : Type} (a : A) : M A := fun w => (Ok a, w).

Definition bind {A B : Type} (m : M A) (k : A -> M B) : M B :=
  fun w =>
    match m w with
    | (Ok a, w') => k a w'
    | (Raised e, w') => (Raised e, w')
    end.

Declare Scope run_scope.
Delimit Scope run_scope with run.
Notation "x <- m ;; k" := (bind m (fun x => k))
  (at level 61, m at next level, right associativity) : run_scope.
Notation "m ;; k" := (bind m (fun _ => k))
  (at level 61, right associativity) : run_scope.
Local Open Scope run_scope.

Definition raise {A : Type} (e : exn) : M A := fun w => (Raised e, w).

Definition print (ev : event) : M unit :=
  fun w => (Ok tt, World (tree w) (console w ++ [ev])).

(** A test on the file tree. *)
Definition query {A : Type} (f : node -> A) : M A :=
  fun w => (Ok (f (tree w)), w).

(** A system call: all or nothing. *)
Definition syscall (f : node -> sys node) : M unit :=
  fun w =>
    match f (tree w) with
    | inr t' => (Ok tt, World t' (console w))
    | inl e => (Raised e, w)
    end.

(** A library call made of several system calls. *)
Definition libcall (f : node -> io) : M unit :=
  fun w =>
    match f (tree w) with
    | (t', None) => (Ok tt, World t' (console w))
    | (t', Some e) => (Raised e, World t' (console w))
    end.

(** [Path.resolve()]. *)
Definition resolve (p : Path) : M Path :=
  fun w =>
    match realpath MAXSYMLINKS (tree w) [] p with
    | Some l => (Ok (of_loc l), w)
    | None => (Raised RuntimeError, w)
    end.

(** A dictionary subscript that must succeed. *)
Definition subscript {A : Type} (k : string) (d : list (string * A)) : M A :=
  match afind k d with
  | Some v => ret v
  | None => raise KeyError
  end.

Fixpoint for_each {A : Type} (l : list A) (body : A -> M unit) : M unit :=
  match l with
  | [] => ret tt
  | x :: l' => body x ;; for_each l' body
  end.

(** [path.parent / f"{path.name}.backup.{timestamp}"]; the clock reading
    [timestamp] is an input of the run. *)
Definition backup_name (n timestamp : string) : string :=
  (n ++ ".backup." ++ timestamp)%string.

Definition backup_path_of (p : Path) (timestamp : string) : Path :=
  parent p ++ [Name (backup_name (name p) timestamp)].

(** The write that ends [sync_resource] (sync-resource.py, lines 98-109) and
    [sync_item] (sync-single.py, lines 174-185): the two scripts have the
    same code there.  The file count that is printed is left out. *)
Definition execute (s : strategy) (source target : Path) : M unit :=
  match s with
  | symlink =>
      syscall (fun t => os_symlink t source target) ;;
      print (LinkCreated target source)
  | copy =>
      d <- query (fun t => is_dir t source) ;;
      if d then
        libcall (fun t => shutil_copytree t source target) ;;
        print (DirCopied source target)
      else
        syscall (fun t => shutil_copy2 t source target) ;;
        print (FileCopied source target)
  end.

(* ================================================================= *)
(** * Reports

    [show_status], [cleanup_links], [show_resource_status],
    [show_item_status] and [_list_items] print a report.  The report is
    modelled as the value they return, one constructor per message, in the
    order of printing; headings and blank lines are left out.  The warning
    of [_get_agent_config_dir] goes to the console as before. *)
Inductive line : Type :=
| NotInstalled (agent : string)
| Installed (agent : string)
| NotSupported (agent resource : string)
| Linked (resource : string) (link_target : Path)
| Independent (resource : string)
| Missing (resource : string)
| Cleaning (agent : string)
| Deleted (resource : string)
| IsLink (link_target : Path)
| IsDirectory
| IsFile (size : option nat)
| IsMissing
| Location (target : Path)
| Empty
| Item (item : string)
| Group (group_name : string)
| GroupItem (skill : string)
| Help.

(** A loop whose body reports. *)
Fixpoint report_each {A : Type} (l : list A) (body : A -> M (list line))
    : M (list line) :=
  match l with
  | [] => ret []
  | x :: l' =>
      first <- body x ;;
      others <- report_each l' body ;;
      ret (first ++ others)
  end.

(** The four-way test that ends [show_resource_status] (sync-resource.py,
    lines 157-168) and [show_item_status] (sync-single.py, lines 252-265);
    only the second prints the size of a file.  The file count of a
    directory is left out. *)
Definition kind_line (t : node) (target : Path) (with_size : bool) : line :=
  match lstat t target with
  | Some (Link link_target) => IsLink link_target
  | _ =>
      match stat t target with
      | Some (Dir _) => IsDirectory
      | Some (File data) =>
          IsFile (if with_size then Some (String.length data) else None)
      | Some (Link _) => IsFile None
      | None => IsMissing
      end
  end.

(** [sorted] on a list of strings: ascending by code point, which on the
    UTF-8 bytes of a string is the order of [String.leb]. *)
Fixpoint insert_sorted (x : string) (l : list string) : list string :=
  match l with
  | [] => [x]
  | y :: l' => if String.leb x y then x :: l else y :: insert_sorted x l'
  end.

Definition sorted (l : list string) : list string :=
  fold_right insert_sorted [] l.

(* ================================================================= *)
(** * [sync-config.py]: class [ConfigSyncer] *)

Module ConfigSyncer.

Definition _get_agent_config_dir (cfg : manifest) (agent : string) : M (option Path) :=
  match afind agent (agentCompatibility cfg) with
  | None => print (UnknownAgent agent) ;; ret None
  | Some a => ret (Some (configDir a))
  end.

Definition _backup_if_exists (timestamp : string) (p : Path) : M unit :=
  present <- query (fun t => exists_ t p && negb (is_symlink t p)) ;;
  if present then
    let backup_path := backup_path_of p timestamp in
    syscall (fun t => shutil_move t p backup_path) ;;
    print (Backup (name p) (name backup_path))
  else ret tt.

(** Body of the loop of [sync_symlink] over [resource_mapping.items()]. *)
Definition sync_symlink_resource (cfg : manifest) (timestamp : string)
    (config_dir : Path) (item : string * Path) : M unit :=
  let '(resource, relative_path) := item in
  match afind resource (sharedResources cfg) with
  | None => ret tt
  | Some r =>
      let source := sharedConfigPath cfg ++ path r in
      let target := config_dir ++ relative_path in
      libcall (fun t => mkdir_parents t (parent target)) ;;
      _backup_if_exists timestamp target ;;
      old <- query (fun t => is_symlink t target) ;;
      (if old then syscall (fun t => os_unlink t target) else ret tt) ;;
      syscall (fun t => os_symlink t source target) ;;
      print (LinkCreated target source)
  end.

Definition sync_symlink (cfg : manifest) (timestamp : string) (agent : string) : M bool :=
  config_dir <- _get_agent_config_dir cfg agent ;;
  match config_dir with
  | None => print (SkipAgent agent) ;; ret false
  | Some config_dir =>
      installed <- query (fun t => exists_ t config_dir) ;;
      if negb installed then print (SkipAgent agent) ;; ret false
      else
        print (Header agent symlink) ;;
        agent_config <- subscript agent (agentCompatibility cfg) ;;
        for_each (resourceMapping agent_config)
                 (sync_symlink_resource cfg timestamp config_dir) ;;
        ret true
  end.

(** Body of the loop of [sync_copy]. *)
Definition sync_copy_resource (cfg : manifest) (timestamp : string)
    (config_dir : Path) (item : string * Path) : M unit :=
  let '(resource, relative_path) := item in
  match afind resource (sharedResources cfg) with
  | None => ret tt
  | Some r =>
      let source := sharedConfigPath cfg ++ path r in
      let target := config_dir ++ relative_path in
      libcall (fun t => mkdir_parents t (parent target)) ;;
      _backup_if_exists timestamp target ;;
      d <- query (fun t => is_dir t source) ;;
      (if d then libcall (fun t => shutil_copytree t source target)
       else syscall (fun t => shutil_copy2 t source target)) ;;
      print (if d then DirCopied source target else FileCopied source target)
  end.

Definition sync_copy (cfg : manifest) (timestamp : string) (agent : string) : M bool :=
  config_dir <- _get_agent_config_dir cfg agent ;;
  match config_dir with
  | None => print (SkipAgent agent) ;; ret false
  | Some config_dir =>
      installed <- query (fun t => exists_ t config_dir) ;;
      if negb installed then print (SkipAgent agent) ;; ret false
      else
        print (Header agent copy) ;;
        agent_config <- subscript agent (agentCompatibility cfg) ;;
        for_each (resourceMapping agent_config)
                 (sync_copy_resource cfg timestamp config_dir) ;;
        ret true
  end.

(** The loop of [sync_all] over [supportedAgents], with its counter. *)
Fixpoint sync_all_loop (sync_func : string -> M bool) (agents : list string)
    (success_count : nat) : M nat :=
  match agents with
  | [] => ret success_count
  | agent :: rest =>
      ok <- sync_func agent ;;
      sync_all_loop sync_func rest (if ok then S success_count else success_count)
  end.

(** [self.sync_symlink if strategy == "symlink" else self.sync_copy]. *)
Definition sync_func (cfg : manifest) (timestamp : string) (s : strategy)
    : string -> M bool :=
  match s with
  | symlink => sync_symlink cfg timestamp
  | copy => sync_copy cfg timestamp
  end.

Definition sync_all (cfg : manifest) (timestamp : string) (s : strategy) : M unit :=
  print (BatchStart s) ;;
  success_count <-
    sync_all_loop (sync_func cfg timestamp s) (supportedAgents cfg) 0 ;;
  print (BatchDone success_count).

(** One line of the inner loop of [show_status] (lines 140-149). *)
Definition status_line (t : node) (resource : string) (target : Path) : line :=
  match lstat t target with
  | Some (Link link_target) => Linked resource link_target
  | _ => if exists_ t target then Independent resource else Missing resource
  end.

(** Body of the loop of [show_status] over [supportedAgents]. *)
Definition show_status_agent (cfg : manifest) (agent : string) : M (list line) :=
  config_dir <- _get_agent_config_dir cfg agent ;;
  match config_dir with
  | None => ret []
  | Some config_dir =>
      installed <- query (fun t => exists_ t config_dir) ;;
      if negb installed then ret [NotInstalled agent]
      else
        let resource_mapping :=
          match afind agent (agentCompatibility cfg) with
          | Some agent_config => resourceMapping agent_config
          | None => []
          end in
        lines <- query (fun t =>
                   map (fun item => status_line t (fst item) (config_dir ++ snd item))
                       resource_mapping) ;;
        ret (Installed agent :: lines)
  end.

Definition show_status (cfg : manifest) : M (list line) :=
  report_each (supportedAgents cfg) (show_status_agent cfg).

(** Body of the inner loop of [cleanup_links] (lines 169-174). *)
Definition cleanup_resource (config_dir : Path) (item : string * Path)
    : M (list line) :=
  let '(resource, relative_path) := item in
  let target := config_dir ++ relative_path in
  link <- query (fun t => is_symlink t target) ;;
  if link then
    syscall (fun t => os_unlink t target) ;;
    ret [Deleted resource]
  else ret [].

(** Body of the outer loop of [cleanup_links]. *)
Definition cleanup_agent (cfg : manifest) (agent_name : string) : M (list line) :=
  config_dir <- _get_agent_config_dir cfg agent_name ;;
  match config_dir with
  | None => ret []
  | Some config_dir =>
      installed <- query (fun t => exists_ t config_dir) ;;
      if negb installed then ret []
      else
        let resource_mapping :=
          match afind agent_name (agentCompatibility cfg) with
          | Some agent_config => resourceMapping agent_config
          | None => []
          end in
        lines <- report_each resource_mapping (cleanup_resource config_dir) ;;
        ret (Cleaning agent_name :: lines)
  end.

(** [cleanup_links(agent=None)]; an empty string counts as no agent, as
    [if agent] reads it. *)
Definition cleanup_links (cfg : manifest) (agent : option string) : M (list line) :=
  let agents_to_clean :=
    match agent with
    | Some a => if String.eqb a "" then supportedAgents cfg else [a]
    | None => supportedAgents cfg
    end in
  report_each agents_to_clean (cleanup_agent cfg).

(** The command line of [sync-config.py] once [argparse] has read it;
    [--strategy] has a default, [--agent] has none. *)
Record cli : Type := {
  arg_status : bool;
  arg_sync_all : bool;
  arg_agent : option string;
  arg_strategy : strategy;
  arg_cleanup : bool
}.

(** [main] from the point where the manifest is loaded (lines 230-242): the
    first option that is set decides, in this order; an agent given as the
    empty string counts as not given. *)
Definition main (cfg : manifest) (timestamp : string) (args : cli) : M (list line) :=
  if arg_status args then show_status cfg
  else if arg_sync_all args then
    sync_all cfg timestamp (arg_strategy args) ;; ret []
  else
    match arg_agent args with
    | Some (String a0 a) =>
        sync_func cfg timestamp (arg_strategy args) (String a0 a) ;; ret []
    | _ =>
        if arg_cleanup args then cleanup_links cfg None
        else ret [Help]
    end.

End ConfigSyncer.

(* ================================================================= *)
(** * [sync-resource.py]: class [ResourceSyncer] *)

Module ResourceSyncer.

Definition _get_agent_config_dir (cfg : manifest) (agent : string) : M (option Path) :=
  match afind agent (agentCompatibility cfg) with
  | None => print (UnknownAgent agent) ;; ret None
  | Some a => ret (Some (configDir a))
  end.

Definition _backup_if_exists (timestamp : string) (p : Path) : M unit :=
  present <- query (fun t => exists_ t p && negb (is_symlink t p)) ;;
  if present then
    let backup_path := backup_path_of p timestamp in
    syscall (fun t => shutil_move t p backup_path) ;;
    print (Backup (name p) (name backup_path))
  else ret tt.

Definition sync_resource (cfg : manifest) (timestamp : string)
    (agent resource : string) (s : strategy) : M bool :=
  config_dir <- _get_agent_config_dir cfg agent ;;
  match config_dir with
  | None => print (ConfigDirMissing agent) ;; ret false
  | Some config_dir =>
      installed <- query (fun t => exists_ t config_dir) ;;
      if negb installed then print (ConfigDirMissing agent) ;; ret false
      else
        match afind resource (sharedResources cfg) with
        | None => print (UnknownResource resource) ;; ret false
        | Some r =>
            agent_config <- subscript agent (agentCompatibility cfg) ;;
            match afind resource (resourceMapping agent_config) with
            | None => print (Unsupported agent resource) ;; ret false
            | Some relative_path =>
                let source := sharedConfigPath cfg ++ path r in
                target <- resolve (config_dir ++ relative_path) ;;
                print (Plan source target s) ;;
                libcall (fun t => mkdir_parents t (parent target)) ;;
                _backup_if_exists timestamp target ;;
                old <- query (fun t => is_symlink t target) ;;
                (if old then
                   syscall (fun t => os_unlink t target) ;;
                   print (OldLinkRemoved target)
                 else ret tt) ;;
                execute s source target ;;
                ret true
            end
        end
  end.

Definition show_resource_status (cfg : manifest) (agent resource : string)
    : M (list line) :=
  config_dir <- _get_agent_config_dir cfg agent ;;
  match config_dir with
  | None => ret [NotInstalled agent]
  | Some config_dir =>
      installed <- query (fun t => exists_ t config_dir) ;;
      if negb installed then ret [NotInstalled agent]
      else
        agent_config <- subscript agent (agentCompatibility cfg) ;;
        match afind resource (resourceMapping agent_config) with
        | None => ret [NotSupported agent resource]
        | Some relative_path =>
            target <- resolve (config_dir ++ relative_path) ;;
            kind <- query (fun t => kind_line t target false) ;;
            ret [kind; Location target]
        end
  end.

End ResourceSyncer.

(* ================================================================= *)
(** * [sync-single.py]: class [SingleItemSyncer] *)

Module SingleItemSyncer.

Definition _get_agent_config_dir (cfg : manifest) (agent : string) : M (option Path) :=
  match afind agent (agentCompatibility cfg) with
  | None => print (UnknownAgent agent) ;; ret None
  | Some a => ret (Some (configDir a))
  end.

(** [_find_skill_md]: the marker in the directory itself, else the first
    result of [rglob] none of whose parts starts with a dot.  The loop over
    [range(3)] repeats the same search; its variable is not used. *)
Definition _find_skill_md (t : node) (start_path : Path) : option Path :=
  let skill_md := start_path ++ [Name "SKILL.md"] in
  if exists_ t skill_md then Some skill_md
  else
    first_some
      (fun depth : nat =>
         find (fun item => negb (existsb startswith_dot (parts item)))
              (map (fun rel => start_path ++ of_loc rel)
                   (match stat t start_path with
                    | Some n => rglob "SKILL.md" n []
                    | None => []
                    end)))
      (seq 0 3).

Definition _backup_if_exists (timestamp : string) (p : Path) : M unit :=
  present <- query (fun t => exists_ t p) ;;
  if present then
    let backup_path := backup_path_of p timestamp in
    link <- query (fun t => is_symlink t p) ;;
    if link then
      syscall (fun t => os_unlink t p) ;;
      print (OldLinkRemoved p)
    else
      syscall (fun t => shutil_move t p backup_path) ;;
      print (Backup (name p) (name backup_path))
  else ret tt.

Definition agent_dir_map : list (string * string) :=
  [("claude-code", ".claude"); ("codex", ".codex"); ("opencode", ".opencode")].

(** Lines 106-112: the search through the nested groups, first match wins. *)
Definition nested_source (cfg : manifest) (source_base source : Path)
    (resource_type item_name : string) : M Path :=
  missing <- query (fun t => negb (exists_ t source)) ;;
  if String.eqb resource_type "skills" && missing then
    nested_skills <- subscript "skills" (sharedResources cfg) ;;
    match find (fun g => existsb (String.eqb item_name) (skills (snd g)))
               (nestedSkills nested_skills) with
    | Some (group_name, group_config) =>
        print (NestedSkillFound group_name item_name) ;;
        ret (source_base ++ basePath group_config ++ [Name item_name])
    | None => ret source
    end
  else ret source.

(** Lines 114-140: the agent's own directory inside the skill, else the
    directory of the marker file. *)
Definition skill_source (source : Path) (agent resource_type item_name : string)
    : M Path :=
  d <- query (fun t => is_dir t source) ;;
  if String.eqb resource_type "skills" && d then
    match afind agent agent_dir_map with
    | Some agent_subdir =>
        let agent_skill_path :=
          source ++ [Name agent_subdir; Name "skills"; Name item_name] in
        own <- query (fun t => is_dir t agent_skill_path) ;;
        if own then
          print (AgentSkillStructure source agent_skill_path) ;;
          ret agent_skill_path
        else
          skill_md <- query (fun t => _find_skill_md t source) ;;
          match skill_md with
          | Some skill_md =>
              let actual_source := parent skill_md in
              if negb (path_eqb actual_source source) then
                print (NestedSkillStructure source actual_source) ;;
                ret actual_source
              else ret source
          | None =>
              marker <- query (fun t => exists_ t (source ++ [Name "SKILL.md"])) ;;
              (if negb marker then print (SkillMdNotFound source) else ret tt) ;;
              ret source
          end
    | None => ret source
    end
  else ret source.

Definition sync_item (cfg : manifest) (timestamp : string)
    (agent resource_type item_name : string) (s : strategy) : M bool :=
  config_dir <- _get_agent_config_dir cfg agent ;;
  match config_dir with
  | None => print (ConfigDirMissing agent) ;; ret false
  | Some config_dir =>
      installed <- query (fun t => exists_ t config_dir) ;;
      if negb installed then print (ConfigDirMissing agent) ;; ret false
      else
        match afind resource_type (sharedResources cfg) with
        | None => print (UnknownResource resource_type) ;; ret false
        | Some r =>
            let source_base := sharedConfigPath cfg ++ path r in
            let source := source_base ++ [Name item_name] in
            source <- nested_source cfg source_base source resource_type item_name ;;
            source <- skill_source source agent resource_type item_name ;;
            found <- query (fun t => exists_ t source) ;;
            if negb found then print (SourceMissing source) ;; ret false
            else
              agent_config <- subscript agent (agentCompatibility cfg) ;;
              match afind resource_type (resourceMapping agent_config) with
              | None => print (Unsupported agent resource_type) ;; ret false
              | Some relative_path =>
                  target_base <- resolve (config_dir ++ relative_path) ;;
                  let target := target_base ++ [Name item_name] in
                  print (Plan source target s) ;;
                  libcall (fun t => mkdir_parents t target_base) ;;
                  _backup_if_exists timestamp target ;;
                  execute s source target ;;
                  print Done ;;
                  ret true
              end
        end
  end.

(** [_list_items].  [sync_item] calls it before it returns [False] for a
    missing source; that call is left out of [sync_item] above, as the
    conventions say, so what is shown of [_list_items] below holds of the
    function called on its own ([list_all_items] does so). *)
Definition _list_items (cfg : manifest) (resource_type : string) : M (list line) :=
  r <- subscript resource_type (sharedResources cfg) ;;
  let source_base := sharedConfigPath cfg ++ path r in
  present <- query (fun t => exists_ t source_base) ;;
  if negb present then ret [Empty]
  else
    names <- (fun w =>
                match iterdir (tree w) source_base with
                | inr names => (Ok names, w)
                | inl e => (Raised e, w)
                end) ;;
    let items := filter (fun n => negb (startswith_dot n)) names in
    let listed :=
      match items with
      | [] => [Empty]
      | _ :: _ => map Item (sorted items)
      end in
    if String.eqb resource_type "skills" then
      nested_skills <- subscript "skills" (sharedResources cfg) ;;
      ret (listed ++
           flat_map (fun g =>
                       match skills (snd g) with
                       | [] => []
                       | _ :: _ => Group (fst g) :: map GroupItem (sorted (skills (snd g)))
                       end)
                    (nestedSkills nested_skills))
    else ret listed.

Definition show_item_status (cfg : manifest) (agent resource_type item_name : string)
    : M (list line) :=
  config_dir <- _get_agent_config_dir cfg agent ;;
  match config_dir with
  | None => ret [NotInstalled agent]
  | Some config_dir =>
      installed <- query (fun t => exists_ t config_dir) ;;
      if negb installed then ret [NotInstalled agent]
      else
        agent_config <- subscript agent (agentCompatibility cfg) ;;
        match afind resource_type (resourceMapping agent_config) with
        | None => ret [NotSupported agent resource_type]
        | Some relative_path =>
            target_base <- resolve (config_dir ++ relative_path) ;;
            let target := target_base ++ [Name item_name] in
            kind <- query (fun t => kind_line t target true) ;;
            ret [kind; Location target]
        end
  end.

End SingleItemSyncer.

(* ================================================================= *)
(** * What a run resolves

    The source and the destination of a run, as the scripts compute them
    before they write; used to state the properties below. *)

(** [shared_config_dir / sharedResources[resource]["path"]]. *)
Definition shared_source (cfg : manifest) (resource : string) : option Path :=
  match afind resource (sharedResources cfg) with
  | Some r => Some (sharedConfigPath cfg ++ path r)
  | None => None
  end.

(** [(config_dir / resourceMapping[resource]).resolve()]. *)
Definition resolved_mapping (cfg : manifest) (agent resource : string) (t : node)
    : option Path :=
  match afind agent (agentCompatibility cfg) with
  | Some a =>
      match afind resource (resourceMapping a) with
      | Some relative_path =>
          match realpath MAXSYMLINKS t [] (configDir a ++ relative_path) with
          | Some l => Some (of_loc l)
          | None => None
          end
      | None => None
      end
  | None => None
  end.


(** The source of [sync_item] once lines 99-140 have run. *)
Definition located_source (cfg : manifest) (agent resource_type item_name : string)
    (w : world) : option Path :=
  match shared_source cfg resource_type with
  | Some source_base =>
      match SingleItemSyncer.nested_source cfg source_base
              (source_base ++ [Name item_name]) resource_type item_name w with
      | (Ok source, w1) =>
          match SingleItemSyncer.skill_source source agent resource_type item_name w1 with
          | (Ok source', _) => Some source'
          | _ => None
          end
      | _ => None
      end
  | None => None
  end.

(** The setting in which the copy strategy is studied.  The source is a
    plain directory at location [sp]; the destination is the name [n] in the
    existing directory [pd] and is not a link; the name the backup would
    take is free; the source lies apart from the destination and from the
    backup. *)
Definition copy_setting (t : node) (sp pd : loc) (n : string)
    (es : list (string * node)) (timestamp : string) : Prop :=
  get t sp = Some (Dir es) /\
  plain (Dir es) = true /\
  (exists ed, get t pd = Some (Dir ed)) /\
  (forall tg, get t (pd ++ [n]) <> Some (Link tg)) /\
  get t (pd ++ [backup_name n timestamp]) = None /\
  apart sp (pd ++ [n]) = true /\
  apart sp (pd ++ [backup_name n timestamp]) = true.

(** What a step leaves alone: everything apart from the destination [n] in
    [pd] and from the backup [b] next to it. *)
Definition frame (t t' : node) (pd : loc) (n b : string) : Prop :=
  forall q, apart q (pd ++ [n]) = true -> apart q (pd ++ [b]) = true ->
            get t' q = get t q.

(** What one run with the copy strategy leaves behind. *)
Definition copied_to (t t' : node) (sp pd : loc) (n : string)
    (es : list (string * node)) (timestamp : string) : Prop :=
  get t' (pd ++ [n]) = Some (Dir es)
  /\ get t' sp = Some (Dir es)
  /\ (exists ed, get t' pd = Some (Dir ed))
  /\ frame t t' pd n (backup_name n timestamp).


(** The first group, in document order, that lists the item. *)
Definition first_group_with (item_name : string)
    (groups : list (string * nested_group)) (g : string * nested_group) : Prop :=
  exists before after,
    groups = before ++ g :: after /\
    In item_name (skills (snd g)) /\
    forall g', In g' before -> ~ In item_name (skills (snd g')).

(** A tool is installed when the manifest knows it and its configuration
    directory exists. *)
Definition installed (cfg : manifest) (t : node) (agent : string) : bool :=
  match afind agent (agentCompatibility cfg) with
  | Some a => exists_ t (configDir a)
  | None => false
  end.

(** A batch as a sequence of runs, one per tool in the given order, each
    returning normally with its verdict. *)
Inductive batch (sync_func : string -> M bool)
  : list string -> world -> list bool -> world -> Prop :=
| batch_nil : forall w, batch sync_func [] w [] w
| batch_cons : forall agent rest w ok w1 oks w',
    sync_func agent w = (Ok ok, w1) ->
    batch sync_func rest w1 oks w' ->
    batch sync_func (agent :: rest) w (ok :: oks) w'.

Definition count_true (l : list bool) : nat := List.length (filter (fun b => b) l).

(** The batch claim as the specification words it: whatever happens to one
    tool, the batch goes on to the end and reports a count. *)
Definition batch_never_aborts (cfg : manifest) (timestamp : string) (s : strategy)
    (w : world) : Prop :=
  exists n w',
    ConfigSyncer.sync_all cfg timestamp s w = (Ok tt, w') /\
    last (console w') Done = BatchDone n.

(* ================================================================= *)
(** * Sample manifest and trees *)

Module Sample.

Definition P (l : list string) : Path := of_loc l.

Definition cfg : manifest := {|
  sharedConfigPath := P ["shared"];
  supportedAgents := ["claude-code"; "codex"];
  agentCompatibility :=
    [("claude-code",
      {| configDir := P ["home"; "claude"];
         resourceMapping := [("agents", P ["agents"]); ("skills", P ["skills"])] |});
     ("codex",
      {| configDir := P ["home"; "codex"];
         resourceMapping := [("agents", P ["agents"])] |})];
  sharedResources :=
    [("agents", {| path := P ["agents"]; nestedSkills := [] |});
     ("skills",
      {| path := P ["skills"];
         nestedSkills :=
           [("g", {| basePath := P ["shared"; "g"]; skills := ["alpha"] |})] |})]
|}.

Definition agents_dir : node :=
  Dir [("a.md", File "A"); ("sub", Dir [("b.md", File "B")])].

Definition empty_homes : string * node :=
  ("home", Dir [("claude", Dir []); ("codex", Dir [])]).

(** A fresh installation: the shared tree and two empty tool directories. *)
Definition fresh : node :=
  Dir [("shared", Dir [("agents", agents_dir); ("skills", Dir [])]); empty_homes].

(** The marker file four directories below the skill [foo]. *)
Definition deep_marker : node :=
  Dir [("shared",
        Dir [("skills",
              Dir [("foo",
                    Dir [("d1", Dir [("d2", Dir [("d3", Dir [("d4",
                      Dir [("SKILL.md", File "marker")])])])])])])]);
       empty_homes].

Definition foo : Path := P ["shared"; "skills"; "foo"].
Definition foo_d4 : Path := P ["shared"; "skills"; "foo"; "d1"; "d2"; "d3"; "d4"].

(** The shared [agents] directory is missing; the tool has agents of its own. *)
Definition no_source : node :=
  Dir [("shared", Dir []);
       ("home", Dir [("claude", Dir [("agents", Dir [("mine.md", File "M")])]);
                     ("codex", Dir [])])].

(** The destination of [codex] is a link left by an earlier link-mode run. *)
Definition linked : node :=
  Dir [("shared", Dir [("agents", agents_dir); ("skills", Dir [])]);
       ("home", Dir [("claude", Dir []);
                     ("codex", Dir [("agents", Link (P ["shared"; "agents"]))])])].

(** The configuration directory of the first tool is a regular file. *)
Definition blocked : node :=
  Dir [("shared", Dir [("agents", agents_dir); ("skills", Dir [])]);
       ("home", Dir [("claude", File "not a directory"); ("codex", Dir [])])].

(** The destination of a single item is a link whose target is gone. *)
Definition dangling : node :=
  Dir [("shared", Dir [("agents", agents_dir); ("skills", Dir [])]);
       ("home", Dir [("claude", Dir [("agents", Dir [("a.md", Link (P ["gone"]))])]);
                     ("codex", Dir [])])].

(** A skill kept in a nested group, with a directory of its own for codex. *)
Definition nested : node :=
  Dir [("shared",
        Dir [("agents", agents_dir);
             ("skills",
              Dir [("shared",
                    Dir [("g",
                          Dir [("alpha",
                                Dir [("SKILL.md", File "alpha");
                                     (".codex",
                                      Dir [("skills",
                                            Dir [("alpha",
                                                  Dir [("SKILL.md", File "codex alpha")])])])])])])])]);
       empty_homes].

Definition start (t : node) : world := World t [].

(** The shared tree lives in a directory whose name starts with a dot; the
    skill [foo] keeps its marker one directory down. *)
Definition hidden : node :=
  Dir [(".claude",
        Dir [("skills",
              Dir [("foo", Dir [("inner", Dir [("SKILL.md", File "marker")])])])]);
       empty_homes].

Definition hidden_foo : Path := P [".claude"; "skills"; "foo"].

(** The skill [alpha] is both directly under the base path and in the
    group that the manifest lists it in. *)
Definition both : node :=
  Dir [("shared",
        Dir [("agents", agents_dir);
             ("skills",
              Dir [("alpha", Dir [("SKILL.md", File "direct")]);
                   ("shared",
                    Dir [("g", Dir [("alpha", Dir [("SKILL.md", File "grouped")])])])])]);
       empty_homes].

(** The tool has agents of its own, and a backup taken at the clock
    reading ["T"] is next to them. *)
Definition backed_up : node :=
  Dir [("shared", Dir []);
       ("home", Dir [("claude", Dir [("agents", Dir [("mine.md", File "M")]);
                                     ("agents.backup.T", Dir [("old.md", File "O")])]);
                     ("codex", Dir [])])].

(** The shared [agents] directory holds a hidden entry and names in no
    particular order. *)
Definition listing : node :=
  Dir [("shared",
        Dir [("agents",
              Dir [("zeta.md", File "Z"); (".git", Dir []);
                   ("beta.md", File "B"); ("Alpha.md", File "A")]);
             ("skills", Dir [])]);
       empty_homes].

(** The base path of the skills is a regular file. *)
Definition skills_file : node :=
  Dir [("shared", Dir [("agents", agents_dir); ("skills", File "not a directory")]);
       empty_homes].

(** The first tool has agents of its own where the shared ones are to go. *)
Definition own_agents : node :=
  Dir [("shared", Dir [("agents", agents_dir); ("skills", Dir [])]);
       ("home", Dir [("claude", Dir [("agents", Dir [("mine.md", File "M")])]);
                     ("codex", Dir [])])].

(** A manifest whose mapping for [codex] runs through directories of its own. *)
Definition deep_cfg : manifest := {|
  sharedConfigPath := P ["shared"];
  supportedAgents := ["codex"];
  agentCompatibility :=
    [("codex",
      {| configDir := P ["home"; "codex"];
         resourceMapping := [("agents", P ["plugins"; "shared"; "agents"])] |})];
  sharedResources := [("agents", {| path := P ["agents"]; nestedSkills := [] |})]
|}.

End Sample.

(* ================================================================= *)
(** * Properties *)

Unset Implicit Arguments.

Ltac run := unfold bind, ret, raise, print, query, syscall, libcall, subscript; cbv beta iota.

(* ----------------------------------------------------------------- *)
(** ** The marker search of [_find_skill_md] *)

(** The loop over [range(3)] adds nothing: the search is one [rglob]. *)
Lemma find_skill_md_one_search (t : node) (start_path : Path) :
  SingleItemSyncer._find_skill_md t start_path =
  if exists_ t (start_path ++ [Name "SKILL.md"])
  then Some (start_path ++ [Name "SKILL.md"])
  else find (fun item => negb (existsb startswith_dot (parts item)))
            (map (fun rel => start_path ++ of_loc rel)
                 (match stat t start_path with
                  | Some n => rglob "SKILL.md" n []
                  | None => []
                  end)).
Proof.
  unfold SingleItemSyncer._find_skill_md.
  destruct (exists_ t (start_path ++ [Name "SKILL.md"])); [reflexivity|].
  simpl. destruct (find _ _); reflexivity.
Qed.

(** C1 (the code departs from the claim): a [SKILL.md] four directories
    below the candidate directory of a skill is found by the fallback search,
    the source becomes the directory that holds it, and no
    marker-not-found diagnostic is printed; the link that [sync_item] then
    creates points there. *)
Theorem marker_at_depth_four_is_found :
  SingleItemSyncer._find_skill_md Sample.deep_marker Sample.foo
    = Some (Sample.foo_d4 ++ [Name "SKILL.md"])
  /\ SingleItemSyncer.skill_source Sample.foo "claude-code" "skills" "foo"
       (Sample.start Sample.deep_marker)
    = (Ok Sample.foo_d4,
       World Sample.deep_marker [NestedSkillStructure Sample.foo Sample.foo_d4])
  /\ (let '(r, w) := SingleItemSyncer.sync_item Sample.cfg "T" "claude-code"
                       "skills" "foo" symlink (Sample.start Sample.deep_marker) in
      r = Ok true
      /\ readlink (tree w) (Sample.P ["home"; "claude"; "skills"; "foo"])
         = Some Sample.foo_d4
      /\ ~ In (SkillMdNotFound Sample.foo) (console w)).
Proof.
  split; [vm_compute; reflexivity|].
  split; [vm_compute; reflexivity|].
  vm_compute. split; [reflexivity|]. split; [reflexivity|].
  intros H. repeat (destruct H as [H|H]; [discriminate H|]). exact H.
Qed.

(* ----------------------------------------------------------------- *)
(** ** A missing source *)

Lemma nested_source_tree cfg source_base source resource_type item_name w r w' :
  SingleItemSyncer.nested_source cfg source_base source resource_type item_name w
    = (r, w') ->
  tree w' = tree w.
Proof.
  unfold SingleItemSyncer.nested_source. run.
  destruct (String.eqb resource_type "skills" && negb (exists_ (tree w) source)).
  - destruct (afind "skills" (sharedResources cfg)) as [ns|]; simpl.
    + destruct (find _ (nestedSkills ns)) as [[g gc]|]; simpl;
        intros H; inversion H; reflexivity.
    + intros H; inversion H; reflexivity.
  - intros H; inversion H; reflexivity.
Qed.

Lemma skill_source_tree source agent resource_type item_name w r w' :
  SingleItemSyncer.skill_source source agent resource_type item_name w = (r, w') ->
  tree w' = tree w.
Proof.
  unfold SingleItemSyncer.skill_source. run.
  destruct (String.eqb resource_type "skills" && is_dir (tree w) source).
  - destruct (afind agent SingleItemSyncer.agent_dir_map) as [sub|].
    + destruct (is_dir (tree w) _); simpl.
      * intros H; inversion H; reflexivity.
      * destruct (SingleItemSyncer._find_skill_md (tree w) source) as [md|]; simpl.
        -- destruct (negb (path_eqb (parent md) source)); simpl;
             intros H; inversion H; reflexivity.
        -- destruct (negb (exists_ (tree w) (source ++ [Name "SKILL.md"]))); simpl;
             intros H; inversion H; reflexivity.
    + intros H; inversion H; reflexivity.
  - intros H; inversion H; reflexivity.
Qed.

(** [sync_item] checks its source before it writes: whenever it gives up
    (returns [False]) the file tree is as it was. *)
Lemma sync_item_failure_writes_nothing cfg ts agent resource_type item_name s w w' :
  SingleItemSyncer.sync_item cfg ts agent resource_type item_name s w = (Ok false, w') ->
  tree w' = tree w.
Proof.
  unfold SingleItemSyncer.sync_item, SingleItemSyncer._get_agent_config_dir.
  destruct (afind agent (agentCompatibility cfg)) as [a|] eqn:Ha; run;
    [|intros H; inversion H; reflexivity].
  destruct (exists_ (tree w) (configDir a)); simpl;
    [|intros H; inversion H; reflexivity].
  destruct (afind resource_type (sharedResources cfg)) as [r|]; run;
    [|intros H; inversion H; reflexivity].
  destruct (SingleItemSyncer.nested_source _ _ _ _ _ w) as [[s1|e1] w1] eqn:E1;
    [|intros H; inversion H].
  apply nested_source_tree in E1.
  destruct (SingleItemSyncer.skill_source s1 agent resource_type item_name w1)
    as [[s2|e2] w2] eqn:E2; [|intros H; inversion H].
  apply skill_source_tree in E2.
  destruct (exists_ (tree w2) s2); simpl;
    [|intros H; inversion H; simpl; congruence].
  rewrite Ha; simpl.
  destruct (afind resource_type (resourceMapping a)) as [rel|]; run;
    [|intros H; inversion H; simpl; congruence].
  unfold resolve.
  destruct (realpath MAXSYMLINKS (tree w2) [] (configDir a ++ rel)) as [l|];
    [|intros H; inversion H].
  simpl.
  destruct (mkdir_parents (tree w2) (of_loc l)) as [t3 [e3|]];
    [intros H; inversion H|].
  simpl.
  destruct (SingleItemSyncer._backup_if_exists ts (of_loc l ++ [Name item_name]) _)
    as [[u|e4] w4]; [|intros H; inversion H].
  destruct (execute s s2 (of_loc l ++ [Name item_name]) w4) as [[u'|e5] w5];
    intros H; inversion H.
Qed.

(** C2 (the code departs from the claim): [sync_resource] does not look for
    its source.  With the shared [agents] directory missing, the link run
    moves the tool's own directory to a backup, leaves a dangling link and
    returns success; the copy run moves the directory away as well and then
    stops in [copy2] with [FileNotFoundError]. *)
Theorem sync_resource_ignores_missing_source :
  exists_ Sample.no_source (Sample.P ["shared"; "agents"]) = false
  /\ (let '(r, w) := ResourceSyncer.sync_resource Sample.cfg "T" "claude-code"
                       "agents" symlink (Sample.start Sample.no_source) in
      r = Ok true
      /\ get (tree w) ["home"; "claude"; "agents.backup.T"]
         = Some (Dir [("mine.md", File "M")])
      /\ get (tree w) ["home"; "claude"; "agents"]
         = Some (Link (Sample.P ["shared"; "agents"])))
  /\ (let '(r, w) := ResourceSyncer.sync_resource Sample.cfg "T" "claude-code"
                       "agents" copy (Sample.start Sample.no_source) in
      r = Raised FileNotFoundError
      /\ get (tree w) ["home"; "claude"; "agents.backup.T"]
         = Some (Dir [("mine.md", File "M")])
      /\ get (tree w) ["home"; "claude"; "agents"] = None).
Proof. vm_compute. repeat split; reflexivity. Qed.

(* ----------------------------------------------------------------- *)
(** ** A destination that is a link, in [ConfigSyncer.sync_copy] *)

(** C3 (the code departs from the claim): [ConfigSyncer._backup_if_exists]
    skips a link, and [sync_copy], unlike [sync_symlink], has no step that
    removes it.  Run on a destination that is a link to the shared
    directory, [sync_copy] copies through the link, every file onto itself,
    and stops with [shutil.Error]; the link is still there.
    [sync_symlink] on the same tree replaces the link. *)
Theorem sync_copy_keeps_link_destination :
  is_symlink Sample.linked (Sample.P ["home"; "codex"; "agents"]) = true
  /\ (let '(r, w) := ConfigSyncer._backup_if_exists "T"
                       (Sample.P ["home"; "codex"; "agents"])
                       (Sample.start Sample.linked) in
      r = Ok tt /\ tree w = Sample.linked)
  /\ (let '(r, w) := ConfigSyncer.sync_copy Sample.cfg "T" "codex"
                       (Sample.start Sample.linked) in
      r = Raised ShutilError
      /\ is_symlink (tree w) (Sample.P ["home"; "codex"; "agents"]) = true
      /\ tree w = Sample.linked)
  /\ fst (ConfigSyncer.sync_symlink Sample.cfg "T" "codex"
            (Sample.start Sample.linked)) = Ok true.
Proof. vm_compute. repeat split; reflexivity. Qed.

(* ----------------------------------------------------------------- *)
(** ** The shared tree under [sync_resource] *)

(** C4 (the code departs from the claim): [sync_resource] resolves its
    destination with [Path.resolve()], which follows a link at the
    destination itself.  A second link-mode run on a fresh installation
    therefore takes the shared directory for its destination: it moves the
    shared directory to a backup and puts a link to itself in its place. *)
Theorem second_sync_resource_moves_shared_source :
  let w0 := Sample.start Sample.fresh in
  let '(r1, w1) := ResourceSyncer.sync_resource Sample.cfg "T1" "claude-code"
                     "agents" symlink w0 in
  let '(r2, w2) := ResourceSyncer.sync_resource Sample.cfg "T2" "claude-code"
                     "agents" symlink w1 in
  r1 = Ok true /\ r2 = Ok true
  /\ get (tree w0) ["shared"; "agents"] = Some Sample.agents_dir
  /\ get (tree w1) ["shared"; "agents"] = Some Sample.agents_dir
  /\ resolved_mapping Sample.cfg "claude-code" "agents" (tree w1)
     = Some (Sample.P ["shared"; "agents"])
  /\ get (tree w2) ["shared"; "agents"] = Some (Link (Sample.P ["shared"; "agents"]))
  /\ get (tree w2) ["shared"; "agents.backup.T2"] = Some Sample.agents_dir.
Proof. vm_compute. repeat split; reflexivity. Qed.

(* ----------------------------------------------------------------- *)
(** ** The batch of [sync_all] *)

(** A tool that the manifest does not know, or whose configuration
    directory does not exist, is skipped: its run returns [False] and
    leaves the file tree alone. *)
Lemma not_installed_skipped cfg ts s agent w :
  installed cfg (tree w) agent = false ->
  exists w',
    ConfigSyncer.sync_func cfg ts s agent w = (Ok false, w') /\ tree w' = tree w.
Proof.
  unfold installed, ConfigSyncer.sync_func.
  destruct s;
    unfold ConfigSyncer.sync_symlink, ConfigSyncer.sync_copy,
      ConfigSyncer._get_agent_config_dir;
    (destruct (afind agent (agentCompatibility cfg)) as [a|]; run;
     [intros ->; simpl; eexists; split; reflexivity
     |intros _; eexists; split; reflexivity]).
Qed.

Lemma sync_all_loop_ok f agents : forall c w n w',
  ConfigSyncer.sync_all_loop f agents c w = (Ok n, w') ->
  exists oks, batch f agents w oks w' /\ n = c + count_true oks.
Proof.
  induction agents as [|agent rest IH]; intros c w n w'; simpl.
  - unfold ret. intros H; inversion H; subst.
    exists []. split; [constructor|]. unfold count_true; simpl; lia.
  - unfold bind at 1. destruct (f agent w) as [[ok|e] w1] eqn:E; [|discriminate].
    intros H. apply IH in H. destruct H as [oks [Hb Hn]].
    exists (ok :: oks). split; [econstructor; eassumption|].
    subst n. unfold count_true. destruct ok; simpl; lia.
Qed.

Lemma sync_all_loop_raised f agents : forall c w e w',
  ConfigSyncer.sync_all_loop f agents c w = (Raised e, w') ->
  exists done agent rest oks w1,
    agents = done ++ agent :: rest /\
    batch f done w oks w1 /\
    f agent w1 = (Raised e, w').
Proof.
  induction agents as [|agent rest IH]; intros c w e w'; simpl.
  - unfold ret. discriminate.
  - unfold bind at 1. destruct (f agent w) as [[ok|e1] w1] eqn:E.
    + intros H. apply IH in H.
      destruct H as [done [a [rest' [oks [w2 [Hl [Hb Hf]]]]]]].
      exists (agent :: done), a, rest', (ok :: oks), w2.
      split; [simpl; congruence|]. split; [econstructor; eassumption|exact Hf].
    + intros H; inversion H; subst.
      exists [], agent, rest, [], w. split; [reflexivity|].
      split; [constructor|exact E].
Qed.

(** C5, as the specification words it, fails: when the configuration
    directory of the first tool is a regular file, [mkdir] raises
    [FileExistsError] inside that tool's run; nothing catches it, the batch
    stops there, no count is reported and the second tool is never
    synchronised. *)
Lemma batch_aborts_on_error :
  fst (ConfigSyncer.sync_all Sample.cfg "T" symlink (Sample.start Sample.blocked))
    = Raised FileExistsError
  /\ get (tree (snd (ConfigSyncer.sync_all Sample.cfg "T" symlink
                       (Sample.start Sample.blocked))))
         ["home"; "codex"; "agents"] = None
  /\ ~ batch_never_aborts Sample.cfg "T" symlink (Sample.start Sample.blocked).
Proof.
  split; [vm_compute; reflexivity|]. split; [vm_compute; reflexivity|].
  intros [n [w' [H _]]]. vm_compute in H. discriminate H.
Qed.

(** C5, amended: [sync_all] runs the tools one after the other in the order
    of [supportedAgents]; a tool that is not installed is skipped with the
    file tree untouched and the batch goes on; when every run returns, the
    batch reports the number of runs that returned [True]; an exception
    raised in the run of one tool ends the batch at that tool. *)
Theorem sync_all_counts_until_error cfg ts s w :
  let f := ConfigSyncer.sync_func cfg ts s in
  let w0 := World (tree w) (console w ++ [BatchStart s]) in
  (forall agent w1,
      installed cfg (tree w1) agent = false ->
      exists w2, f agent w1 = (Ok false, w2) /\ tree w2 = tree w1)
  /\ match ConfigSyncer.sync_all cfg ts s w with
     | (Ok _, w') =>
         exists oks w1,
           batch f (supportedAgents cfg) w0 oks w1 /\
           w' = World (tree w1) (console w1 ++ [BatchDone (count_true oks)])
     | (Raised e, w') =>
         exists done agent rest oks w1,
           supportedAgents cfg = done ++ agent :: rest /\
           batch f done w0 oks w1 /\
           f agent w1 = (Raised e, w')
     end.
Proof.
  intros f w0. split.
  - intros agent w1 H. apply not_installed_skipped; exact H.
  - unfold ConfigSyncer.sync_all. unfold bind at 1. unfold print at 1.
    fold w0. unfold bind at 1. fold f.
    destruct (ConfigSyncer.sync_all_loop f (supportedAgents cfg) 0 w0)
      as [[n|e] w1] eqn:E.
    + apply sync_all_loop_ok in E. destruct E as [oks [Hb Hn]].
      unfold print. exists oks, w1. split; [exact Hb|].
      simpl in Hn. subst n. reflexivity.
    + apply sync_all_loop_raised in E. exact E.
Qed.

(** On the fresh installation both tools are synchronised, in manifest
    order, and the count reported is 2. *)
Example sync_all_fresh :
  snd (ConfigSyncer.sync_all Sample.cfg "T" symlink (Sample.start Sample.fresh))
  = World
      (Dir [("shared", Dir [("agents", Sample.agents_dir); ("skills", Dir [])]);
            ("home",
             Dir [("claude",
                   Dir [("agents", Link (Sample.P ["shared"; "agents"]));
                        ("skills", Link (Sample.P ["shared"; "skills"]))]);
                  ("codex",
                   Dir [("agents", Link (Sample.P ["shared"; "agents"]))])])])
      [BatchStart symlink;
       Header "claude-code" symlink;
       LinkCreated (Sample.P ["home"; "claude"; "agents"]) (Sample.P ["shared"; "agents"]);
       LinkCreated (Sample.P ["home"; "claude"; "skills"]) (Sample.P ["shared"; "skills"]);
       Header "codex" symlink;
       LinkCreated (Sample.P ["home"; "codex"; "agents"]) (Sample.P ["shared"; "agents"]);
       BatchDone 2].
Proof. vm_compute. reflexivity. Qed.

(** A tool the manifest does not know is skipped. *)
Lemma sync_all_counts_until_error_witness :
  installed Sample.cfg (tree (Sample.start Sample.blocked)) "unknown" = false
  /\ exists w2,
       ConfigSyncer.sync_func Sample.cfg "T" symlink "unknown"
         (Sample.start Sample.blocked) = (Ok false, w2)
       /\ tree w2 = tree (Sample.start Sample.blocked).
Proof.
  split; [reflexivity|].
  apply (proj1 (sync_all_counts_until_error Sample.cfg "T" symlink
                  (Sample.start Sample.blocked))).
  reflexivity.
Defined.

(* ----------------------------------------------------------------- *)
(** ** Nested groups *)

Lemma existsb_eqb_In (x : string) (l : list string) :
  existsb (String.eqb x) l = true <-> In x l.
Proof.
  rewrite existsb_exists. split.
  - intros [y [Hy He]]. apply String.eqb_eq in He. subst. exact Hy.
  - intros H. exists x. split; [exact H|apply String.eqb_refl].
Qed.

Lemma find_first_group item_name groups g :
  first_group_with item_name groups g ->
  find (fun g => existsb (String.eqb item_name) (skills (snd g))) groups = Some g.
Proof.
  intros [before [after [-> [Hin Hnot]]]].
  induction before as [|b before IH]; simpl.
  - apply existsb_eqb_In in Hin. rewrite Hin. reflexivity.
  - destruct (existsb (String.eqb item_name) (skills (snd b))) eqn:E.
    + apply existsb_eqb_In in E. exfalso. apply (Hnot b); [left; reflexivity|exact E].
    + apply IH. intros g' Hg'. apply Hnot. right. exact Hg'.
Qed.

(** C6: for kind "skills", when [base/itemName] does not exist and some
    nested group lists the item, the source becomes
    [base / group.basePath / itemName] for the first group, in document
    order, that lists it.  (The later steps of the resolution start from
    that path; when it is not a directory they leave it as it is.) *)
Theorem nested_group_resolution cfg agent item_name w ns g :
  let source_base := sharedConfigPath cfg ++ path ns in
  let nested := source_base ++ basePath (snd g) ++ [Name item_name] in
  afind "skills" (sharedResources cfg) = Some ns ->
  exists_ (tree w) (source_base ++ [Name item_name]) = false ->
  first_group_with item_name (nestedSkills ns) g ->
  SingleItemSyncer.nested_source cfg source_base (source_base ++ [Name item_name])
      "skills" item_name w
    = (Ok nested, World (tree w) (console w ++ [NestedSkillFound (fst g) item_name]))
  /\ (is_dir (tree w) nested = false ->
      located_source cfg agent "skills" item_name w = Some nested).
Proof.
  intros source_base nested Hns Hex Hg.
  assert (E : SingleItemSyncer.nested_source cfg source_base
                (source_base ++ [Name item_name]) "skills" item_name w
              = (Ok nested,
                 World (tree w) (console w ++ [NestedSkillFound (fst g) item_name]))).
  { unfold SingleItemSyncer.nested_source. run. rewrite Hex. simpl.
    rewrite Hns. run. rewrite (find_first_group _ _ _ Hg). destruct g as [gn gc].
    reflexivity. }
  split; [exact E|].
  intros Hdir. unfold located_source, shared_source. rewrite Hns.
  fold source_base. rewrite E.
  unfold SingleItemSyncer.skill_source. run. cbn [tree]. rewrite Hdir.
  reflexivity.
Qed.

(** The nested group of the sample manifest: [alpha] lives under
    [shared/g]. *)
Lemma nested_group_resolution_witness :
  SingleItemSyncer.nested_source Sample.cfg (Sample.P ["shared"; "skills"])
      (Sample.P ["shared"; "skills"; "alpha"]) "skills" "alpha"
      (Sample.start Sample.fresh)
  = (Ok (Sample.P ["shared"; "skills"; "shared"; "g"; "alpha"]),
     World Sample.fresh [NestedSkillFound "g" "alpha"]).
Proof.
  refine (proj1 (nested_group_resolution Sample.cfg "codex" "alpha"
                   (Sample.start Sample.fresh)
                   {| path := Sample.P ["skills"];
                      nestedSkills :=
                        [("g", {| basePath := Sample.P ["shared"; "g"];
                                  skills := ["alpha"] |})] |}
                   ("g", {| basePath := Sample.P ["shared"; "g"];
                            skills := ["alpha"] |})
                   _ _ _)).
  - reflexivity.
  - reflexivity.
  - exists [], []. split; [reflexivity|]. split; [left; reflexivity|].
    intros g' [].
Defined.

(* ----------------------------------------------------------------- *)
(** ** The agent's own skill directory *)

(** C7: for kind "skills", when the source is a directory and
    [source / overrideSegment[tool] / "skills" / itemName] is a directory,
    that path becomes the source; the only message is the one that
    announces it, so the marker search has not run: it runs only in the
    other branch, when that path is not a directory. *)
Theorem agent_skill_directory_wins source agent item_name agent_subdir w :
  let own := source ++ [Name agent_subdir; Name "skills"; Name item_name] in
  afind agent SingleItemSyncer.agent_dir_map = Some agent_subdir ->
  is_dir (tree w) source = true ->
  is_dir (tree w) own = true ->
  SingleItemSyncer.skill_source source agent "skills" item_name w
  = (Ok own, World (tree w) (console w ++ [AgentSkillStructure source own])).
Proof.
  intros own Hmap Hsrc Hown. unfold own in *. clear own.
  unfold SingleItemSyncer.skill_source. run.
  rewrite Hsrc, Hmap, String.eqb_refl. cbn [andb]. cbv beta iota.
  rewrite Hown. reflexivity.
Qed.

(** The skill [alpha] of the sample tree has a directory for codex, and a
    marker file of its own that is not looked at. *)
Lemma agent_skill_directory_wins_witness :
  SingleItemSyncer.skill_source (Sample.P ["shared"; "skills"; "shared"; "g"; "alpha"])
      "codex" "skills" "alpha" (Sample.start Sample.nested)
  = (Ok (Sample.P ["shared"; "skills"; "shared"; "g"; "alpha";
                   ".codex"; "skills"; "alpha"]),
     World Sample.nested
       [AgentSkillStructure
          (Sample.P ["shared"; "skills"; "shared"; "g"; "alpha"])
          (Sample.P ["shared"; "skills"; "shared"; "g"; "alpha";
                     ".codex"; "skills"; "alpha"])]).
Proof.
  apply (agent_skill_directory_wins
           (Sample.P ["shared"; "skills"; "shared"; "g"; "alpha"])
           "codex" "alpha" ".codex" (Sample.start Sample.nested));
    reflexivity.
Defined.

(* ================================================================= *)
(** * Facts about the file tree *)

Module FsFacts.

(** ** Association lists *)

Lemma afind_aset_same {A : Type} (k : string) (v : A) es :
  afind k (aset k v es) = Some v.
Proof.
  induction es as [|[k' v'] es IH]; simpl.
  - rewrite String.eqb_refl. reflexivity.
  - destruct (String.eqb k k') eqn:E; simpl.
    + rewrite String.eqb_refl. reflexivity.
    + rewrite E. exact IH.
Qed.

Lemma afind_aset_other {A : Type} (k k' : string) (v : A) es :
  k <> k' -> afind k' (aset k v es) = afind k' es.
Proof.
  intros Hne. induction es as [|[k0 v0] es IH]; simpl.
  - destruct (String.eqb_spec k' k); [congruence|reflexivity].
  - destruct (String.eqb_spec k k0); simpl.
    + subst k0. destruct (String.eqb_spec k' k); [congruence|reflexivity].
    + destruct (String.eqb_spec k' k0); [reflexivity|exact IH].
Qed.

Lemma afind_adel_same {A : Type} (k : string) (es : list (string * A)) :
  afind k (adel k es) = None.
Proof.
  induction es as [|[k0 v0] es IH]; simpl; [reflexivity|].
  destruct (String.eqb k k0) eqn:E; simpl; [exact IH|].
  rewrite E. exact IH.
Qed.

Lemma afind_adel_other {A : Type} (k k' : string) (es : list (string * A)) :
  k <> k' -> afind k' (adel k es) = afind k' es.
Proof.
  intros Hne. induction es as [|[k0 v0] es IH]; simpl; [reflexivity|].
  destruct (String.eqb_spec k k0); simpl.
  - subst k0. destruct (String.eqb_spec k' k); [congruence|exact IH].
  - destruct (String.eqb_spec k' k0); [reflexivity|exact IH].
Qed.

(** ** Reading the tree *)

Lemma get_app (l1 l2 : loc) : forall t,
  get t (l1 ++ l2) = match get t l1 with Some n => get n l2 | None => None end.
Proof.
  induction l1 as [|c l1 IH]; intros t; simpl; [reflexivity|].
  destruct t as [d|tg|es]; try reflexivity.
  destruct (afind c es); [apply IH|reflexivity].
Qed.

Lemma get_snoc (l : loc) (c : string) (t : node) :
  get t (l ++ [c]) =
  match get t l with Some (Dir es) => afind c es | _ => None end.
Proof.
  rewrite get_app. destruct (get t l) as [[d|tg|es]|]; simpl; try reflexivity.
  destruct (afind c es); reflexivity.
Qed.

Lemma get_parent_dir (l : loc) (c : string) (t : node) :
  get t (l ++ [c]) <> None -> exists es, get t l = Some (Dir es).
Proof.
  rewrite get_snoc. destruct (get t l) as [[d|tg|es]|]; try congruence.
  intros _. exists es. reflexivity.
Qed.

(** ** Writing the tree *)

Lemma get_put_same (l : loc) : forall t n t',
  put t l n = Some t' -> get t' l = Some n.
Proof.
  induction l as [|c l IH]; intros t n t'; simpl.
  - intros H; inversion H; reflexivity.
  - destruct t as [d|tg|es]; try discriminate.
    destruct l as [|c' l'].
    + intros H; inversion H; subst. simpl. rewrite afind_aset_same. reflexivity.
    + destruct (afind c es) as [ch|]; try discriminate.
      destruct (put ch (c' :: l') n) as [ch'|] eqn:E; try discriminate.
      intros H; inversion H; subst.
      change (get (Dir (aset c ch' es)) (c :: c' :: l'))
        with (match afind c (aset c ch' es) with
              | Some x => get x (c' :: l') | None => None end).
      rewrite afind_aset_same. apply (IH _ _ _ E).
Qed.

Lemma same_shape_refl a : same_shape a a.
Proof. destruct a as [[d|tg|es]|]; simpl; eauto. Qed.


(** ** Path resolution *)

Lemma walk_nil links t m cur : walk links t m cur [] = inr cur.
Proof. destruct links; reflexivity. Qed.

Lemma walk_cons links t m cur s rest :
  walk links t m cur (s :: rest) =
  match get t cur with
  | Some (Dir _) =>
      match s with
      | Up => walk links t m (removelast cur) rest
      | Name c =>
          match get t (cur ++ [c]) with
          | Some (Link tgt) =>
              match rest, m with
              | [], NoFollow => inr (cur ++ [c])
              | _, _ =>
                  match links with
                  | 0 => inl ELOOP
                  | S l => walk l t m [] (tgt ++ rest)
                  end
              end
          | Some _ => walk links t m (cur ++ [c]) rest
          | None =>
              match rest with
              | [] => inr (cur ++ [c])
              | _ :: _ => inl ENOENT
              end
          end
      end
  | Some _ => inl ENOTDIR
  | None => inl ENOENT
  end.
Proof.
  destruct s as [|c].
  - destruct links; simpl; destruct (get t cur) as [[d|tg|es]|]; reflexivity.
  - rewrite get_snoc.
    destruct links; simpl; destruct (get t cur) as [[d|tg|es]|]; try reflexivity;
      destruct (afind c es) as [[d|tg|es']|]; reflexivity.
Qed.


(** A path that resolves to an existing entry when links are followed
    resolves to an existing entry when the last one is not. *)
Lemma walk_follow_nofollow t : forall links cur rest l,
  walk links t Follow cur rest = inr l ->
  get t l <> None ->
  exists l', walk links t NoFollow cur rest = inr l' /\ get t l' <> None.
Proof.
  induction links as [|n IHn]; intros cur rest; revert cur;
    (induction rest as [|s rest IHr]; intros cur l;
     [rewrite !walk_nil; intros H Hl; inversion H; subst; eauto|]);
    rewrite !walk_cons;
    (destruct (get t cur) as [[d|tg|es]|]; try discriminate);
    (destruct s as [|c]; [apply IHr|]);
    (destruct (get t (cur ++ [c])) as [[d|tg|es1]|] eqn:Ech; try apply IHr).
  - destruct rest; discriminate.
  - destruct rest; [|discriminate].
    intros H Hl; inversion H; subst. congruence.
  - destruct rest as [|s' rest'].
    + intros H Hl. exists (cur ++ [c]). split; [reflexivity|congruence].
    + apply IHn.
  - destruct rest; [|discriminate].
    intros H Hl; inversion H; subst. congruence.
Qed.

(** The parent of an existing entry is a directory, and the parent path
    resolves to it. *)
Lemma walk_parent t c : forall links cur p l,
  walk links t NoFollow cur (p ++ [Name c]) = inr l ->
  exists d es, walk links t Follow cur p = inr d /\ get t d = Some (Dir es).
Proof.
  induction links as [|n IHn]; intros cur p; revert cur;
    (induction p as [|s p IHp]; intros cur l; simpl app;
     rewrite !walk_cons;
     (destruct (get t cur) as [[d|tg|es]|] eqn:Ecur; try discriminate);
     [intros _; rewrite walk_nil; eauto|]);
    (destruct s as [|x]; [apply IHp|]);
    (destruct (get t (cur ++ [x])) as [[d|tg|es1]|] eqn:Ech; try apply IHp).
  all: try (destruct p; discriminate).
  intros H.
  assert (H' : walk n t NoFollow [] ((tg ++ p) ++ [Name c]) = inr l)
    by (rewrite <- app_assoc; destruct p; exact H).
  apply IHn in H'. destruct p; exact H'.
Qed.

(** ** System calls *)


Lemma symlink_over_entry t target p n :
  lstat t p = Some n -> os_symlink t target p = inl FileExistsError.
Proof.
  unfold os_symlink, lstat.
  destruct (locate t NoFollow p) as [e|l]; [discriminate|].
  intros ->. reflexivity.
Qed.

Lemma lstat_parent_is_dir t p c n :
  lstat t (p ++ [Name c]) = Some n -> is_dir t p = true.
Proof.
  unfold lstat, is_dir, stat, locate.
  destruct (walk MAXSYMLINKS t NoFollow [] (p ++ [Name c])) as [e|l] eqn:W;
    [discriminate|].
  intros _. apply walk_parent in W. destruct W as [d [es [W G]]].
  rewrite W, G. reflexivity.
Qed.

Lemma mkdir_rev_eq t rp :
  mkdir_rev t rp =
  match os_mkdir t (rev rp) with
  | inr t' => (t', None)
  | inl FileNotFoundError =>
      match rp with
      | [] => (t, Some FileNotFoundError)
      | _ :: rparent =>
          match mkdir_rev t rparent with
          | (t1, Some e) => (t1, Some e)
          | (t1, None) =>
              match os_mkdir t1 (rev rp) with
              | inr t2 => (t2, None)
              | inl FileNotFoundError => (t1, Some FileNotFoundError)
              | inl e => if is_dir t1 (rev rp) then (t1, None) else (t1, Some e)
              end
          end
      end
  | inl e => if is_dir t (rev rp) then (t, None) else (t, Some e)
  end.
Proof. destruct rp; reflexivity. Qed.

Lemma mkdir_existing t p :
  is_dir t p = true -> os_mkdir t p = inl FileExistsError.
Proof.
  unfold is_dir, stat, os_mkdir, locate.
  destruct (walk MAXSYMLINKS t Follow [] p) as [e|l] eqn:W; [discriminate|].
  destruct (get t l) as [n|] eqn:G; [|discriminate].
  intros _.
  edestruct walk_follow_nofollow as [l' [W' G']]; [exact W|congruence|].
  rewrite W'. destruct (get t l'); [reflexivity|congruence].
Qed.

(** [mkdir(parents=True, exist_ok=True)] on a directory that exists changes
    nothing. *)
Lemma mkdir_parents_existing t p :
  is_dir t p = true -> mkdir_parents t p = (t, None).
Proof.
  intros H. unfold mkdir_parents. rewrite mkdir_rev_eq, rev_involutive.
  rewrite mkdir_existing by exact H. rewrite H. reflexivity.
Qed.

End FsFacts.

Import FsFacts.

(* ----------------------------------------------------------------- *)
(** ** Runs, step by step *)

Lemma bind_ok {A B : Type} (m : M A) (k : A -> M B) w b w' :
  bind m k w = (Ok b, w') ->
  exists a w1, m w = (Ok a, w1) /\ k a w1 = (Ok b, w').
Proof.
  unfold bind. destruct (m w) as [[a|e] w1]; [eauto|discriminate].
Qed.




(** The same steps read forwards. *)
Lemma bind_ret {A B : Type} (a : A) (k : A -> M B) w : bind (ret a) k w = k a w.
Proof. reflexivity. Qed.

Lemma bind_print {B : Type} ev (k : unit -> M B) w :
  bind (print ev) k w = k tt (World (tree w) (console w ++ [ev])).
Proof. reflexivity. Qed.

Lemma bind_query {A B : Type} (f : node -> A) (k : A -> M B) w :
  bind (query f) k w = k (f (tree w)) w.
Proof. reflexivity. Qed.

Lemma bind_eq {A B : Type} (m : M A) (k : A -> M B) w a w1 :
  m w = (Ok a, w1) -> bind m k w = k a w1.
Proof. unfold bind. intros ->. reflexivity. Qed.

Lemma bind_libcall {B : Type} f (k : unit -> M B) w t' :
  f (tree w) = (t', None) ->
  bind (libcall f) k w = k tt (World t' (console w)).
Proof. unfold bind, libcall. intros ->. reflexivity. Qed.

Lemma bind_resolve {B : Type} p (k : Path -> M B) w l :
  realpath MAXSYMLINKS (tree w) [] p = Some l ->
  bind (resolve p) k w = k (of_loc l) w.
Proof. unfold bind, resolve. intros ->. reflexivity. Qed.

Lemma bind_subscript {A B : Type} key (d : list (string * A)) (k : A -> M B) w v :
  afind key d = Some v -> bind (subscript key d) k w = k v w.
Proof. unfold bind, subscript. intros ->. reflexivity. Qed.

Tactic Notation "step" hyp(H) "as" ident(a) ident(w1) ident(H1) :=
  apply bind_ok in H; destruct H as [a [w1 [H1 H]]].








(* ----------------------------------------------------------------- *)
(** ** A dangling link at the destination of [sync_item] *)

Lemma backup_skips_dangling ts target w :
  exists_ (tree w) target = false ->
  SingleItemSyncer._backup_if_exists ts target w = (Ok tt, w).
Proof.
  intros H. unfold SingleItemSyncer._backup_if_exists. run. rewrite H.
  reflexivity.
Qed.

Lemma is_symlink_lstat t p :
  is_symlink t p = true -> exists target, lstat t p = Some (Link target).
Proof.
  unfold is_symlink. destruct (lstat t p) as [[d|tg|es]|]; try discriminate.
  eauto.
Qed.

(** C10: when the destination of a single-item run is a dangling link,
    [_backup_if_exists] takes it for absent and does nothing, the link stays
    in place, and the creation of the new link fails with
    [FileExistsError]; the run stops there, the file tree as it was. *)
Theorem dangling_link_destination
    cfg ts agent resource_type item_name w source target_base :
  let target := target_base ++ [Name item_name] in
  installed cfg (tree w) agent = true ->
  located_source cfg agent resource_type item_name w = Some source ->
  exists_ (tree w) source = true ->
  resolved_mapping cfg agent resource_type (tree w) = Some target_base ->
  is_symlink (tree w) target = true ->
  exists_ (tree w) target = false ->
  SingleItemSyncer._backup_if_exists ts target w = (Ok tt, w)
  /\ exists w',
       SingleItemSyncer.sync_item cfg ts agent resource_type item_name symlink w
         = (Raised FileExistsError, w')
       /\ tree w' = tree w
       /\ is_symlink (tree w') target = true.
Proof.
  intros target Hinst Hsrc Hex Hmap Hlink Hdang. unfold target in *. clear target.
  split; [apply backup_skips_dangling; exact Hdang|].
  destruct (is_symlink_lstat _ _ Hlink) as [old Hl].
  pose proof (lstat_parent_is_dir _ _ _ _ Hl) as Hdir.
  unfold SingleItemSyncer.sync_item, SingleItemSyncer._get_agent_config_dir.
  unfold installed in Hinst. unfold located_source, shared_source in Hsrc.
  unfold resolved_mapping in Hmap.
  destruct (afind agent (agentCompatibility cfg)) as [ac|] eqn:Ha; [|discriminate].
  destruct (afind resource_type (sharedResources cfg)) as [r|]; [|discriminate].
  destruct (afind resource_type (resourceMapping ac)) as [rel|] eqn:Hrel;
    [|discriminate].
  destruct (realpath MAXSYMLINKS (tree w) [] (configDir ac ++ rel)) as [l|] eqn:Hr;
    [|discriminate].
  inversion Hmap; subst target_base; clear Hmap.
  destruct (SingleItemSyncer.nested_source cfg (sharedConfigPath cfg ++ path r)
              ((sharedConfigPath cfg ++ path r) ++ [Name item_name])
              resource_type item_name w) as [[s1|e1] w1] eqn:E1; [|discriminate].
  destruct (SingleItemSyncer.skill_source s1 agent resource_type item_name w1)
    as [[s2|e2] w2] eqn:E2; [|discriminate].
  inversion Hsrc; subst s2; clear Hsrc.
  pose proof (nested_source_tree _ _ _ _ _ _ _ _ E1) as T1.
  pose proof (skill_source_tree _ _ _ _ _ _ _ E2) as T2.
  assert (T : tree w2 = tree w) by congruence.
  destruct w2 as [t2 c2]. cbn [tree] in T. subst t2.
  run. rewrite Hinst. cbn [negb]. cbv iota. rewrite E1, E2.
  cbn [tree]. rewrite Hex. cbn [negb]. cbv iota. rewrite Ha. run.
  rewrite Hrel. run. unfold resolve. cbn [tree]. rewrite Hr. cbn [tree].
  rewrite (mkdir_parents_existing _ _ Hdir).
  rewrite backup_skips_dangling by (cbn [tree]; exact Hdang).
  unfold execute. run. cbn [tree].
  rewrite (symlink_over_entry _ source _ _ Hl).
  eexists. split; [reflexivity|]. cbn [tree]. split; [reflexivity|exact Hlink].
Qed.

(** The item [a.md] of the sample tool is a link to a path that is gone. *)
Lemma dangling_link_destination_witness :
  exists w',
    SingleItemSyncer.sync_item Sample.cfg "T" "claude-code" "agents" "a.md"
      symlink (Sample.start Sample.dangling) = (Raised FileExistsError, w')
    /\ tree w' = Sample.dangling
    /\ is_symlink (tree w') (Sample.P ["home"; "claude"; "agents"; "a.md"]) = true.
Proof.
  apply (proj2 (dangling_link_destination Sample.cfg "T" "claude-code" "agents"
                  "a.md" (Sample.start Sample.dangling)
                  (Sample.P ["shared"; "agents"; "a.md"])
                  (Sample.P ["home"; "claude"; "agents"])
                  eq_refl eq_refl eq_refl eq_refl eq_refl eq_refl)).
Defined.

(* ================================================================= *)
(** * Copying a directory tree *)

Module CopyFacts.

(** ** More on association lists *)

Lemma aset_fresh {A : Type} (k : string) (v : A) es :
  afind k es = None -> aset k v es = es ++ [(k, v)].
Proof.
  induction es as [|[k' v'] es IH]; simpl; [reflexivity|].
  destruct (String.eqb k k'); [discriminate|].
  intros H. rewrite (IH H). reflexivity.
Qed.

Lemma aset_aset {A : Type} (k : string) (v1 v2 : A) es :
  aset k v2 (aset k v1 es) = aset k v2 es.
Proof.
  induction es as [|[k' v'] es IH]; simpl.
  - rewrite String.eqb_refl. reflexivity.
  - destruct (String.eqb k k') eqn:E; simpl.
    + rewrite String.eqb_refl. reflexivity.
    + rewrite E, IH. reflexivity.
Qed.

Lemma afind_app_fresh {A : Type} (k : string) (v : A) es1 es2 :
  afind k es1 = None -> afind k (es1 ++ (k, v) :: es2) = Some v.
Proof.
  induction es1 as [|[k' v'] es1 IH]; simpl.
  - rewrite String.eqb_refl. reflexivity.
  - destruct (String.eqb k k'); [discriminate|exact IH].
Qed.

(** ** Locations apart *)

Lemma loc_prefix_app_l p x : forall q,
  loc_prefix (p ++ x) q = true -> loc_prefix p q = true.
Proof.
  induction p as [|a p IH]; intros q; simpl; [reflexivity|].
  destruct q as [|b q]; [discriminate|].
  destruct (String.eqb a b); simpl; [apply IH|discriminate].
Qed.

Lemma loc_prefix_app_r p x : forall q,
  loc_prefix q (p ++ x) = true ->
  loc_prefix q p = true \/ loc_prefix p q = true.
Proof.
  induction p as [|a p IH]; intros q; simpl.
  - intros _. right. destruct q; reflexivity.
  - destruct q as [|b q]; simpl; [left; reflexivity|].
    rewrite (String.eqb_sym a b).
    destruct (String.eqb b a); simpl; [apply IH|discriminate].
Qed.

Lemma apart_sym p q : apart p q = apart q p.
Proof. unfold apart. apply andb_comm. Qed.

Lemma apart_spec p q :
  apart p q = true <-> loc_prefix p q = false /\ loc_prefix q p = false.
Proof.
  unfold apart. rewrite andb_true_iff, !negb_true_iff. reflexivity.
Qed.

Lemma apart_app_l p q x : apart p q = true -> apart (p ++ x) q = true.
Proof.
  rewrite !apart_spec. intros [H1 H2]. split.
  - destruct (loc_prefix (p ++ x) q) eqn:E; [|reflexivity].
    apply loc_prefix_app_l in E. congruence.
  - destruct (loc_prefix q (p ++ x)) eqn:E; [|reflexivity].
    apply loc_prefix_app_r in E. destruct E; congruence.
Qed.

Lemma apart_app p q x y : apart p q = true -> apart (p ++ x) (q ++ y) = true.
Proof.
  intros H. apply apart_app_l. rewrite apart_sym. apply apart_app_l.
  rewrite apart_sym. exact H.
Qed.

Lemma siblings_apart p c c' : c <> c' -> apart (p ++ [c]) (p ++ [c']) = true.
Proof.
  intros Hne. apply apart_spec.
  induction p as [|a p IH]; simpl.
  - destruct (String.eqb_spec c c'); [congruence|].
    destruct (String.eqb_spec c' c); [congruence|]. auto.
  - rewrite String.eqb_refl. exact IH.
Qed.

Lemma apart_cons c p q : apart (c :: p) (c :: q) = apart p q.
Proof. unfold apart. simpl. rewrite String.eqb_refl. reflexivity. Qed.

Lemma apart_nil_r p : apart p [] = false.
Proof. unfold apart. destruct p; reflexivity. Qed.

Lemma apart_nil_l p : apart [] p = false.
Proof. unfold apart. destruct p; reflexivity. Qed.

(** ** Names of backups *)

Lemma length_append (a b : string) :
  String.length (a ++ b) = String.length a + String.length b.
Proof. induction a; simpl; [reflexivity|]. rewrite IHa. reflexivity. Qed.

Lemma backup_name_differs (n ts : string) : n <> backup_name n ts.
Proof.
  unfold backup_name. intros H. apply (f_equal String.length) in H.
  rewrite !length_append in H. simpl in H. lia.
Qed.



(** ** Writing and removing entries *)

Lemma get_through (l : loc) (c : string) (l' : loc) t n :
  get t (l ++ c :: l') = Some n -> exists es, get t l = Some (Dir es).
Proof.
  rewrite get_app. destruct (get t l) as [[d|tg|es]|]; simpl; try discriminate.
  eauto.
Qed.

Lemma put_cons_snoc a (l : loc) c es n :
  put (Dir es) (a :: l ++ [c]) n =
  match afind a es with
  | Some ch =>
      match put ch (l ++ [c]) n with
      | Some ch' => Some (Dir (aset a ch' es))
      | None => None
      end
  | None => None
  end.
Proof. simpl. destruct (l ++ [c]) eqn:E; [destruct l; discriminate|reflexivity]. Qed.

Lemma del_cons_snoc a (l : loc) c es :
  del (Dir es) (a :: l ++ [c]) =
  match afind a es with
  | Some ch =>
      match del ch (l ++ [c]) with
      | Some ch' => Some (Dir (aset a ch' es))
      | None => None
      end
  | None => None
  end.
Proof. simpl. destruct (l ++ [c]) eqn:E; [destruct l; discriminate|reflexivity]. Qed.

Lemma put_succeeds (l : loc) c : forall t n es,
  get t l = Some (Dir es) -> exists t', put t (l ++ [c]) n = Some t'.
Proof.
  induction l as [|a l IH]; intros t n es; simpl.
  - intros H; inversion H; subst. eauto.
  - destruct t as [d|tg|e0]; try discriminate.
    destruct (afind a e0) as [ch|]; [|discriminate].
    intros H. destruct (IH ch n es H) as [ch' Hc].
    destruct (l ++ [c]) eqn:E; [destruct l; discriminate|].
    rewrite Hc. eauto.
Qed.

Lemma get_put_apart (l : loc) : forall t n t' q,
  put t l n = Some t' -> apart q l = true -> get t' q = get t q.
Proof.
  induction l as [|c l IH]; intros t n t' q; simpl.
  - intros _ H. rewrite apart_nil_r in H. discriminate.
  - destruct t as [d|tg|es]; try discriminate.
    destruct q as [|c0 q]; [intros _ H; rewrite apart_nil_l in H; discriminate|].
    destruct (String.eqb_spec c c0) as [->|Hne].
    + rewrite apart_cons.
      destruct l as [|c' l'].
      * intros _ H. rewrite apart_nil_r in H. discriminate.
      * destruct (afind c0 es) as [ch|] eqn:Ec; try discriminate.
        destruct (put ch (c' :: l') n) as [ch'|] eqn:E; try discriminate.
        intros H Ha; inversion H; subst.
        change (match afind c0 (aset c0 ch' es) with
                | Some x => get x q | None => None end
                = match afind c0 es with Some x => get x q | None => None end).
        rewrite afind_aset_same, Ec. eapply IH; eassumption.
    + intros H _.
      assert (Ht : exists v, t' = Dir (aset c v es)).
      { destruct l as [|c' l'].
        - inversion H. eauto.
        - destruct (afind c es) as [ch|]; try discriminate.
          destruct (put ch (c' :: l') n) as [ch'|]; try discriminate.
          inversion H. eauto. }
      destruct Ht as [v ->].
      change (match afind c0 (aset c v es) with
              | Some x => get x q | None => None end
              = match afind c0 es with Some x => get x q | None => None end).
      rewrite afind_aset_other by assumption. reflexivity.
Qed.

Lemma get_put_parent (l : loc) c : forall t n t' es,
  get t l = Some (Dir es) ->
  put t (l ++ [c]) n = Some t' ->
  get t' l = Some (Dir (aset c n es)).
Proof.
  induction l as [|a l IH]; intros t n t' es.
  - simpl. intros H; inversion H; subst. intros H'; inversion H'. reflexivity.
  - destruct t as [d|tg|e0]; try discriminate.
    change ((a :: l) ++ [c]) with (a :: l ++ [c]). rewrite put_cons_snoc.
    simpl. destruct (afind a e0) as [ch|] eqn:Ea; [|discriminate].
    intros Hg.
    destruct (put ch (l ++ [c]) n) as [ch'|] eqn:Ep; [|discriminate].
    intros H; inversion H; subst. simpl. rewrite afind_aset_same.
    eapply IH; eassumption.
Qed.

Lemma put_put_child (l : loc) c : forall t es1 t1 ch,
  put t l (Dir es1) = Some t1 ->
  afind c es1 = None ->
  put t1 (l ++ [c]) ch = put t l (Dir (es1 ++ [(c, ch)])).
Proof.
  induction l as [|a l IH]; intros t es1 t1 ch.
  - simpl. intros H; inversion H; subst. intros Hc.
    rewrite (aset_fresh _ _ _ Hc). reflexivity.
  - destruct t as [d|tg|e0]; try discriminate.
    destruct l as [|a' l'].
    + simpl. intros H; inversion H; subst. intros Hc.
      rewrite afind_aset_same, aset_aset, (aset_fresh _ _ _ Hc). reflexivity.
    + intros H Hc.
      change ((a :: a' :: l') ++ [c]) with (a :: (a' :: l') ++ [c]).
      change (put (Dir e0) (a :: a' :: l') (Dir es1))
        with (match afind a e0 with
              | Some x =>
                  match put x (a' :: l') (Dir es1) with
                  | Some x' => Some (Dir (aset a x' e0))
                  | None => None
                  end
              | None => None
              end) in H.
      destruct (afind a e0) as [ch0|] eqn:Ea; try discriminate.
      destruct (put ch0 (a' :: l') (Dir es1)) as [ch1|] eqn:Ep; try discriminate.
      injection H as <-.
      rewrite put_cons_snoc, afind_aset_same, (IH _ _ _ ch Ep Hc).
      change (put (Dir e0) (a :: a' :: l') (Dir (es1 ++ [(c, ch)])))
        with (match afind a e0 with
              | Some x =>
                  match put x (a' :: l') (Dir (es1 ++ [(c, ch)])) with
                  | Some x' => Some (Dir (aset a x' e0))
                  | None => None
                  end
              | None => None
              end).
      rewrite Ea.
      destruct (put ch0 (a' :: l') (Dir (es1 ++ [(c, ch)]))); [|reflexivity].
      rewrite aset_aset. reflexivity.
Qed.

Lemma del_succeeds (l : loc) c : forall t n,
  get t (l ++ [c]) = Some n -> exists t', del t (l ++ [c]) = Some t'.
Proof.
  induction l as [|a l IH]; intros t n; simpl.
  - destruct t as [d|tg|es]; try discriminate.
    destruct (afind c es); [eauto|discriminate].
  - destruct t as [d|tg|es]; try discriminate.
    destruct (afind a es) as [ch|]; [|discriminate].
    intros H. destruct (IH ch n H) as [ch' Hc].
    destruct (l ++ [c]) eqn:E; [destruct l; discriminate|].
    rewrite Hc. eauto.
Qed.

Lemma get_del_same (l : loc) : forall t t',
  del t l = Some t' -> get t' l = None.
Proof.
  induction l as [|c l IH]; intros t t'; simpl; [discriminate|].
  destruct t as [d|tg|es]; try discriminate.
  destruct l as [|c' l'].
  - destruct (afind c es); [|discriminate].
    intros H; inversion H; subst. simpl. rewrite afind_adel_same. reflexivity.
  - destruct (afind c es) as [ch|]; try discriminate.
    destruct (del ch (c' :: l')) as [ch'|] eqn:E; try discriminate.
    intros H; inversion H; subst.
    change (match afind c (aset c ch' es) with
            | Some x => get x (c' :: l') | None => None end = None).
    rewrite afind_aset_same. eapply IH; eassumption.
Qed.

Lemma get_del_apart (l : loc) : forall t t' q,
  del t l = Some t' -> apart q l = true -> get t' q = get t q.
Proof.
  induction l as [|c l IH]; intros t t' q; simpl; [discriminate|].
  destruct t as [d|tg|es]; try discriminate.
  destruct q as [|c0 q]; [intros _ H; rewrite apart_nil_l in H; discriminate|].
  destruct (String.eqb_spec c c0) as [->|Hne].
  - rewrite apart_cons.
    destruct l as [|c' l'].
    + intros _ H. rewrite apart_nil_r in H. discriminate.
    + destruct (afind c0 es) as [ch|] eqn:Ec; try discriminate.
      destruct (del ch (c' :: l')) as [ch'|] eqn:E; try discriminate.
      intros H Ha; inversion H; subst.
      change (match afind c0 (aset c0 ch' es) with
              | Some x => get x q | None => None end
              = match afind c0 es with Some x => get x q | None => None end).
      rewrite afind_aset_same, Ec. eapply IH; eassumption.
  - intros H _.
    assert (Ht : (exists v, t' = Dir (aset c v es)) \/ t' = Dir (adel c es)).
    { destruct l as [|c' l'].
      - destruct (afind c es); inversion H. auto.
      - destruct (afind c es) as [ch|]; try discriminate.
        destruct (del ch (c' :: l')) as [ch'|]; try discriminate.
        inversion H. eauto. }
    destruct Ht as [[v ->]| ->];
      change (get (Dir ?e) (c0 :: q))
        with (match afind c0 e with Some x => get x q | None => None end).
    + rewrite afind_aset_other by assumption. reflexivity.
    + rewrite afind_adel_other by assumption. reflexivity.
Qed.

Lemma get_del_parent (l : loc) c : forall t t' es,
  get t l = Some (Dir es) ->
  del t (l ++ [c]) = Some t' ->
  get t' l = Some (Dir (adel c es)).
Proof.
  induction l as [|a l IH]; intros t t' es.
  - simpl. intros H; inversion H; subst.
    destruct (afind c es); intros H'; inversion H'. reflexivity.
  - destruct t as [d|tg|e0]; try discriminate.
    change ((a :: l) ++ [c]) with (a :: l ++ [c]). rewrite del_cons_snoc.
    simpl. destruct (afind a e0) as [ch|] eqn:Ea; [|discriminate].
    intros Hg.
    destruct (del ch (l ++ [c])) as [ch'|] eqn:Ep; [|discriminate].
    intros H; inversion H; subst. simpl. rewrite afind_aset_same.
    eapply IH; eassumption.
Qed.

(** ** Paths without links *)

Lemma of_loc_app a b : of_loc (a ++ b) = of_loc a ++ of_loc b.
Proof. apply map_app. Qed.

Lemma parent_of_loc l c : parent (of_loc (l ++ [c])) = of_loc l.
Proof. unfold parent. rewrite of_loc_app. apply removelast_last. Qed.

Lemma name_of_loc l c : name (of_loc (l ++ [c])) = c.
Proof. unfold name. rewrite of_loc_app, rev_app_distr. reflexivity. Qed.

Lemma backup_path_of_loc l c ts :
  backup_path_of (of_loc (l ++ [c])) ts = of_loc (l ++ [backup_name c ts]).
Proof.
  unfold backup_path_of. rewrite parent_of_loc, name_of_loc, of_loc_app.
  reflexivity.
Qed.

(** A location, read as a path, resolves to itself: up to its last name
    always, and with the last name unless that is a link to be followed. *)
Lemma walk_of_loc t m c links : forall pre cur es,
  get t (cur ++ pre) = Some (Dir es) ->
  (forall tg, afind c es = Some (Link tg) -> m = NoFollow) ->
  walk links t m cur (of_loc (pre ++ [c])) = inr (cur ++ pre ++ [c]).
Proof.
  induction pre as [|x pre IH]; intros cur es Hg Hl.
  - rewrite app_nil_r in Hg. simpl. rewrite walk_cons, Hg, get_snoc, Hg.
    destruct (afind c es) as [[d|tg|e1]|] eqn:Ec; try rewrite walk_nil;
      try reflexivity.
    rewrite (Hl tg eq_refl). reflexivity.
  - simpl. rewrite walk_cons.
    destruct (get_through _ _ _ _ _ Hg) as [e0 Hcur]. rewrite Hcur.
    assert (Hx : exists e1, get t (cur ++ [x]) = Some (Dir e1)).
    { destruct pre as [|y pre'].
      - eauto.
      - apply (get_through (cur ++ [x]) y pre' t (Dir es)).
        rewrite <- app_assoc. exact Hg. }
    destruct Hx as [e1 Hx]. rewrite Hx.
    change (of_loc (pre ++ [c])) with (of_loc (pre ++ [c])).
    rewrite (IH (cur ++ [x]) es); [rewrite <- app_assoc; reflexivity| |exact Hl].
    rewrite <- app_assoc. exact Hg.
Qed.

Lemma locate_child t m l c es :
  get t l = Some (Dir es) ->
  (forall tg, afind c es = Some (Link tg) -> m = NoFollow) ->
  locate t m (of_loc (l ++ [c])) = inr (l ++ [c]).
Proof.
  intros Hg Hl. unfold locate.
  apply (walk_of_loc t m c MAXSYMLINKS l [] es); assumption.
Qed.

Lemma locate_absent t m l c es :
  get t l = Some (Dir es) -> get t (l ++ [c]) = None ->
  locate t m (of_loc (l ++ [c])) = inr (l ++ [c]).
Proof.
  intros Hg Hn. eapply locate_child; [exact Hg|].
  intros tg Hc. rewrite get_snoc, Hg in Hn. congruence.
Qed.

Lemma locate_present t m l c n :
  get t (l ++ [c]) = Some n -> is_Link n = false ->
  locate t m (of_loc (l ++ [c])) = inr (l ++ [c]).
Proof.
  intros Hg Hn. destruct (get_parent_dir l c t) as [es He]; [congruence|].
  eapply locate_child; [exact He|].
  intros tg Hc. rewrite get_snoc, He, Hc in Hg. inversion Hg; subst. discriminate.
Qed.

Lemma stat_present t l c n :
  get t (l ++ [c]) = Some n -> is_Link n = false ->
  stat t (of_loc (l ++ [c])) = Some n.
Proof.
  intros Hg Hn. unfold stat. rewrite (locate_present _ _ _ _ _ Hg Hn). exact Hg.
Qed.

Lemma lstat_present t l c n :
  get t (l ++ [c]) = Some n -> is_Link n = false ->
  lstat t (of_loc (l ++ [c])) = Some n.
Proof.
  intros Hg Hn. unfold lstat. rewrite (locate_present _ _ _ _ _ Hg Hn). exact Hg.
Qed.

Lemma stat_absent t l c es :
  get t l = Some (Dir es) -> get t (l ++ [c]) = None ->
  stat t (of_loc (l ++ [c])) = None.
Proof.
  intros Hg Hn. unfold stat. rewrite (locate_absent _ _ _ _ _ Hg Hn). exact Hn.
Qed.

Lemma lstat_absent t l c es :
  get t l = Some (Dir es) -> get t (l ++ [c]) = None ->
  lstat t (of_loc (l ++ [c])) = None.
Proof.
  intros Hg Hn. unfold lstat. rewrite (locate_absent _ _ _ _ _ Hg Hn). exact Hn.
Qed.

(** The same for a directory given by its location, the root included. *)
Lemma stat_dir t l es : get t l = Some (Dir es) -> stat t (of_loc l) = Some (Dir es).
Proof.
  destruct (rev l) as [|c rl] eqn:E.
  - apply (f_equal (@rev string)) in E. rewrite rev_involutive in E. subst l.
    intros H. unfold stat, locate. simpl. exact H.
  - apply (f_equal (@rev string)) in E. rewrite rev_involutive in E. subst l.
    simpl. intros H. apply stat_present; [exact H|reflexivity].
Qed.

Lemma is_dir_of_loc t l es : get t l = Some (Dir es) -> is_dir t (of_loc l) = true.
Proof. intros H. unfold is_dir. rewrite (stat_dir _ _ _ H). reflexivity. Qed.

(** ** Calls on a name that is free *)

Lemma os_mkdir_fresh t l c es :
  get t l = Some (Dir es) -> get t (l ++ [c]) = None ->
  exists t', put t (l ++ [c]) (Dir []) = Some t'
             /\ os_mkdir t (of_loc (l ++ [c])) = inr t'.
Proof.
  intros Hg Hn. destruct (put_succeeds l c t (Dir []) es Hg) as [t' Hp].
  exists t'. split; [exact Hp|].
  unfold os_mkdir. rewrite (locate_absent _ _ _ _ _ Hg Hn), Hn, Hp. reflexivity.
Qed.

Lemma makedirs_rev_cons t s rhead :
  makedirs_rev t (s :: rhead) =
  let leaf (t0 : node) : io :=
    match os_mkdir t0 (rev (s :: rhead)) with
    | inr t' => (t', None)
    | inl e => if is_dir t0 (rev (s :: rhead)) then (t0, None) else (t0, Some e)
    end in
  if exists_ t (rev rhead) then leaf t
  else
    match makedirs_rev t rhead with
    | (t1, None) => leaf t1
    | (t1, Some FileExistsError) => leaf t1
    | (t1, Some e) => (t1, Some e)
    end.
Proof. reflexivity. Qed.

Lemma os_makedirs_fresh t l c es :
  get t l = Some (Dir es) -> get t (l ++ [c]) = None ->
  exists t', put t (l ++ [c]) (Dir []) = Some t'
             /\ os_makedirs t (of_loc (l ++ [c])) = (t', None).
Proof.
  intros Hg Hn. destruct (os_mkdir_fresh t l c es Hg Hn) as [t' [Hp Hm]].
  exists t'. split; [exact Hp|].
  unfold os_makedirs. rewrite of_loc_app, rev_app_distr. simpl rev at 1.
  change ([Name c] ++ rev (of_loc l)) with (Name c :: rev (of_loc l)).
  rewrite makedirs_rev_cons. cbv zeta.
  replace (rev (Name c :: rev (of_loc l))) with (of_loc (l ++ [c]))
    by (simpl; rewrite rev_involutive, of_loc_app; reflexivity).
  rewrite rev_involutive.
  unfold exists_. rewrite (stat_dir _ _ _ Hg), Hm. reflexivity.
Qed.

Lemma copy2_fresh t sl c data dl ed :
  get t (sl ++ [c]) = Some (File data) ->
  get t dl = Some (Dir ed) -> get t (dl ++ [c]) = None ->
  exists t', put t (dl ++ [c]) (File data) = Some t'
             /\ shutil_copy2 t (of_loc (sl ++ [c])) (of_loc (dl ++ [c])) = inr t'.
Proof.
  intros Hs Hd Hn.
  destruct (put_succeeds dl c t (File data) ed Hd) as [t' Hp].
  exists t'. split; [exact Hp|].
  unfold shutil_copy2, is_dir, samefile.
  rewrite (stat_absent _ _ _ _ Hd Hn).
  rewrite (locate_present _ Follow _ _ _ Hs eq_refl).
  rewrite (locate_absent _ Follow _ _ _ Hd Hn), Hs, Hn.
  rewrite (stat_present _ _ _ _ Hs eq_refl), Hp. reflexivity.
Qed.

(** [copytree] on a directory: make the destination, then run the loop. *)
Lemma copy_entries_eq l src dst : forall es t errs,
  (fix cp_entries (es : list (string * node)) (t : node)
       (errs : list (Path * Path * exn)) {struct es} : node * copied :=
     match es with
     | [] => (t, CopyDone errs)
     | (c, ch) :: es' =>
         let srcname := src ++ [Name c] in
         let dstname := dst ++ [Name c] in
         let file_copy :=
           match shutil_copy2 t srcname dstname with
           | inr t' => (t', CopyDone [])
           | inl e => (t, CopyRaised e)
           end in
         let '(t', out) :=
           match ch with
           | Dir _ => copytree l ch srcname dstname t
           | File _ => file_copy
           | Link _ =>
               match stat t srcname with
               | Some (Dir es2) =>
                   match l with
                   | 0 => (t, CopyRaised (OSError ELOOP))
                   | S l' => copytree l' (Dir es2) srcname dstname t
                   end
               | _ => file_copy
               end
           end in
         match out with
         | CopyRaised e => cp_entries es' t' (errs ++ [(srcname, dstname, e)])
         | CopyDone errs' => cp_entries es' t' (errs ++ errs')
         end
     end) es t errs
  = copy_entries l src dst es t errs.
Proof.
  induction es as [|[c ch] es IH]; intros t errs; [reflexivity|].
  cbn [copy_entries]. cbv zeta.
  destruct (match ch with
            | Dir _ => copytree l ch (src ++ [Name c]) (dst ++ [Name c]) t
            | File _ =>
                match shutil_copy2 t (src ++ [Name c]) (dst ++ [Name c]) with
                | inr t' => (t', CopyDone [])
                | inl e => (t, CopyRaised e)
                end
            | Link _ =>
                match stat t (src ++ [Name c]) with
                | Some (Dir es2) =>
                    match l with
                    | 0 => (t, CopyRaised (OSError ELOOP))
                    | S l' => copytree l' (Dir es2) (src ++ [Name c]) (dst ++ [Name c]) t
                    end
                | _ =>
                    match shutil_copy2 t (src ++ [Name c]) (dst ++ [Name c]) with
                    | inr t' => (t', CopyDone [])
                    | inl e => (t, CopyRaised e)
                    end
                end
            end) as [t' [e|errs']]; apply IH.
Qed.

Lemma copytree_unfold links es src dst t :
  copytree links (Dir es) src dst t =
  match os_makedirs t dst with
  | (t1, Some e) => (t1, CopyRaised e)
  | (t1, None) => copy_entries links src dst es t1 []
  end.
Proof.
  destruct links as [|l];
    (cbn [copytree]; destruct (os_makedirs t dst) as [t1 [e|]]; [reflexivity|];
     rewrite <- copy_entries_eq; reflexivity).
Qed.

(** ** The copy of a plain directory to a free name *)

Lemma node_nested_ind (P : node -> Prop) :
  (forall d, P (File d)) ->
  (forall tg, P (Link tg)) ->
  (forall es, Forall (fun e => P (snd e)) es -> P (Dir es)) ->
  forall n, P n.
Proof.
  intros HF HL HD. fix IH 1. intros [d|tg|es]; [apply HF|apply HL|].
  apply HD. induction es as [|[c ch] es IHes]; constructor;
    [apply IH|exact IHes].
Qed.

Lemma uniq_app_fresh (es1 es2 : list (string * node)) c ch :
  uniq (map fst (es1 ++ (c, ch) :: es2)) = true -> afind c es1 = None.
Proof.
  induction es1 as [|[a v] es1 IH]; simpl; [reflexivity|].
  intros H. apply andb_true_iff in H. destruct H as [Ha Hu].
  apply negb_true_iff in Ha.
  destruct (String.eqb_spec c a) as [->|Hne]; [|exact (IH Hu)].
  exfalso. rewrite map_app, existsb_app in Ha. simpl in Ha.
  rewrite String.eqb_refl, orb_true_r in Ha. discriminate.
Qed.

Lemma of_loc_snoc l c : of_loc l ++ [Name c] = of_loc (l ++ [c]).
Proof. rewrite of_loc_app. reflexivity. Qed.

(** Copying a plain directory to a name that is free, in an existing
    directory apart from the source, writes the very same directory there
    and reports no error. *)
Lemma copytree_plain links : forall n,
  plain n = true -> forall es, n = Dir es ->
  forall t sl dl c ed,
    get t sl = Some n -> get t dl = Some (Dir ed) -> get t (dl ++ [c]) = None ->
    apart sl (dl ++ [c]) = true ->
    exists t', put t (dl ++ [c]) n = Some t'
      /\ copytree links n (of_loc sl) (of_loc (dl ++ [c])) t = (t', CopyDone []).
Proof.
  induction n as [d|tg|es IHch] using node_nested_ind;
    intros Hp es0 Hes; try discriminate.
  inversion Hes; subst es0; clear Hes.
  intros t sl dl c ed Hs Hd Hn Ha.
  simpl in Hp. apply andb_true_iff in Hp. destruct Hp as [Hu Hpl].
  rewrite copytree_unfold.
  destruct (os_makedirs_fresh t dl c ed Hd Hn) as [t1 [Hp1 Hm]]. rewrite Hm.
  assert (Loop : forall es2 es1 tk,
             es = es1 ++ es2 ->
             put t (dl ++ [c]) (Dir es1) = Some tk ->
             exists t', put t (dl ++ [c]) (Dir (es1 ++ es2)) = Some t'
               /\ copy_entries links (of_loc sl) (of_loc (dl ++ [c])) es2 tk []
                  = (t', CopyDone [])).
  { induction es2 as [|[x ch] es2 IH2]; intros es1 tk He Hk.
    - rewrite app_nil_r. exists tk. split; [exact Hk|reflexivity].
    - assert (Hfresh : afind x es1 = None)
        by (apply (uniq_app_fresh es1 es2 x ch); rewrite <- He; exact Hu).
      pose proof (get_put_same _ _ _ _ Hk) as Hkd.
      assert (Hkn : get tk ((dl ++ [c]) ++ [x]) = None)
        by (rewrite get_snoc, Hkd; exact Hfresh).
      assert (Hks : get tk (sl ++ [x]) = Some ch).
      { rewrite (get_put_apart _ _ _ _ _ Hk (apart_app_l _ _ _ Ha)).
        rewrite get_snoc, Hs, He. apply afind_app_fresh. exact Hfresh. }
      assert (Hin : In (x, ch) es) by (rewrite He; apply in_elt).
      assert (Hpc : plain ch = true)
        by (apply (proj1 (forallb_forall _ _) Hpl (x, ch) Hin)).
      assert (Next : forall tk',
                 put tk ((dl ++ [c]) ++ [x]) ch = Some tk' ->
                 exists t', put t (dl ++ [c]) (Dir (es1 ++ (x, ch) :: es2)) = Some t'
                   /\ copy_entries links (of_loc sl) (of_loc (dl ++ [c])) es2 tk' []
                      = (t', CopyDone [])).
      { intros tk' Hp'. rewrite (put_put_child _ _ _ _ _ ch Hk Hfresh) in Hp'.
        destruct (IH2 (es1 ++ [(x, ch)]) tk') as [t' [Ht' Hc']].
        - rewrite <- app_assoc. exact He.
        - exact Hp'.
        - exists t'. split; [|exact Hc']. rewrite <- app_assoc in Ht'. exact Ht'. }
      cbn [copy_entries]. cbv zeta. rewrite !of_loc_snoc.
      destruct ch as [d|tg|esc].
      + destruct (copy2_fresh tk sl x d (dl ++ [c]) es1 Hks Hkd Hkn)
          as [tk' [Hp' Hc]].
        rewrite Hc. apply Next. exact Hp'.
      + discriminate Hpc.
      + pose proof (proj1 (Forall_forall _ _) IHch (x, Dir esc) Hin) as IHx.
        cbn [snd] in IHx.
        destruct (IHx Hpc esc eq_refl tk (sl ++ [x]) (dl ++ [c]) x es1 Hks Hkd Hkn
                    (apart_app _ _ _ _ Ha)) as [tk' [Hp' Hc]].
        rewrite Hc. apply Next. exact Hp'. }
  apply (Loop es [] t1 eq_refl Hp1).
Qed.

(** ** Moving the destination to its backup *)

Lemma loc_eqb_prefix p : forall q, loc_eqb p q = true -> loc_prefix p q = true.
Proof.
  induction p as [|a p IH]; intros [|b q]; simpl; try discriminate; auto.
  destruct (String.eqb a b); simpl; [apply IH|discriminate].
Qed.




(** ** One run with the copy strategy *)

Lemma copy_phase t c sp pd n es ed :
  get t sp = Some (Dir es) -> plain (Dir es) = true ->
  get t pd = Some (Dir ed) -> get t (pd ++ [n]) = None ->
  apart sp (pd ++ [n]) = true ->
  exists t',
    execute copy (of_loc sp) (of_loc (pd ++ [n])) (World t c)
      = (Ok tt, World t' (c ++ [DirCopied (of_loc sp) (of_loc (pd ++ [n]))]))
    /\ put t (pd ++ [n]) (Dir es) = Some t'.
Proof.
  intros Hs Hp Hd Hn Ha.
  destruct (copytree_plain MAXSYMLINKS (Dir es) Hp es eq_refl t sp pd n ed
              Hs Hd Hn Ha) as [t' [Hput Hc]].
  exists t'. split; [|exact Hput].
  unfold execute. run. cbn [tree console].
  rewrite (is_dir_of_loc _ _ _ Hs). cbv iota beta.
  unfold shutil_copytree. cbn [tree console].
  rewrite (stat_dir _ _ _ Hs), Hc. reflexivity.
Qed.

Lemma copied_after_phases t tb t' sp pd n es ts :
  copy_setting t sp pd n es ts ->
  frame t tb pd n (backup_name n ts) ->
  (exists ed, get tb pd = Some (Dir ed)) ->
  put tb (pd ++ [n]) (Dir es) = Some t' ->
  copied_to t t' sp pd n es ts.
Proof.
  intros [Hs [Hp [Hd [Hnl [Hb [Ha1 Ha2]]]]]] Hf [edb Hdb] Hput.
  split; [apply (get_put_same _ _ _ _ Hput)|].
  split; [rewrite (get_put_apart _ _ _ _ _ Hput Ha1), (Hf sp Ha1 Ha2); exact Hs|].
  split; [eexists; apply (get_put_parent pd n tb (Dir es) t' edb Hdb Hput)|].
  intros q Hq1 Hq2. rewrite (get_put_apart _ _ _ _ _ Hput Hq1). apply Hf; assumption.
Qed.






End CopyFacts.

Import CopyFacts.



(* ================================================================= *)
(** * Further properties of the scripts *)

Module MoreFsFacts.

(** ** Shapes *)

Lemma same_shape_trans a b c : same_shape a b -> same_shape b c -> same_shape a c.
Proof.
  destruct a as [[d|tg|es]|]; simpl; intros H1 H2; try exact I.
  - destruct H1 as [d1 ->]. exact H2.
  - subst b. exact H2.
  - destruct H1 as [es1 ->]. exact H2.
Qed.

Lemma extends_refl t : extends t t.
Proof. intros q. apply same_shape_refl. Qed.

Lemma extends_trans t1 t2 t3 : extends t1 t2 -> extends t2 t3 -> extends t1 t3.
Proof. intros H1 H2 q. exact (same_shape_trans _ _ _ (H1 q) (H2 q)). Qed.

(** ** Locations without links *)

Lemma snoc_cases {A : Type} (l : list A) : l = [] \/ exists l' x, l = l' ++ [x].
Proof.
  induction l as [|x l' _] using rev_ind; [left; reflexivity|right; eauto].
Qed.

Lemma nolink_prefix t q r : nolink t (q ++ r) -> nolink t q.
Proof.
  intros H q' r' tg E. apply (H q' (r' ++ r) tg). rewrite E, app_assoc. reflexivity.
Qed.

Lemma nolink_removelast t l : nolink t l -> nolink t (removelast l).
Proof.
  destruct (snoc_cases l) as [->|[l' [x ->]]].
  - simpl. intros H; exact H.
  - rewrite removelast_last. apply nolink_prefix.
Qed.

Lemma nolink_snoc t l c :
  nolink t l -> (forall tg, get t (l ++ [c]) <> Some (Link tg)) -> nolink t (l ++ [c]).
Proof.
  intros Hl Hc q r tg E.
  destruct (snoc_cases r) as [Er|[r' [x Er]]].
  - subst r. rewrite app_nil_r in E. subst q. apply Hc.
  - subst r. rewrite app_assoc in E. apply app_inj_tail in E. destruct E as [E _].
    apply (Hl q r' tg E).
Qed.

Lemma realpath_nil links t cur : realpath links t cur [] = Some cur.
Proof. destruct links; reflexivity. Qed.

Lemma realpath_up links t cur rest :
  realpath links t cur (Up :: rest) = realpath links t (removelast cur) rest.
Proof. destruct links; reflexivity. Qed.

Lemma realpath_name links t cur c rest :
  realpath links t cur (Name c :: rest) =
  match get t (cur ++ [c]) with
  | Some (Link tgt) =>
      match links with
      | 0 => None
      | S l => realpath l t [] (tgt ++ rest)
      end
  | _ => realpath links t (cur ++ [c]) rest
  end.
Proof. destruct links; reflexivity. Qed.

(** What [realpath] returns has no link on the way. *)
Lemma realpath_nolink t (Hroot : nolink t []) : forall links rest cur l,
  nolink t cur -> realpath links t cur rest = Some l -> nolink t l.
Proof.
  induction links as [|links IHl]; induction rest as [|s rest IH]; intros cur l Hc.
  - rewrite realpath_nil. intros H; injection H as <-. exact Hc.
  - destruct s as [|c].
    + rewrite realpath_up. apply IH, nolink_removelast, Hc.
    + rewrite realpath_name.
      destruct (get t (cur ++ [c])) as [[d|tg|es]|] eqn:G; try discriminate;
        apply IH, nolink_snoc; try exact Hc; intros tg' E; rewrite G in E; discriminate.
  - rewrite realpath_nil. intros H; injection H as <-. exact Hc.
  - destruct s as [|c].
    + rewrite realpath_up. apply IH, nolink_removelast, Hc.
    + rewrite realpath_name.
      destruct (get t (cur ++ [c])) as [[d|tg|es]|] eqn:G;
        [ | apply IHl; exact Hroot | | ];
        apply IH, nolink_snoc; try exact Hc; intros tg' E; rewrite G in E; discriminate.
Qed.

(** Resolving a location without links ends at that location, if anywhere. *)
Lemma walk_nolink t m links : forall rest cur,
  nolink t (cur ++ rest) ->
  (exists e, walk links t m cur (of_loc rest) = inl e)
  \/ walk links t m cur (of_loc rest) = inr (cur ++ rest).
Proof.
  induction rest as [|c rest IH]; intros cur H.
  - right. simpl. rewrite walk_nil, app_nil_r. reflexivity.
  - simpl. rewrite walk_cons.
    destruct (get t cur) as [[d|tg|es]|]; try (left; eexists; reflexivity).
    assert (Hc : forall tg, get t (cur ++ [c]) <> Some (Link tg)).
    { intros tg. apply (H (cur ++ [c]) rest tg). rewrite <- app_assoc. reflexivity. }
    destruct (get t (cur ++ [c])) as [[d|tg|es']|] eqn:G.
    + replace (cur ++ c :: rest) with ((cur ++ [c]) ++ rest)
        by (rewrite <- app_assoc; reflexivity).
      apply IH. rewrite <- app_assoc. exact H.
    + exfalso. apply (Hc tg). reflexivity.
    + replace (cur ++ c :: rest) with ((cur ++ [c]) ++ rest)
        by (rewrite <- app_assoc; reflexivity).
      apply IH. rewrite <- app_assoc. exact H.
    + destruct rest as [|c' rest']; simpl.
      * right. reflexivity.
      * left. eexists. reflexivity.
Qed.

Lemma lstat_nolink t l : nolink t l -> forall tg, lstat t (of_loc l) <> Some (Link tg).
Proof.
  intros H tg. unfold lstat, locate.
  destruct (walk_nolink t NoFollow MAXSYMLINKS l [] H) as [[e E]|E]; rewrite E.
  - discriminate.
  - simpl. apply (H l [] tg). rewrite app_nil_r. reflexivity.
Qed.

Lemma is_symlink_nolink t l : nolink t l -> is_symlink t (of_loc l) = false.
Proof.
  intros H. unfold is_symlink.
  destruct (lstat t (of_loc l)) as [[d|tg|es]|] eqn:E; try reflexivity.
  exfalso. exact (lstat_nolink t l H tg E).
Qed.

Lemma root_nolink t : is_Link t = false -> nolink t [].
Proof.
  intros H q r tg E. symmetry in E. apply app_eq_nil in E. destruct E as [-> _].
  simpl. intros E; injection E as ->. discriminate.
Qed.

End MoreFsFacts.

Import MoreFsFacts.

(* ----------------------------------------------------------------- *)
(** ** The destination of [ResourceSyncer] is never a link *)

Lemma kind_line_nolink t l b : nolink t l -> forall tg, kind_line t (of_loc l) b <> IsLink tg.
Proof.
  intros H tg. unfold kind_line.
  destruct (lstat t (of_loc l)) as [[d|tg'|es]|] eqn:E;
    try (destruct (stat t (of_loc l)) as [[d'|tg''|es']|]; discriminate).
  exfalso. exact (lstat_nolink t l H tg' E).
Qed.

(** X1: [show_resource_status] resolves the destination before it looks at it,
    so its first test, [target.is_symlink()], never holds: whatever the
    tree, the report never says that the destination is a link, not even
    when the mapped path is one.  The function leaves the tree alone. *)
Theorem show_resource_status_never_reports_link cfg agent resource w lines w' :
  is_Link (tree w) = false ->
  ResourceSyncer.show_resource_status cfg agent resource w = (Ok lines, w') ->
  tree w' = tree w /\ forall tg, ~ In (IsLink tg) lines.
Proof.
  intros Hroot.
  unfold ResourceSyncer.show_resource_status, ResourceSyncer._get_agent_config_dir.
  destruct (afind agent (agentCompatibility cfg)) as [a|] eqn:Ha; run.
  - destruct (exists_ (tree w) (configDir a)); simpl.
    + rewrite Ha. simpl.
      destruct (afind resource (resourceMapping a)) as [rel|]; run.
      * unfold resolve.
        destruct (realpath MAXSYMLINKS (tree w) [] (configDir a ++ rel)) as [l|] eqn:R;
          [|discriminate].
        simpl. intros H; injection H as <- <-. split; [reflexivity|].
        intros tg [E|[E|[]]]; [|discriminate E].
        revert E. apply kind_line_nolink.
        apply (realpath_nolink _ (root_nolink _ Hroot) _ _ _ _ (root_nolink _ Hroot) R).
      * intros H; injection H as <- <-. split; [reflexivity|].
        intros tg [E|[]]; discriminate E.
    + intros H; injection H as <- <-. split; [reflexivity|].
      intros tg [E|[]]; discriminate E.
  - intros H; injection H as <- <-. split; [reflexivity|].
    intros tg [E|[]]; discriminate E.
Qed.

Lemma show_resource_status_never_reports_link_witness :
  is_symlink Sample.linked (Sample.P ["home"; "codex"; "agents"]) = true
  /\ ResourceSyncer.show_resource_status Sample.cfg "codex" "agents"
       (Sample.start Sample.linked)
     = (Ok [IsDirectory; Location (Sample.P ["shared"; "agents"])],
        Sample.start Sample.linked)
  /\ forall tg,
       ~ In (IsLink tg) [IsDirectory; Location (Sample.P ["shared"; "agents"])].
Proof.
  split; [reflexivity|]. split; [reflexivity|].
  apply (show_resource_status_never_reports_link Sample.cfg "codex" "agents"
           (Sample.start Sample.linked) _ (Sample.start Sample.linked));
    reflexivity.
Defined.

(* ----------------------------------------------------------------- *)
(** ** Refusals *)

Lemma sync_resource_failure_writes_nothing cfg ts agent resource s w w' :
  ResourceSyncer.sync_resource cfg ts agent resource s w = (Ok false, w') ->
  tree w' = tree w.
Proof.
  unfold ResourceSyncer.sync_resource, ResourceSyncer._get_agent_config_dir.
  destruct (afind agent (agentCompatibility cfg)) as [a|] eqn:Ha; run;
    [|intros H; inversion H; reflexivity].
  destruct (exists_ (tree w) (configDir a)); simpl;
    [|intros H; inversion H; reflexivity].
  destruct (afind resource (sharedResources cfg)) as [r|]; run;
    [|intros H; inversion H; reflexivity].
  rewrite Ha; simpl.
  destruct (afind resource (resourceMapping a)) as [rel|]; run;
    [|intros H; inversion H; reflexivity].
  unfold resolve.
  destruct (realpath MAXSYMLINKS (tree w) [] (configDir a ++ rel)) as [l|];
    [|intros H; inversion H].
  simpl.
  destruct (mkdir_parents (tree w) (parent (of_loc l))) as [t3 [e3|]];
    [intros H; inversion H|].
  simpl.
  destruct (ResourceSyncer._backup_if_exists ts (of_loc l) _)
    as [[u|e4] w4]; [|intros H; inversion H].
  destruct (is_symlink (tree w4) (of_loc l)).
  - destruct (os_unlink (tree w4) (of_loc l)) as [e5|t5]; [intros H; inversion H|].
    simpl.
    destruct (execute s _ (of_loc l) _) as [[u'|e6] w6]; intros H; inversion H.
  - destruct (execute s _ (of_loc l) w4) as [[u'|e6] w6]; intros H; inversion H.
Qed.

Lemma for_each_then_true {A : Type} (l : list A) (body : A -> M unit) w w' :
  (for_each l body ;; ret true) w <> (Ok false, w').
Proof.
  unfold bind, ret. destruct (for_each l body w) as [[u|e] w1]; discriminate.
Qed.

Lemma sync_func_failure_writes_nothing cfg ts s agent w w' :
  ConfigSyncer.sync_func cfg ts s agent w = (Ok false, w') ->
  tree w' = tree w.
Proof.
  destruct s; unfold ConfigSyncer.sync_func, ConfigSyncer.sync_symlink,
    ConfigSyncer.sync_copy, ConfigSyncer._get_agent_config_dir;
  (destruct (afind agent (agentCompatibility cfg)) as [a|] eqn:Ha;
   [|run; intros H; inversion H; reflexivity]);
  rewrite bind_ret, bind_query;
  (destruct (exists_ (tree w) (configDir a)); cbn [negb];
   [|run; intros H; inversion H; reflexivity]);
  rewrite bind_print; erewrite bind_subscript by exact Ha;
  intros H; exfalso; exact (for_each_then_true _ _ _ _ H).
Qed.

(** X2: A run that gives up (returns [False]) has not written: this holds of
    [sync_resource], of [sync_item] and of the per-tool functions of
    [ConfigSyncer], for both strategies. *)
Theorem refusals_write_nothing cfg ts s :
  (forall agent resource w w',
      ResourceSyncer.sync_resource cfg ts agent resource s w = (Ok false, w') ->
      tree w' = tree w)
  /\ (forall agent resource_type item_name w w',
      SingleItemSyncer.sync_item cfg ts agent resource_type item_name s w
        = (Ok false, w') ->
      tree w' = tree w)
  /\ (forall agent w w',
      ConfigSyncer.sync_func cfg ts s agent w = (Ok false, w') ->
      tree w' = tree w).
Proof.
  split; [|split].
  - intros agent resource w w'. apply sync_resource_failure_writes_nothing.
  - intros agent resource_type item_name w w'. apply sync_item_failure_writes_nothing.
  - intros agent w w'. apply sync_func_failure_writes_nothing.
Qed.

Lemma refusals_write_nothing_witness :
  tree (snd (ResourceSyncer.sync_resource Sample.cfg "T" "codex" "skills" copy
               (Sample.start Sample.fresh))) = Sample.fresh
  /\ tree (snd (SingleItemSyncer.sync_item Sample.cfg "T" "claude-code" "agents"
                  "none.md" copy (Sample.start Sample.fresh))) = Sample.fresh
  /\ tree (snd (ConfigSyncer.sync_func Sample.cfg "T" copy "gemini"
                  (Sample.start Sample.fresh))) = Sample.fresh.
Proof.
  destruct (refusals_write_nothing Sample.cfg "T" copy) as [H1 [H2 H3]].
  split; [|split].
  - apply (H1 "codex" "skills" (Sample.start Sample.fresh)). reflexivity.
  - apply (H2 "claude-code" "agents" "none.md" (Sample.start Sample.fresh)). reflexivity.
  - apply (H3 "gemini" (Sample.start Sample.fresh)). reflexivity.
Defined.

(** X3: The verdict of the per-tool functions of [ConfigSyncer] says whether the
    tool is installed, and nothing more: a run that returns has returned
    [True] exactly when the manifest knows the tool and its configuration
    directory exists; what happened to the resources does not enter. *)
Theorem sync_func_verdict_is_installed cfg ts s agent w b w' :
  ConfigSyncer.sync_func cfg ts s agent w = (Ok b, w') ->
  b = installed cfg (tree w) agent.
Proof.
  unfold installed.
  destruct s; unfold ConfigSyncer.sync_func, ConfigSyncer.sync_symlink,
    ConfigSyncer.sync_copy, ConfigSyncer._get_agent_config_dir;
  (destruct (afind agent (agentCompatibility cfg)) as [a|] eqn:Ha;
   [|run; intros H; inversion H; reflexivity]);
  rewrite bind_ret, bind_query;
  (destruct (exists_ (tree w) (configDir a)); cbn [negb];
   [|run; intros H; inversion H; reflexivity]);
  rewrite bind_print; erewrite bind_subscript by exact Ha;
  unfold bind, ret;
  match goal with |- context [for_each ?l ?f ?w0] =>
    destruct (for_each l f w0) as [[u|e] w1] end;
  intros H; inversion H; reflexivity.
Qed.

Lemma sync_func_verdict_is_installed_witness :
  installed Sample.cfg Sample.fresh "codex" = true
  /\ true = installed Sample.cfg (tree (Sample.start Sample.fresh)) "codex".
Proof.
  split; [reflexivity|].
  apply (sync_func_verdict_is_installed Sample.cfg "T" symlink "codex"
           (Sample.start Sample.fresh) true
           (snd (ConfigSyncer.sync_func Sample.cfg "T" symlink "codex"
                   (Sample.start Sample.fresh)))).
  reflexivity.
Defined.

(* ----------------------------------------------------------------- *)
(** ** Where [sync_item] takes its source from *)

(** X4: Only skills are relocated: for any other kind of resource the source
    of [sync_item] is the item directly under the base path of the kind;
    neither the nested groups nor the directory structure of the item are
    looked at, and nothing is printed. *)
Theorem only_skills_are_relocated cfg agent resource_type item_name source_base source w :
  resource_type <> "skills" ->
  SingleItemSyncer.nested_source cfg source_base source resource_type item_name w
    = (Ok source, w)
  /\ SingleItemSyncer.skill_source source agent resource_type item_name w
     = (Ok source, w)
  /\ (shared_source cfg resource_type = Some source_base ->
      located_source cfg agent resource_type item_name w
        = Some (source_base ++ [Name item_name])).
Proof.
  intros Hk. apply String.eqb_neq in Hk.
  assert (H1 : forall source,
             SingleItemSyncer.nested_source cfg source_base source resource_type
               item_name w = (Ok source, w)).
  { intros src. unfold SingleItemSyncer.nested_source.
    rewrite bind_query, Hk. reflexivity. }
  assert (H2 : forall source,
             SingleItemSyncer.skill_source source agent resource_type item_name w
             = (Ok source, w)).
  { intros src. unfold SingleItemSyncer.skill_source.
    rewrite bind_query, Hk. reflexivity. }
  split; [apply H1|]. split; [apply H2|].
  intros Hs. unfold located_source. rewrite Hs, H1, H2. reflexivity.
Qed.

Lemma only_skills_are_relocated_witness :
  located_source Sample.cfg "codex" "agents" "alpha" (Sample.start Sample.nested)
  = Some (Sample.P ["shared"; "agents"; "alpha"]).
Proof.
  apply (only_skills_are_relocated Sample.cfg "codex" "agents" "alpha"
           (Sample.P ["shared"; "agents"]) (Sample.P ["shared"; "agents"; "alpha"])
           (Sample.start Sample.nested)).
  - discriminate.
  - reflexivity.
Defined.

(** X5: An item found directly under the base path wins over the nested
    groups: when [source_base / item_name] exists the groups are not
    consulted, even if one of them lists the item, and nothing is
    printed. *)
Theorem direct_entry_wins_over_groups cfg source_base source resource_type item_name w :
  exists_ (tree w) source = true ->
  SingleItemSyncer.nested_source cfg source_base source resource_type item_name w
    = (Ok source, w).
Proof.
  intros H. unfold SingleItemSyncer.nested_source.
  rewrite bind_query, H. cbn [negb]. rewrite andb_false_r. reflexivity.
Qed.

Lemma direct_entry_wins_over_groups_witness :
  existsb (String.eqb "alpha")
    (skills {| basePath := Sample.P ["shared"; "g"]; skills := ["alpha"] |}) = true
  /\ SingleItemSyncer.nested_source Sample.cfg (Sample.P ["shared"; "skills"])
       (Sample.P ["shared"; "skills"; "alpha"]) "skills" "alpha"
       (Sample.start Sample.both)
     = (Ok (Sample.P ["shared"; "skills"; "alpha"]), Sample.start Sample.both).
Proof.
  split; [reflexivity|].
  apply (direct_entry_wins_over_groups Sample.cfg (Sample.P ["shared"; "skills"])
           (Sample.P ["shared"; "skills"; "alpha"]) "skills" "alpha"
           (Sample.start Sample.both)).
  reflexivity.
Defined.

(* ----------------------------------------------------------------- *)
(** ** The marker search, in general *)

Lemma rglob_eq pattern es rel :
  rglob pattern (Dir es) rel =
  (if amem pattern es then [rel ++ [pattern]] else []) ++
  flat_map (fun e => match snd e with
                     | Dir _ => rglob pattern (snd e) (rel ++ [fst e])
                     | _ => []
                     end) es.
Proof.
  cbn [rglob]. f_equal.
  induction es as [|[c ch] es IH]; [reflexivity|].
  cbn [flat_map fst snd]. rewrite <- IH. reflexivity.
Qed.

(** Every result of [rglob] is the pattern in some directory below. *)
Lemma rglob_shape pattern : forall n rel r,
  In r (rglob pattern n rel) -> exists d, r = rel ++ d ++ [pattern].
Proof.
  induction n as [d|tg|es IH] using node_nested_ind; intros rel r; try (intros []).
  rewrite rglob_eq. intros H. apply in_app_or in H. destruct H as [H|H].
  - destruct (amem pattern es); [|destruct H].
    destruct H as [<-|[]]. exists []. reflexivity.
  - apply in_flat_map in H. destruct H as [[c ch] [Hin H]].
    rewrite Forall_forall in IH. specialize (IH _ Hin). cbn [fst snd] in *.
    destruct ch as [d'|tg'|es']; try destruct H.
    destruct (IH _ _ H) as [d0 ->]. exists (c :: d0).
    rewrite <- app_assoc. reflexivity.
Qed.






Lemma find_map_none {A B : Type} (f : B -> bool) (g : A -> B) (l : list A) :
  (forall a, f (g a) = false) -> find f (map g l) = None.
Proof.
  intros H. induction l as [|a l IH]; [reflexivity|]. simpl. rewrite H. exact IH.
Qed.

Lemma parts_app_hidden p q :
  existsb startswith_dot (parts p) = true ->
  existsb startswith_dot (parts (p ++ q)) = true.
Proof.
  unfold parts. rewrite map_app. cbn [existsb]. rewrite existsb_app.
  intros H. destruct (startswith_dot "/"); [reflexivity|].
  cbn [orb] in *. rewrite H. reflexivity.
Qed.

(** X7: The filter of the fallback search looks at every part of the absolute
    path of a result, those of the start directory included.  When the
    start directory itself lies below a directory whose name starts with a
    dot (or its path holds a [..]), every result is filtered out: the search
    finds a marker only in the start directory itself, and [sync_item] warns
    that there is none and keeps the candidate directory. *)
Theorem find_skill_md_hidden_start t start_path :
  existsb startswith_dot (parts start_path) = true ->
  exists_ t (start_path ++ [Name "SKILL.md"]) = false ->
  SingleItemSyncer._find_skill_md t start_path = None
  /\ forall agent agent_subdir item_name c,
       afind agent SingleItemSyncer.agent_dir_map = Some agent_subdir ->
       is_dir t start_path = true ->
       is_dir t (start_path ++ [Name agent_subdir; Name "skills"; Name item_name])
         = false ->
       SingleItemSyncer.skill_source start_path agent "skills" item_name (World t c)
       = (Ok start_path, World t (c ++ [SkillMdNotFound start_path])).
Proof.
  intros Hh He.
  assert (Hf : SingleItemSyncer._find_skill_md t start_path = None).
  { rewrite find_skill_md_one_search, He. apply find_map_none.
    intros rel. rewrite parts_app_hidden by exact Hh. reflexivity. }
  split; [exact Hf|].
  intros agent agent_subdir item_name c Ha Hd Hown.
  unfold SingleItemSyncer.skill_source.
  rewrite bind_query. cbn [tree]. rewrite Hd. cbn [String.eqb Ascii.eqb Bool.eqb andb].
  rewrite Ha. rewrite bind_query. cbn [tree]. rewrite Hown.
  rewrite bind_query. cbn [tree]. rewrite Hf.
  rewrite bind_query. cbn [tree]. rewrite He. cbn [negb].
  rewrite bind_print. reflexivity.
Qed.

Lemma find_skill_md_hidden_start_witness :
  get Sample.hidden [".claude"; "skills"; "foo"; "inner"; "SKILL.md"]
    = Some (File "marker")
  /\ SingleItemSyncer._find_skill_md Sample.hidden Sample.hidden_foo = None
  /\ SingleItemSyncer.skill_source Sample.hidden_foo "codex" "skills" "foo"
       (World Sample.hidden [])
     = (Ok Sample.hidden_foo,
        World Sample.hidden ([] ++ [SkillMdNotFound Sample.hidden_foo])).
Proof.
  split; [reflexivity|].
  destruct (find_skill_md_hidden_start Sample.hidden Sample.hidden_foo) as [H1 H2];
    [reflexivity|reflexivity|].
  split; [exact H1|].
  apply (H2 "codex" ".codex" "foo" []); reflexivity.
Defined.

Lemma find_skill_md_shape t start_path p :
  SingleItemSyncer._find_skill_md t start_path = Some p ->
  exists rel, p = start_path ++ of_loc (rel ++ ["SKILL.md"]).
Proof.
  rewrite find_skill_md_one_search.
  destruct (exists_ t (start_path ++ [Name "SKILL.md"])).
  - intros H; injection H as <-. exists []. reflexivity.
  - intros H. apply find_some in H. destruct H as [Hin _].
    apply in_map_iff in Hin. destruct Hin as [rel [<- Hin]].
    destruct (stat t start_path) as [n|]; [|destruct Hin].
    apply rglob_shape in Hin. destruct Hin as [d ->]. exists d. reflexivity.
Qed.

Lemma parent_below source rel c :
  parent (source ++ of_loc (rel ++ [c])) = source ++ of_loc rel.
Proof.
  unfold parent. rewrite of_loc_app, app_assoc. apply removelast_last.
Qed.

(** X8: The second relocation step of [sync_item] (lines 114-140) always
    returns, reads the tree without changing it, and never leaves the
    candidate directory: the source it returns is the candidate itself or a
    path below it. *)
Theorem skill_source_stays_inside source agent resource_type item_name w :
  exists rel c,
    SingleItemSyncer.skill_source source agent resource_type item_name w
    = (Ok (source ++ of_loc rel), World (tree w) c).
Proof.
  assert (Hsame : forall c, exists rel c',
             (Ok source, World (tree w) c)
             = (Ok (source ++ of_loc rel), World (tree w) c') :> res Path * world).
  { intros c. exists [], c. simpl. rewrite app_nil_r. reflexivity. }
  unfold SingleItemSyncer.skill_source. rewrite bind_query.
  destruct w as [t c]. cbn [tree].
  destruct (String.eqb resource_type "skills" && is_dir t source);
    [|apply (Hsame c)].
  destruct (afind agent SingleItemSyncer.agent_dir_map) as [sub|]; [|apply (Hsame c)].
  rewrite bind_query. cbn [tree].
  destruct (is_dir t (source ++ [Name sub; Name "skills"; Name item_name])).
  - rewrite bind_print. cbn [tree console].
    exists [sub; "skills"; item_name]. eexists. reflexivity.
  - rewrite bind_query. cbn [tree].
    destruct (SingleItemSyncer._find_skill_md t source) as [md|] eqn:E.
    + apply find_skill_md_shape in E. destruct E as [rel ->].
      rewrite parent_below.
      destruct (negb (path_eqb (source ++ of_loc rel) source)).
      * rewrite bind_print. cbn [tree console]. exists rel. eexists. reflexivity.
      * apply (Hsame c).
    + rewrite bind_query. cbn [tree].
      destruct (negb (exists_ t (source ++ [Name "SKILL.md"]))).
      * rewrite bind_print. cbn [tree console]. apply (Hsame _).
      * rewrite bind_ret. apply (Hsame c).
Qed.

(* ----------------------------------------------------------------- *)
(** ** The backup step *)

Lemma not_link_match (n0 : node) :
  is_Link n0 = false -> match n0 with Link _ => true | _ => false end = false.
Proof. destruct n0; [reflexivity|discriminate|reflexivity]. Qed.

Lemma move_keeps_content t pd n b n0 :
  get t (pd ++ [n]) = Some n0 -> is_Link n0 = false ->
  get t (pd ++ [b]) = None -> n <> b ->
  exists t2,
    shutil_move t (of_loc (pd ++ [n])) (of_loc (pd ++ [b])) = inr t2
    /\ get t2 (pd ++ [n]) = None
    /\ get t2 (pd ++ [b]) = Some n0
    /\ frame t t2 pd n b.
Proof.
  intros Hn Hl Hb Hne.
  destruct (get_parent_dir pd n t) as [ed Hd]; [congruence|].
  destruct (del_succeeds pd n t n0 Hn) as [t1 H1].
  pose proof (get_del_parent pd n t t1 ed Hd H1) as Hd1.
  destruct (put_succeeds pd b t1 n0 _ Hd1) as [t2 H2].
  pose proof (siblings_apart pd n b Hne) as Hap.
  pose proof (proj1 (apart_spec _ _) Hap) as [Hp1 Hp2].
  exists t2. split; [|split; [|split]].
  - unfold shutil_move, is_dir.
    rewrite (stat_absent _ _ _ _ Hd Hb).
    unfold os_rename.
    rewrite (locate_present _ NoFollow _ _ _ Hn Hl).
    rewrite (locate_absent _ NoFollow _ _ _ Hd Hb), Hn.
    destruct (loc_eqb (pd ++ [n]) (pd ++ [b])) eqn:E;
      [apply loc_eqb_prefix in E; congruence|].
    rewrite Hp1, Hb, H1, H2. reflexivity.
  - rewrite (get_put_apart _ _ _ _ _ H2 Hap). apply (get_del_same _ _ _ H1).
  - apply (get_put_same _ _ _ _ H2).
  - intros q Hq1 Hq2.
    rewrite (get_put_apart _ _ _ _ _ H2 Hq2). apply (get_del_apart _ _ _ _ H1 Hq1).
Qed.

(** X9: The three classes agree on a destination that is a regular file or a
    directory, when the name of the backup is free: the entry is moved as it
    is to [<name>.backup.<timestamp>] next to it, the destination is free
    afterwards, nothing else in the tree changes, and one message tells the
    two names. *)
Theorem backup_moves_entry_aside ts t c pd n n0 :
  get t (pd ++ [n]) = Some n0 ->
  is_Link n0 = false ->
  get t (pd ++ [backup_name n ts]) = None ->
  exists t',
    ConfigSyncer._backup_if_exists ts (of_loc (pd ++ [n])) (World t c)
      = (Ok tt, World t' (c ++ [Backup n (backup_name n ts)]))
    /\ ResourceSyncer._backup_if_exists ts (of_loc (pd ++ [n])) (World t c)
       = (Ok tt, World t' (c ++ [Backup n (backup_name n ts)]))
    /\ SingleItemSyncer._backup_if_exists ts (of_loc (pd ++ [n])) (World t c)
       = (Ok tt, World t' (c ++ [Backup n (backup_name n ts)]))
    /\ get t' (pd ++ [n]) = None
    /\ get t' (pd ++ [backup_name n ts]) = Some n0
    /\ frame t t' pd n (backup_name n ts).
Proof.
  intros Hn Hl Hb.
  destruct (move_keeps_content t pd n (backup_name n ts) n0 Hn Hl Hb
              (backup_name_differs n ts)) as [t2 [Hm [Hn2 [Hb2 Hf]]]].
  pose proof (stat_present _ _ _ _ Hn Hl) as Hs.
  pose proof (lstat_present _ _ _ _ Hn Hl) as Hls.
  assert (He : exists_ t (of_loc (pd ++ [n])) = true)
    by (unfold exists_; rewrite Hs; reflexivity).
  assert (Hsl : is_symlink t (of_loc (pd ++ [n])) = false)
    by (unfold is_symlink; rewrite Hls; apply not_link_match, Hl).
  assert (Hmove : forall X (k : unit -> M X),
             bind (syscall (fun t0 => shutil_move t0 (of_loc (pd ++ [n]))
                                        (backup_path_of (of_loc (pd ++ [n])) ts)))
                  k (World t c)
             = k tt (World t2 c)).
  { intros X k. unfold bind, syscall. cbn [tree console].
    rewrite backup_path_of_loc, Hm. reflexivity. }
  assert (Hname : name (backup_path_of (of_loc (pd ++ [n])) ts) = backup_name n ts)
    by (rewrite backup_path_of_loc; apply name_of_loc).
  exists t2. repeat split; try assumption.
  - unfold ConfigSyncer._backup_if_exists.
    rewrite bind_query. cbn [tree]. rewrite He, Hsl. cbn [andb negb].
    rewrite Hmove. unfold print. cbn [tree console].
    rewrite name_of_loc, Hname. reflexivity.
  - unfold ResourceSyncer._backup_if_exists.
    rewrite bind_query. cbn [tree]. rewrite He, Hsl. cbn [andb negb].
    rewrite Hmove. unfold print. cbn [tree console].
    rewrite name_of_loc, Hname. reflexivity.
  - unfold SingleItemSyncer._backup_if_exists.
    rewrite bind_query. cbn [tree]. rewrite He.
    rewrite bind_query. cbn [tree]. rewrite Hsl.
    rewrite Hmove. unfold print. cbn [tree console].
    rewrite name_of_loc, Hname. reflexivity.
Qed.

Lemma backup_moves_entry_aside_witness :
  exists t',
    ConfigSyncer._backup_if_exists "T" (of_loc (["home"; "claude"] ++ ["agents"]))
      (World Sample.no_source [])
      = (Ok tt, World t' ([] ++ [Backup "agents" (backup_name "agents" "T")]))
    /\ ResourceSyncer._backup_if_exists "T" (of_loc (["home"; "claude"] ++ ["agents"]))
         (World Sample.no_source [])
       = (Ok tt, World t' ([] ++ [Backup "agents" (backup_name "agents" "T")]))
    /\ SingleItemSyncer._backup_if_exists "T" (of_loc (["home"; "claude"] ++ ["agents"]))
         (World Sample.no_source [])
       = (Ok tt, World t' ([] ++ [Backup "agents" (backup_name "agents" "T")]))
    /\ get t' (["home"; "claude"] ++ ["agents"]) = None
    /\ get t' (["home"; "claude"] ++ [backup_name "agents" "T"])
       = Some (Dir [("mine.md", File "M")])
    /\ frame Sample.no_source t' ["home"; "claude"] "agents" (backup_name "agents" "T").
Proof.
  apply (backup_moves_entry_aside "T" Sample.no_source [] ["home"; "claude"] "agents"
           (Dir [("mine.md", File "M")])); reflexivity.
Defined.

(** On a destination that exists and is no link the three classes do the
    same: one [shutil.move] and one message. *)
Lemma backup_by_move ts t c p t2 :
  exists_ t p = true -> is_symlink t p = false ->
  shutil_move t p (backup_path_of p ts) = inr t2 ->
  let done := (Ok tt, World t2 (c ++ [Backup (name p) (name (backup_path_of p ts))])) in
  ConfigSyncer._backup_if_exists ts p (World t c) = done
  /\ ResourceSyncer._backup_if_exists ts p (World t c) = done
  /\ SingleItemSyncer._backup_if_exists ts p (World t c) = done.
Proof.
  intros He Hsl Hm.
  assert (Hmove : forall X (k : unit -> M X),
             bind (syscall (fun t0 => shutil_move t0 p (backup_path_of p ts)))
                  k (World t c)
             = k tt (World t2 c)).
  { intros X k. unfold bind, syscall. cbn [tree console]. rewrite Hm. reflexivity. }
  cbv zeta. repeat split.
  - unfold ConfigSyncer._backup_if_exists.
    rewrite bind_query. cbn [tree]. rewrite He, Hsl. cbn [andb negb].
    rewrite Hmove. reflexivity.
  - unfold ResourceSyncer._backup_if_exists.
    rewrite bind_query. cbn [tree]. rewrite He, Hsl. cbn [andb negb].
    rewrite Hmove. reflexivity.
  - unfold SingleItemSyncer._backup_if_exists.
    rewrite bind_query. cbn [tree]. rewrite He.
    rewrite bind_query. cbn [tree]. rewrite Hsl.
    rewrite Hmove. reflexivity.
Qed.

(** The same holds when the move is refused: the exception of
    [shutil.move] ends the run with the tree as it was. *)
Lemma backup_by_move_raises ts t c p e :
  exists_ t p = true -> is_symlink t p = false ->
  shutil_move t p (backup_path_of p ts) = inl e ->
  ConfigSyncer._backup_if_exists ts p (World t c) = (Raised e, World t c)
  /\ ResourceSyncer._backup_if_exists ts p (World t c) = (Raised e, World t c)
  /\ SingleItemSyncer._backup_if_exists ts p (World t c) = (Raised e, World t c).
Proof.
  intros He Hsl Hm.
  assert (Hmove : forall X (k : unit -> M X),
             bind (syscall (fun t0 => shutil_move t0 p (backup_path_of p ts)))
                  k (World t c)
             = (Raised e, World t c)).
  { intros X k. unfold bind, syscall. cbn [tree console]. rewrite Hm. reflexivity. }
  repeat split.
  - unfold ConfigSyncer._backup_if_exists.
    rewrite bind_query. cbn [tree]. rewrite He, Hsl. cbn [andb negb].
    rewrite Hmove. reflexivity.
  - unfold ResourceSyncer._backup_if_exists.
    rewrite bind_query. cbn [tree]. rewrite He, Hsl. cbn [andb negb].
    rewrite Hmove. reflexivity.
  - unfold SingleItemSyncer._backup_if_exists.
    rewrite bind_query. cbn [tree]. rewrite He.
    rewrite bind_query. cbn [tree]. rewrite Hsl.
    rewrite Hmove. reflexivity.
Qed.

Lemma present_no_link t l c n0 :
  get t (l ++ [c]) = Some n0 -> is_Link n0 = false ->
  exists_ t (of_loc (l ++ [c])) = true /\ is_symlink t (of_loc (l ++ [c])) = false.
Proof.
  intros Hn Hl. unfold exists_, is_symlink.
  rewrite (stat_present _ _ _ _ Hn Hl), (lstat_present _ _ _ _ Hn Hl).
  split; [reflexivity|apply not_link_match, Hl].
Qed.

Lemma loc_eqb_false_of_prefix p q : loc_prefix p q = false -> loc_eqb p q = false.
Proof.
  intros H. destruct (loc_eqb p q) eqn:E; [|reflexivity].
  apply loc_eqb_prefix in E. congruence.
Qed.

(** X10: A second backup within the same second finds the name of the backup
    taken.  When an earlier backup of a directory holds it, [shutil.move]
    puts the entry inside that directory, under its own name, while the
    message still names the backup itself; when the earlier backup already
    holds an entry of that name (not a link), the move is refused with
    [shutil.Error] and the tree stays as it was. *)
Theorem backup_into_earlier_backup ts t c pd n n0 eb :
  let b := backup_name n ts in
  let target := of_loc (pd ++ [n]) in
  get t (pd ++ [n]) = Some n0 ->
  is_Link n0 = false ->
  get t (pd ++ [b]) = Some (Dir eb) ->
  match afind n eb with
  | None =>
      exists t',
        (ConfigSyncer._backup_if_exists ts target (World t c)
           = (Ok tt, World t' (c ++ [Backup n b]))
         /\ ResourceSyncer._backup_if_exists ts target (World t c)
            = (Ok tt, World t' (c ++ [Backup n b]))
         /\ SingleItemSyncer._backup_if_exists ts target (World t c)
            = (Ok tt, World t' (c ++ [Backup n b])))
        /\ get t' (pd ++ [n]) = None
        /\ get t' ((pd ++ [b]) ++ [n]) = Some n0
  | Some old =>
      is_Link old = false ->
      ConfigSyncer._backup_if_exists ts target (World t c)
        = (Raised ShutilError, World t c)
      /\ ResourceSyncer._backup_if_exists ts target (World t c)
         = (Raised ShutilError, World t c)
      /\ SingleItemSyncer._backup_if_exists ts target (World t c)
         = (Raised ShutilError, World t c)
  end.
Proof.
  intros b target Hn Hl Hb. unfold target, b in *. clear target b.
  set (b := backup_name n ts) in *.
  assert (Hne : n <> b) by apply backup_name_differs.
  destruct (present_no_link _ _ _ _ Hn Hl) as [He Hsl].
  pose proof (siblings_apart pd n b Hne) as Hap.
  pose proof (proj1 (apart_spec _ _) Hap) as [Hp1 Hp2].
  assert (Hdir : is_dir t (of_loc (pd ++ [b])) = true)
    by (apply (is_dir_of_loc _ _ _ Hb)).
  assert (Hsame : samefile t (of_loc (pd ++ [n])) (of_loc (pd ++ [b])) = false).
  { unfold samefile.
    rewrite (locate_present _ Follow _ _ _ Hn Hl).
    rewrite (locate_present _ Follow _ _ _ Hb eq_refl), Hn, Hb.
    apply loc_eqb_false_of_prefix, Hp1. }
  assert (Hreal : of_loc (pd ++ [b]) ++ [Name (name (of_loc (pd ++ [n])))]
                  = of_loc ((pd ++ [b]) ++ [n]))
    by (rewrite name_of_loc; apply of_loc_snoc).
  assert (Hshape : shutil_move t (of_loc (pd ++ [n])) (backup_path_of (of_loc (pd ++ [n])) ts)
                   = if exists_ t (of_loc ((pd ++ [b]) ++ [n])) then inl ShutilError
                     else os_rename t (of_loc (pd ++ [n])) (of_loc ((pd ++ [b]) ++ [n]))).
  { rewrite backup_path_of_loc. fold b. unfold shutil_move.
    rewrite Hdir, Hsame. cbn [andb]. rewrite Hreal. reflexivity. }
  assert (Hnames : name (of_loc (pd ++ [n])) = n
                   /\ name (backup_path_of (of_loc (pd ++ [n])) ts) = b)
    by (split; [apply name_of_loc|rewrite backup_path_of_loc; apply name_of_loc]).
  destruct Hnames as [Hn1 Hn2].
  pose proof (get_snoc (pd ++ [b]) n t) as Hin. rewrite Hb in Hin.
  destruct (afind n eb) as [old|] eqn:Ea.
  - intros Hold. apply backup_by_move_raises; try assumption.
    rewrite Hshape. unfold exists_.
    rewrite (stat_present _ _ _ _ Hin Hold). reflexivity.
  - destruct (del_succeeds pd n t n0 Hn) as [t1 H1].
    assert (Hb1 : get t1 (pd ++ [b]) = Some (Dir eb)).
    { rewrite (get_del_apart _ _ _ _ H1); [exact Hb|]. rewrite apart_sym. exact Hap. }
    destruct (put_succeeds (pd ++ [b]) n t1 n0 _ Hb1) as [t2 H2].
    assert (Hap2 : apart (pd ++ [n]) ((pd ++ [b]) ++ [n]) = true).
    { rewrite apart_sym. apply apart_app_l. rewrite apart_sym. exact Hap. }
    pose proof (proj1 (apart_spec _ _) Hap2) as [Hq1 Hq2].
    assert (Hmove : shutil_move t (of_loc (pd ++ [n]))
                      (backup_path_of (of_loc (pd ++ [n])) ts) = inr t2).
    { rewrite Hshape. unfold exists_. rewrite (stat_absent _ _ _ _ Hb Hin).
      unfold os_rename.
      rewrite (locate_present _ NoFollow _ _ _ Hn Hl).
      rewrite (locate_absent _ NoFollow _ _ _ Hb Hin), Hn.
      rewrite (loc_eqb_false_of_prefix _ _ Hq1), Hq1, Hin, H1, H2. reflexivity. }
    exists t2. split; [|split].
    + pose proof (backup_by_move ts t c _ t2 He Hsl Hmove) as H.
      cbv zeta in H. rewrite Hn1, Hn2 in H. exact H.
    + rewrite (get_put_apart _ _ _ _ _ H2 Hap2). apply (get_del_same _ _ _ H1).
    + apply (get_put_same _ _ _ _ H2).
Qed.

Lemma backup_into_earlier_backup_witness :
  exists t',
    (ConfigSyncer._backup_if_exists "T" (of_loc (["home"; "claude"] ++ ["agents"]))
       (World Sample.backed_up [])
       = (Ok tt, World t' ([] ++ [Backup "agents" (backup_name "agents" "T")]))
     /\ ResourceSyncer._backup_if_exists "T" (of_loc (["home"; "claude"] ++ ["agents"]))
          (World Sample.backed_up [])
        = (Ok tt, World t' ([] ++ [Backup "agents" (backup_name "agents" "T")]))
     /\ SingleItemSyncer._backup_if_exists "T" (of_loc (["home"; "claude"] ++ ["agents"]))
          (World Sample.backed_up [])
        = (Ok tt, World t' ([] ++ [Backup "agents" (backup_name "agents" "T")])))
    /\ get t' (["home"; "claude"] ++ ["agents"]) = None
    /\ get t' ((["home"; "claude"] ++ [backup_name "agents" "T"]) ++ ["agents"])
       = Some (Dir [("mine.md", File "M")]).
Proof.
  apply (backup_into_earlier_backup "T" Sample.backed_up [] ["home"; "claude"] "agents"
           (Dir [("mine.md", File "M")]) [("old.md", File "O")]); reflexivity.
Defined.

(* ----------------------------------------------------------------- *)
(** ** Removing an entry *)

Lemma loc_prefix_inv p : forall q, loc_prefix p q = true -> exists r, q = p ++ r.
Proof.
  induction p as [|a p IH]; intros q H; [exists q; reflexivity|].
  destruct q as [|b q]; [discriminate|]. simpl in H.
  apply andb_true_iff in H. destruct H as [E H]. apply String.eqb_eq in E. subst b.
  destruct (IH q H) as [r ->]. exists r. reflexivity.
Qed.

Lemma loc_cases p q :
  apart p q = true \/ loc_prefix q p = true
  \/ (loc_prefix p q = true /\ loc_prefix q p = false).
Proof.
  unfold apart. destruct (loc_prefix q p); [right; left; reflexivity|].
  destruct (loc_prefix p q); [right; right; split; reflexivity|left; reflexivity].
Qed.

Lemma del_cons_cons c x (l : loc) es :
  del (Dir es) (c :: x :: l) =
  match afind c es with
  | Some ch =>
      match del ch (x :: l) with
      | Some ch' => Some (Dir (aset c ch' es))
      | None => None
      end
  | None => None
  end.
Proof. reflexivity. Qed.

(** What lies above a removed entry is a directory before and after. *)
Lemma del_above (l : loc) : forall t t' q,
  del t l = Some t' -> loc_prefix q l = true -> loc_prefix l q = false ->
  exists es es', get t q = Some (Dir es) /\ get t' q = Some (Dir es').
Proof.
  induction l as [|c l IH]; intros t t' q Hd Hp Hn; [discriminate|].
  destruct t as [d|tg|es]; try discriminate.
  destruct q as [|c' q].
  - simpl in Hd. destruct l.
    + destruct (afind c es); [|discriminate]. injection Hd as <-.
      do 2 eexists. split; reflexivity.
    + destruct (afind c es) as [ch|]; [|discriminate].
      destruct (del ch (s :: l)); [|discriminate]. injection Hd as <-.
      do 2 eexists. split; reflexivity.
  - simpl in Hp, Hn. destruct (String.eqb c' c) eqn:E; [|discriminate].
    apply String.eqb_eq in E. subst c'. rewrite String.eqb_refl in Hn.
    simpl in Hp, Hn.
    destruct l as [|x l].
    + destruct q; simpl in Hp, Hn; discriminate.
    + rewrite del_cons_cons in Hd.
      destruct (afind c es) as [ch|] eqn:Ea; [|discriminate].
      destruct (del ch (x :: l)) as [ch'|] eqn:Ed; [|discriminate].
      injection Hd as <-.
      destruct (IH ch ch' q Ed Hp Hn) as [e1 [e2 [H1 H2]]].
      exists e1, e2. simpl. rewrite Ea, afind_aset_same. split; assumption.
Qed.

Lemma get_del_below (l : loc) t t' q :
  del t l = Some t' -> loc_prefix l q = true -> get t' q = None.
Proof.
  intros Hd Hp. apply loc_prefix_inv in Hp. destruct Hp as [r ->].
  rewrite get_app, (get_del_same _ _ _ Hd). reflexivity.
Qed.

(** Removing an entry adds nothing to the tree. *)
Lemma del_extends_back (l : loc) t t' : del t l = Some t' -> extends t' t.
Proof.
  intros Hd q.
  destruct (loc_cases q l) as [H|[H|[H1 H2]]].
  - rewrite (get_del_apart _ _ _ _ Hd H). apply same_shape_refl.
  - rewrite (get_del_below _ _ _ _ Hd H). exact I.
  - destruct (del_above _ _ _ _ Hd H1 H2) as [e1 [e2 [G1 G2]]].
    rewrite G1, G2. simpl. eauto.
Qed.

(** Removing a link keeps every regular file and every directory. *)
Lemma del_link_keeps (l : loc) t t' tg :
  get t l = Some (Link tg) -> del t l = Some t' -> keeps_files_and_dirs t t'.
Proof.
  intros Hl Hd q.
  destruct (loc_cases q l) as [H|[H|[H1 H2]]].
  - rewrite (get_del_apart _ _ _ _ Hd H).
    destruct (get t q) as [[d|tg'|es]|]; eauto.
  - apply loc_prefix_inv in H. destruct H as [r ->].
    rewrite get_app, Hl. destruct r; simpl; exact I.
  - destruct (del_above _ _ _ _ Hd H1 H2) as [e1 [e2 [G1 G2]]].
    rewrite G1. eauto.
Qed.

Lemma keeps_refl t : keeps_files_and_dirs t t.
Proof. intros q. destruct (get t q) as [[d|tg|es]|]; eauto. Qed.

Lemma keeps_trans t1 t2 t3 :
  keeps_files_and_dirs t1 t2 -> keeps_files_and_dirs t2 t3 ->
  keeps_files_and_dirs t1 t3.
Proof.
  intros H1 H2 q. specialize (H1 q). specialize (H2 q).
  destruct (get t1 q) as [[d|tg|es]|]; try exact I.
  - rewrite H1 in H2. exact H2.
  - destruct H1 as [es1 E]. rewrite E in H2. exact H2.
Qed.

Lemma keeps_root t t' :
  keeps_files_and_dirs t t' -> is_Link t = false -> is_Link t' = false.
Proof.
  intros H Hl. specialize (H []). simpl in H.
  destruct t as [d|tg|es]; [|discriminate|].
  - injection H as ->. reflexivity.
  - destruct H as [es' H]. injection H as ->. reflexivity.
Qed.

(** [os.unlink] on a path that [is_symlink] succeeds and removes that link. *)
Lemma unlink_link t p :
  is_Link t = false -> is_symlink t p = true ->
  exists l tg t',
    locate t NoFollow p = inr l /\ get t l = Some (Link tg)
    /\ del t l = Some t' /\ os_unlink t p = inr t'.
Proof.
  intros Hroot H. unfold is_symlink, lstat in H. unfold os_unlink.
  destruct (locate t NoFollow p) as [e|l]; [discriminate|].
  destruct (get t l) as [[d|tg|es]|] eqn:G; try discriminate.
  destruct (snoc_cases l) as [->|[l' [c ->]]].
  - simpl in G. injection G as ->. discriminate.
  - destruct (del_succeeds l' c t _ G) as [t' Hd].
    exists (l' ++ [c]), tg, t'. rewrite Hd. repeat split; assumption.
Qed.

(* ----------------------------------------------------------------- *)
(** ** [cleanup_links] *)

Lemma cleanup_resource_spec config_dir item w :
  is_Link (tree w) = false ->
  exists lines w',
    ConfigSyncer.cleanup_resource config_dir item w = (Ok lines, w')
    /\ extends (tree w') (tree w)
    /\ keeps_files_and_dirs (tree w) (tree w').
Proof.
  intros Hroot. destruct item as [resource relative_path].
  unfold ConfigSyncer.cleanup_resource. rewrite bind_query.
  destruct (is_symlink (tree w) (config_dir ++ relative_path)) eqn:E.
  - destruct (unlink_link _ _ Hroot E) as [l [tg [t' [_ [G [Hd Hu]]]]]].
    unfold bind, syscall, ret. rewrite Hu.
    eexists; eexists. split; [reflexivity|]. cbn [tree].
    split; [exact (del_extends_back _ _ _ Hd)|exact (del_link_keeps _ _ _ _ G Hd)].
  - exists [], w. split; [reflexivity|].
    split; [apply extends_refl|apply keeps_refl].
Qed.

Lemma report_each_spec {A : Type} (body : A -> M (list line)) :
  (forall x w, is_Link (tree w) = false ->
     exists lines w', body x w = (Ok lines, w')
       /\ extends (tree w') (tree w) /\ keeps_files_and_dirs (tree w) (tree w')) ->
  forall l w, is_Link (tree w) = false ->
    exists lines w', report_each l body w = (Ok lines, w')
      /\ extends (tree w') (tree w) /\ keeps_files_and_dirs (tree w) (tree w').
Proof.
  intros Hbody. induction l as [|x l IH]; intros w Hroot.
  - exists [], w. split; [reflexivity|]. split; [apply extends_refl|apply keeps_refl].
  - destruct (Hbody x w Hroot) as [l1 [w1 [E1 [X1 K1]]]].
    destruct (IH w1 (keeps_root _ _ K1 Hroot)) as [l2 [w2 [E2 [X2 K2]]]].
    exists (l1 ++ l2), w2. cbn [report_each].
    rewrite (bind_eq _ _ _ _ _ E1), (bind_eq _ _ _ _ _ E2).
    split; [reflexivity|].
    split; [exact (extends_trans _ _ _ X2 X1)|exact (keeps_trans _ _ _ K1 K2)].
Qed.

Lemma cleanup_agent_spec cfg agent_name w :
  is_Link (tree w) = false ->
  exists lines w',
    ConfigSyncer.cleanup_agent cfg agent_name w = (Ok lines, w')
    /\ extends (tree w') (tree w)
    /\ keeps_files_and_dirs (tree w) (tree w').
Proof.
  intros Hroot.
  unfold ConfigSyncer.cleanup_agent, ConfigSyncer._get_agent_config_dir.
  destruct (afind agent_name (agentCompatibility cfg)) as [a|].
  - rewrite bind_ret, bind_query.
    destruct (exists_ (tree w) (configDir a)); cbn [negb].
    + destruct (report_each_spec _ (cleanup_resource_spec (configDir a))
                  (resourceMapping a) w Hroot) as [l1 [w1 [E1 [X1 K1]]]].
      rewrite (bind_eq _ _ _ _ _ E1).
      eexists; eexists. split; [reflexivity|]. split; assumption.
    + exists [], w. split; [reflexivity|].
      split; [apply extends_refl|apply keeps_refl].
  - run. eexists; eexists. split; [reflexivity|]. cbn [tree].
    split; [apply extends_refl|apply keeps_refl].
Qed.

(** X11: [cleanup_links] never stops half-way, and it removes links only: it
    returns, every regular file and every directory of the tree is still
    there afterwards (a file with its content), and nothing has been added.
    In particular the backups that earlier runs took are left where they
    are: cleaning does not bring them back. *)
Theorem cleanup_links_removes_links_only cfg agent w :
  is_Link (tree w) = false ->
  exists lines w',
    ConfigSyncer.cleanup_links cfg agent w = (Ok lines, w')
    /\ extends (tree w') (tree w)
    /\ keeps_files_and_dirs (tree w) (tree w').
Proof.
  intros Hroot. unfold ConfigSyncer.cleanup_links.
  apply (report_each_spec _ (cleanup_agent_spec cfg)). exact Hroot.
Qed.

Lemma cleanup_links_removes_links_only_witness :
  ConfigSyncer.cleanup_links Sample.cfg None (Sample.start Sample.linked)
  = (Ok [Cleaning "claude-code"; Cleaning "codex"; Deleted "agents"],
     World
       (Dir [("shared", Dir [("agents", Sample.agents_dir); ("skills", Dir [])]);
             ("home", Dir [("claude", Dir []); ("codex", Dir [])])])
       [])
  /\ exists lines w',
       ConfigSyncer.cleanup_links Sample.cfg None (Sample.start Sample.linked)
         = (Ok lines, w')
       /\ extends (tree w') (tree (Sample.start Sample.linked))
       /\ keeps_files_and_dirs (tree (Sample.start Sample.linked)) (tree w').
Proof.
  split; [reflexivity|].
  apply (cleanup_links_removes_links_only Sample.cfg None (Sample.start Sample.linked)).
  reflexivity.
Defined.

(* ----------------------------------------------------------------- *)
(** ** Links are neither made nor moved onto a resolved destination *)

Lemma loc_prefix_refl p : loc_prefix p p = true.
Proof. induction p as [|a p IH]; [reflexivity|]. simpl. rewrite String.eqb_refl. exact IH. Qed.

Lemma loc_prefix_app p r : loc_prefix p (p ++ r) = true.
Proof. induction p as [|a p IH]; [reflexivity|]. simpl. rewrite String.eqb_refl. exact IH. Qed.

Lemma loc_eqb_refl p : loc_eqb p p = true.
Proof. induction p as [|a p IH]; [reflexivity|]. simpl. rewrite String.eqb_refl. exact IH. Qed.

(** A location strictly above another one. *)
Lemma strictly_above q l :
  loc_prefix q l = true -> loc_prefix l q = false -> exists c r, l = q ++ c :: r.
Proof.
  intros H1 H2. apply loc_prefix_inv in H1. destruct H1 as [[|c r] ->].
  - rewrite app_nil_r, loc_prefix_refl in H2. discriminate.
  - eauto.
Qed.

(** A new empty directory brings no link. *)
Lemma put_dir_links_back (l : loc) t t' :
  put t l (Dir []) = Some t' ->
  forall q tg, get t' q = Some (Link tg) -> get t q = Some (Link tg).
Proof.
  intros Hp q tg H.
  destruct (loc_cases q l) as [Ha|[Ha|[H1 H2]]].
  - rewrite <- (get_put_apart _ _ _ _ _ Hp Ha). exact H.
  - apply loc_prefix_inv in Ha. destruct Ha as [r ->].
    rewrite get_app, (get_put_same _ _ _ _ Hp) in H.
    destruct r; discriminate H.
  - destruct (strictly_above _ _ H1 H2) as [c [r ->]].
    destruct (get_through q c r t' _ (get_put_same _ _ _ _ Hp)) as [es E].
    rewrite E in H. discriminate.
Qed.

Lemma os_mkdir_links_back t p t' :
  os_mkdir t p = inr t' ->
  forall q tg, get t' q = Some (Link tg) -> get t q = Some (Link tg).
Proof.
  unfold os_mkdir.
  destruct (locate t NoFollow p) as [e|l]; [discriminate|].
  destruct (get t l); [discriminate|].
  destruct (put t l (Dir [])) as [t1|] eqn:Hp; [|discriminate].
  intros H; injection H as <-. exact (put_dir_links_back _ _ _ Hp).
Qed.

Lemma mkdir_rev_links_back : forall rp t t' r,
  mkdir_rev t rp = (t', r) ->
  forall q tg, get t' q = Some (Link tg) -> get t q = Some (Link tg).
Proof.
  induction rp as [|s rp IH]; intros t t' r; rewrite mkdir_rev_eq.
  - destruct (os_mkdir t (rev [])) as [e|t1] eqn:E1.
    + destruct e; try (destruct (is_dir t (rev [])));
        intros H; injection H as <- _; auto.
    + intros H; injection H as <- _. exact (os_mkdir_links_back _ _ _ E1).
  - destruct (os_mkdir t (rev (s :: rp))) as [e|t1] eqn:E1.
    + assert (Hsame : forall o, (t, o) = (t', r) ->
                forall q tg, get t' q = Some (Link tg) -> get t q = Some (Link tg))
        by (intros o H; injection H as <- _; auto).
      destruct e; try (destruct (is_dir t (rev (s :: rp))); apply Hsame).
      destruct (mkdir_rev t rp) as [t2 [e2|]] eqn:E2.
      * intros H; injection H as <- _. exact (IH _ _ _ E2).
      * pose proof (IH _ _ _ E2) as B2.
        destruct (os_mkdir t2 (rev (s :: rp))) as [e3|t3] eqn:E3.
        -- assert (Hsame2 : forall o, (t2, o) = (t', r) ->
                forall q tg, get t' q = Some (Link tg) -> get t q = Some (Link tg))
             by (intros o H; injection H as <- _; exact B2).
           destruct e3; try (destruct (is_dir t2 (rev (s :: rp)))); apply Hsame2.
        -- intros H; injection H as <- _. intros q tg G.
           apply B2. exact (os_mkdir_links_back _ _ _ E3 _ _ G).
    + intros H; injection H as <- _. exact (os_mkdir_links_back _ _ _ E1).
Qed.

Lemma nolink_links_back t t' l :
  (forall q tg, get t' q = Some (Link tg) -> get t q = Some (Link tg)) ->
  nolink t l -> nolink t' l.
Proof. intros B H q r tg E G. exact (H q r tg E (B _ _ G)). Qed.

(** A rename of a location without links leaves no link on the way to it. *)
Lemma rename_nolink t l dst t2 :
  nolink t l -> os_rename t (of_loc l) dst = inr t2 -> nolink t2 l.
Proof.
  intros Hn. unfold os_rename, locate.
  destruct (walk_nolink t NoFollow MAXSYMLINKS l [] Hn) as [[e E]|E]; rewrite E;
    [discriminate|].
  simpl app.
  destruct (walk MAXSYMLINKS t NoFollow [] dst) as [e|ld]; [discriminate|].
  destruct (get t l) as [n|] eqn:Gl; [|discriminate].
  destruct (loc_eqb l ld) eqn:Eq; [intros H; injection H as <-; exact Hn|].
  destruct (loc_prefix l ld) eqn:Ep; [discriminate|].
  intros Hm.
  (* the destination is not above the source *)
  assert (Hnot_above : forall c r, l <> ld ++ c :: r).
  { intros c r ->.
    destruct (get_through ld c r t n Gl) as [es Ges].
    assert (Hes : es <> []).
    { intros ->. rewrite get_app, Ges in Gl. discriminate. }
    rewrite Ges in Hm.
    destruct es as [|e0 es]; [congruence|].
    destruct n; discriminate. }
  assert (Hdp : exists t1, del t l = Some t1 /\ put t1 ld n = Some t2).
  { destruct (del t l) as [t1|] eqn:Hd.
    - exists t1. split; [reflexivity|].
      destruct (put t1 ld n) as [t3|] eqn:Hp.
      + destruct (get t ld) as [[d|tg|[|e0 es]]|]; destruct n;
          try discriminate; injection Hm as <-; reflexivity.
      + destruct (get t ld) as [[d|tg|[|e0 es]]|]; destruct n; discriminate.
    - destruct (get t ld) as [[d|tg|[|e0 es]]|]; destruct n; discriminate. }
  destruct Hdp as [t1 [Hd Hp]].
  intros q r tg El G.
  destruct (loc_cases q ld) as [Ha|[Ha|[H1 H2]]].
  - rewrite (get_put_apart _ _ _ _ _ Hp Ha) in G.
    destruct r as [|c r].
    + rewrite app_nil_r in El. subst q. rewrite (get_del_same _ _ _ Hd) in G. discriminate.
    + assert (Hq1 : loc_prefix q l = true) by (rewrite El; apply loc_prefix_app).
      assert (Hq2 : loc_prefix l q = false).
      { destruct (loc_prefix l q) eqn:X; [|reflexivity].
        apply loc_prefix_inv in X. destruct X as [r' X].
        rewrite El, <- app_assoc in X.
        apply (f_equal (@List.length string)) in X.
        rewrite !length_app in X. simpl in X. lia. }
      destruct (del_above _ _ _ _ Hd Hq1 Hq2) as [e1 [e2 [_ G2]]].
      rewrite G2 in G. discriminate.
  - apply loc_prefix_inv in Ha. destruct Ha as [r' ->].
    rewrite <- app_assoc in El.
    destruct (r' ++ r) as [|c r0] eqn:Er.
    + rewrite app_nil_r in El. subst ld. rewrite loc_eqb_refl in Eq. discriminate.
    + exact (Hnot_above c r0 El).
  - destruct (strictly_above _ _ H1 H2) as [c [r0 ->]].
    destruct (get_through q c r0 t2 _ (get_put_same _ _ _ _ Hp)) as [es E2].
    rewrite E2 in G. discriminate.
Qed.

Lemma move_nolink t l dst t2 :
  nolink t l -> shutil_move t (of_loc l) dst = inr t2 -> nolink t2 l.
Proof.
  intros Hn. unfold shutil_move.
  destruct (is_dir t dst).
  - destruct (samefile t (of_loc l) dst && negb (is_symlink t (of_loc l))).
    + apply rename_nolink, Hn.
    + destruct (exists_ t (dst ++ [Name (name (of_loc l))])); [discriminate|].
      apply rename_nolink, Hn.
  - apply rename_nolink, Hn.
Qed.

Ltac not_an_old_link H :=
  repeat (apply in_app_or in H; destruct H as [H|H];
          [|repeat (destruct H as [H|H]; [discriminate H|]); destruct H]);
  try exact H.

Lemma resource_backup_nolink ts l t c r w2 :
  nolink t l ->
  ResourceSyncer._backup_if_exists ts (of_loc l) (World t c) = (r, w2) ->
  (forall p, In (OldLinkRemoved p) (console w2) -> In (OldLinkRemoved p) c)
  /\ (r = Ok tt -> nolink (tree w2) l).
Proof.
  intros Hn. unfold ResourceSyncer._backup_if_exists.
  rewrite bind_query. cbn [tree].
  destruct (exists_ t (of_loc l) && negb (is_symlink t (of_loc l))).
  - unfold bind, syscall, print. cbn [tree console].
    destruct (shutil_move t (of_loc l) (backup_path_of (of_loc l) ts)) as [e|t2] eqn:Em.
    + intros H; injection H as <- <-. split; [auto|discriminate].
    + intros H; injection H as <- <-. cbn [tree console]. split.
      * intros p H. not_an_old_link H.
      * intros _. exact (move_nolink _ _ _ _ Hn Em).
  - intros H; injection H as <- <-. split; [auto|intros _; exact Hn].
Qed.

Lemma execute_prints_no_old_link s source target w r w' :
  execute s source target w = (r, w') ->
  forall p, In (OldLinkRemoved p) (console w') -> In (OldLinkRemoved p) (console w).
Proof.
  unfold execute. destruct s.
  - unfold bind, syscall, print.
    destruct (os_symlink (tree w) source target) as [e|t1];
      intros H; injection H as <- <-; cbn [console]; intros p H; not_an_old_link H.
  - rewrite bind_query. destruct (is_dir (tree w) source).
    + unfold bind, libcall, print.
      destruct (shutil_copytree (tree w) source target) as [t1 [e|]];
        intros H; injection H as <- <-; cbn [console]; intros p H; not_an_old_link H.
    + unfold bind, syscall, print.
      destruct (shutil_copy2 (tree w) source target) as [e|t1];
        intros H; injection H as <- <-; cbn [console]; intros p H; not_an_old_link H.
Qed.

(** X12: [sync_resource] resolves its destination before it looks at it, so the
    destination it goes on with is never a link: the step that removes an
    old link (sync-resource.py, lines 93-96) is never taken, whatever the
    tree, the strategy and the outcome of the run.  A link found at the
    mapped path is followed, not replaced. *)
Theorem sync_resource_never_removes_a_link cfg ts agent resource s w r w' :
  is_Link (tree w) = false ->
  ResourceSyncer.sync_resource cfg ts agent resource s w = (r, w') ->
  forall p, In (OldLinkRemoved p) (console w') -> In (OldLinkRemoved p) (console w).
Proof.
  intros Hroot.
  unfold ResourceSyncer.sync_resource, ResourceSyncer._get_agent_config_dir.
  destruct (afind agent (agentCompatibility cfg)) as [a|] eqn:Ha; run;
    [|intros H; injection H as <- <-; cbn [console]; intros p H; not_an_old_link H].
  destruct (exists_ (tree w) (configDir a)); cbn [negb];
    [|intros H; injection H as <- <-; cbn [console]; intros p H; not_an_old_link H].
  destruct (afind resource (sharedResources cfg)) as [sr|]; run;
    [|intros H; injection H as <- <-; cbn [console]; intros p H; not_an_old_link H].
  rewrite Ha; cbv beta iota.
  destruct (afind resource (resourceMapping a)) as [rel|]; run;
    [|intros H; injection H as <- <-; cbn [console]; intros p H; not_an_old_link H].
  unfold resolve.
  destruct (realpath MAXSYMLINKS (tree w) [] (configDir a ++ rel)) as [l|] eqn:R;
    [|intros H; injection H as <- <-; auto].
  pose proof (realpath_nolink _ (root_nolink _ Hroot) _ _ _ _ (root_nolink _ Hroot) R)
    as Hn.
  cbn [tree console].
  destruct (mkdir_parents (tree w) (parent (of_loc l))) as [t1 [e1|]] eqn:Em;
    [intros H; injection H as <- <-; cbn [console]; intros p H; not_an_old_link H|].
  assert (Hn1 : nolink t1 l)
    by (exact (nolink_links_back _ _ _ (mkdir_rev_links_back _ _ _ _ Em) Hn)).
  cbn [tree console].
  destruct (ResourceSyncer._backup_if_exists ts (of_loc l) _) as [[[]|e2] w2] eqn:Eb;
    apply (resource_backup_nolink _ _ _ _ _ _ Hn1) in Eb; destruct Eb as [Hc2 Hn2];
    cbn [console] in Hc2;
    [|intros H; injection H as <- <-; intros p H; apply Hc2 in H; not_an_old_link H].
  rewrite (is_symlink_nolink _ _ (Hn2 eq_refl)).
  destruct (execute s _ (of_loc l) w2) as [[u|e3] w3] eqn:Ee;
    pose proof (execute_prints_no_old_link _ _ _ _ _ _ Ee) as Hc3;
    intros H; injection H as <- <-; intros p H;
    apply Hc3, Hc2 in H; not_an_old_link H.
Qed.

Lemma sync_resource_never_removes_a_link_witness :
  is_symlink Sample.linked (Sample.P ["home"; "codex"; "agents"]) = true
  /\ forall p,
       In (OldLinkRemoved p)
          (console (snd (ResourceSyncer.sync_resource Sample.cfg "T" "codex" "agents"
                           symlink (Sample.start Sample.linked)))) ->
       In (OldLinkRemoved p) (console (Sample.start Sample.linked)).
Proof.
  split; [reflexivity|].
  apply (sync_resource_never_removes_a_link Sample.cfg "T" "codex" "agents" symlink
           (Sample.start Sample.linked)
           (fst (ResourceSyncer.sync_resource Sample.cfg "T" "codex" "agents"
                   symlink (Sample.start Sample.linked)))
           (snd (ResourceSyncer.sync_resource Sample.cfg "T" "codex" "agents"
                   symlink (Sample.start Sample.linked)))).
  - reflexivity.
  - vm_compute. reflexivity.
Defined.

(* ----------------------------------------------------------------- *)
(** ** [_list_items] *)

Lemma insert_sorted_perm x l : Permutation (x :: l) (insert_sorted x l).
Proof.
  induction l as [|y l IH]; [apply Permutation_refl|]. simpl.
  destruct (String.leb x y); [apply Permutation_refl|].
  apply (perm_trans (perm_swap y x l)). apply perm_skip, IH.
Qed.

Lemma sorted_perm l : Permutation l (sorted l).
Proof.
  induction l as [|x l IH]; [apply perm_nil|]. simpl.
  apply (perm_trans (perm_skip x IH)), insert_sorted_perm.
Qed.

Lemma insert_sorted_hd x y l :
  String.leb y x = true -> HdRel (fun a b => String.leb a b = true) y l ->
  HdRel (fun a b => String.leb a b = true) y (insert_sorted x l).
Proof.
  intros Hyx H. destruct l as [|z l]; simpl.
  - constructor. exact Hyx.
  - destruct (String.leb x z); constructor; [exact Hyx|].
    inversion H; assumption.
Qed.

Lemma insert_sorted_sorted x l :
  Sorted (fun a b => String.leb a b = true) l ->
  Sorted (fun a b => String.leb a b = true) (insert_sorted x l).
Proof.
  induction l as [|y l IH]; intros H; simpl.
  - constructor; constructor.
  - destruct (String.leb x y) eqn:E.
    + constructor; [exact H|constructor; exact E].
    + inversion H as [|? ? Hs Hh]; subst. constructor; [exact (IH Hs)|].
      apply insert_sorted_hd; [|exact Hh].
      destruct (String.leb_total x y) as [X|X]; [congruence|exact X].
Qed.

Lemma sorted_sorted l : Sorted (fun a b => String.leb a b = true) (sorted l).
Proof.
  induction l as [|x l IH]; [constructor|]. simpl. apply insert_sorted_sorted, IH.
Qed.

Lemma stat_locate t p n :
  stat t p = Some n -> exists l, locate t Follow p = inr l /\ get t l = Some n.
Proof.
  unfold stat. destruct (locate t Follow p) as [e|l]; [discriminate|]. eauto.
Qed.

(** X13: [_list_items] on a base directory that exists: the items it prints are
    the names of the directory that do not start with a dot, each as often
    as the directory lists it, in ascending order; the lines that follow
    them are those of the nested groups, which only the kind [skills] has;
    the tree is left alone. *)
Theorem list_items_lists_visible_names_in_order cfg resource_type r w es :
  afind resource_type (sharedResources cfg) = Some r ->
  stat (tree w) (sharedConfigPath cfg ++ path r) = Some (Dir es) ->
  exists names groups,
    SingleItemSyncer._list_items cfg resource_type w
      = (Ok (match names with [] => [Empty] | _ :: _ => map Item names end ++ groups), w)
    /\ Sorted (fun a b => String.leb a b = true) names
    /\ Permutation names (filter (fun n => negb (startswith_dot n)) (map fst es))
    /\ (forall n, ~ In (Item n) groups)
    /\ (resource_type <> "skills" -> groups = []).
Proof.
  intros Ha Hs.
  destruct (stat_locate _ _ _ Hs) as [l [Hl Hg]].
  set (items := filter (fun n => negb (startswith_dot n)) (map fst es)).
  assert (Hlisted :
            match items with [] => [Empty] | _ :: _ => map Item (sorted items) end
            = match sorted items with
              | [] => [Empty]
              | _ :: _ => map Item (sorted items)
              end).
  { pose proof (sorted_perm items) as Hp.
    destruct items as [|i items'].
    - reflexivity.
    - destruct (sorted (i :: items')) eqn:E; [|reflexivity].
      apply Permutation_sym, Permutation_nil in Hp. discriminate. }
  unfold SingleItemSyncer._list_items.
  erewrite bind_subscript by exact Ha.
  rewrite bind_query. unfold exists_. rewrite Hs. cbn [negb].
  unfold bind at 1. unfold iterdir. rewrite Hl, Hg.
  fold items. rewrite Hlisted.
  destruct (String.eqb resource_type "skills") eqn:Ek.
  - apply String.eqb_eq in Ek. subst resource_type.
    erewrite bind_subscript by exact Ha.
    eexists; eexists. split; [reflexivity|].
    split; [apply sorted_sorted|]. split; [apply Permutation_sym, sorted_perm|].
    split; [|intros H; congruence].
    intros n H. apply in_flat_map in H. destruct H as [g [_ H]].
    destruct (skills (snd g)); [destruct H|].
    destruct H as [H|H]; [discriminate|].
    apply in_map_iff in H. destruct H as [x [H _]]. discriminate.
  - exists (sorted items), []. rewrite app_nil_r.
    split; [reflexivity|].
    split; [apply sorted_sorted|]. split; [apply Permutation_sym, sorted_perm|].
    split; [intros n []|reflexivity].
Qed.

Lemma list_items_lists_visible_names_in_order_witness :
  SingleItemSyncer._list_items Sample.cfg "skills" (Sample.start Sample.both)
  = (Ok [Item "alpha"; Item "shared"; Group "g"; GroupItem "alpha"],
     Sample.start Sample.both)
  /\ exists names groups,
       SingleItemSyncer._list_items Sample.cfg "agents" (Sample.start Sample.listing)
         = (Ok (match names with [] => [Empty] | _ :: _ => map Item names end ++ groups),
            Sample.start Sample.listing)
       /\ Sorted (fun a b => String.leb a b = true) names
       /\ Permutation names
            (filter (fun n => negb (startswith_dot n))
                    (map fst [("zeta.md", File "Z"); (".git", Dir []);
                              ("beta.md", File "B"); ("Alpha.md", File "A")]))
       /\ (forall n, ~ In (Item n) groups)
       /\ ("agents" <> "skills" -> groups = []).
Proof.
  split; [reflexivity|].
  apply (list_items_lists_visible_names_in_order Sample.cfg "agents"
           {| path := Sample.P ["agents"]; nestedSkills := [] |}
           (Sample.start Sample.listing)); reflexivity.
Defined.

(** X14: [_list_items] tests that the base path exists, not that it is a
    directory: on a base path that is a regular file the listing raises
    [NotADirectoryError]. *)
Theorem list_items_on_a_file cfg resource_type r w data :
  afind resource_type (sharedResources cfg) = Some r ->
  stat (tree w) (sharedConfigPath cfg ++ path r) = Some (File data) ->
  SingleItemSyncer._list_items cfg resource_type w = (Raised NotADirectoryError, w).
Proof.
  intros Ha Hs.
  destruct (stat_locate _ _ _ Hs) as [l [Hl Hg]].
  unfold SingleItemSyncer._list_items.
  erewrite bind_subscript by exact Ha.
  rewrite bind_query. unfold exists_. rewrite Hs. cbn [negb].
  unfold bind at 1. unfold iterdir. rewrite Hl, Hg. reflexivity.
Qed.

Lemma list_items_on_a_file_witness :
  SingleItemSyncer._list_items Sample.cfg "skills" (Sample.start Sample.skills_file)
  = (Raised NotADirectoryError, Sample.start Sample.skills_file).
Proof.
  apply (list_items_on_a_file Sample.cfg "skills"
           {| path := Sample.P ["skills"];
              nestedSkills :=
                [("g", {| basePath := Sample.P ["shared"; "g"]; skills := ["alpha"] |})] |}
           (Sample.start Sample.skills_file) "not a directory"); reflexivity.
Defined.

(* ----------------------------------------------------------------- *)
(** ** Links at the destination of [ConfigSyncer] *)

Lemma bind_syscall {B : Type} f (k : unit -> M B) w t' :
  f (tree w) = inr t' ->
  bind (syscall f) k w = k tt (World t' (console w)).
Proof. intros H. unfold bind, syscall. rewrite H. reflexivity. Qed.

Lemma lstat_link t pd n tg :
  get t (pd ++ [n]) = Some (Link tg) ->
  locate t NoFollow (of_loc (pd ++ [n])) = inr (pd ++ [n])
  /\ lstat t (of_loc (pd ++ [n])) = Some (Link tg).
Proof.
  intros H. destruct (get_parent_dir pd n t) as [ed Hd]; [congruence|].
  assert (L : locate t NoFollow (of_loc (pd ++ [n])) = inr (pd ++ [n]))
    by (apply (locate_child _ _ _ _ _ Hd); reflexivity).
  split; [exact L|]. unfold lstat. rewrite L. exact H.
Qed.

Lemma unlink_at t pd n tg :
  get t (pd ++ [n]) = Some (Link tg) ->
  exists t1, del t (pd ++ [n]) = Some t1 /\ os_unlink t (of_loc (pd ++ [n])) = inr t1.
Proof.
  intros H. destruct (lstat_link _ _ _ _ H) as [L _].
  destruct (del_succeeds pd n t _ H) as [t1 Hd].
  exists t1. split; [exact Hd|]. unfold os_unlink. rewrite L, H, Hd. reflexivity.
Qed.

Lemma symlink_at t pd n ed source :
  get t pd = Some (Dir ed) -> get t (pd ++ [n]) = None ->
  exists t2, put t (pd ++ [n]) (Link source) = Some t2
             /\ os_symlink t source (of_loc (pd ++ [n])) = inr t2.
Proof.
  intros Hd Hn. destruct (put_succeeds pd n t (Link source) _ Hd) as [t2 Hp].
  exists t2. split; [exact Hp|]. unfold os_symlink.
  rewrite (locate_absent _ NoFollow _ _ _ Hd Hn), Hn, Hp. reflexivity.
Qed.

Lemma config_backup_skips_link ts p w :
  is_symlink (tree w) p = true -> ConfigSyncer._backup_if_exists ts p w = (Ok tt, w).
Proof.
  intros H. unfold ConfigSyncer._backup_if_exists.
  rewrite bind_query, H. cbn [negb]. rewrite andb_false_r. reflexivity.
Qed.

Lemma is_symlink_link t pd n tg :
  get t (pd ++ [n]) = Some (Link tg) -> is_symlink t (of_loc (pd ++ [n])) = true.
Proof.
  intros H. unfold is_symlink. rewrite (proj2 (lstat_link _ _ _ _ H)). reflexivity.
Qed.

(** X15: The link mode of [ConfigSyncer] can be run again: on a destination
    that is a link (whatever it points to, dangling or not) the run takes no
    backup, replaces the link by a link to the source and changes nothing
    else in the tree. *)
Theorem relink_replaces_link cfg ts config_dir relative_path resource r pd n tg t c :
  afind resource (sharedResources cfg) = Some r ->
  config_dir ++ relative_path = of_loc (pd ++ [n]) ->
  get t (pd ++ [n]) = Some (Link tg) ->
  exists t',
    ConfigSyncer.sync_symlink_resource cfg ts config_dir (resource, relative_path)
      (World t c)
    = (Ok tt,
       World t' (c ++ [LinkCreated (of_loc (pd ++ [n])) (sharedConfigPath cfg ++ path r)]))
    /\ get t' (pd ++ [n]) = Some (Link (sharedConfigPath cfg ++ path r))
    /\ forall q, apart q (pd ++ [n]) = true -> get t' q = get t q.
Proof.
  intros Ha Hp Hl.
  destruct (get_parent_dir pd n t) as [ed Hd]; [congruence|].
  destruct (unlink_at _ _ _ _ Hl) as [t1 [Hd1 Hu]].
  pose proof (get_del_parent pd n t t1 ed Hd Hd1) as Hpd1.
  pose proof (get_del_same _ _ _ Hd1) as Hn1.
  destruct (symlink_at t1 pd n _ (sharedConfigPath cfg ++ path r) Hpd1 Hn1)
    as [t2 [Hp2 Hs]].
  exists t2. split; [|split].
  - unfold ConfigSyncer.sync_symlink_resource. rewrite Ha, Hp.
    erewrite bind_libcall
      by (cbn [tree]; rewrite parent_of_loc;
          apply mkdir_parents_existing, (is_dir_of_loc _ _ _ Hd)).
    erewrite bind_eq
      by (apply config_backup_skips_link; cbn [tree]; apply (is_symlink_link _ _ _ _ Hl)).
    rewrite bind_query. cbn [tree]. rewrite (is_symlink_link _ _ _ _ Hl).
    erewrite bind_eq
      by (unfold syscall; cbn [tree console]; rewrite Hu; reflexivity).
    erewrite bind_syscall by (cbn [tree]; exact Hs).
    reflexivity.
  - exact (get_put_same _ _ _ _ Hp2).
  - intros q Hq. rewrite (get_put_apart _ _ _ _ _ Hp2 Hq).
    exact (get_del_apart _ _ _ _ Hd1 Hq).
Qed.

Lemma relink_replaces_link_witness :
  exists t',
    ConfigSyncer.sync_symlink_resource Sample.cfg "T" (Sample.P ["home"; "codex"])
      ("agents", Sample.P ["agents"]) (World Sample.linked [])
    = (Ok tt,
       World t' ([] ++ [LinkCreated (of_loc (["home"; "codex"] ++ ["agents"]))
                          (sharedConfigPath Sample.cfg ++ Sample.P ["agents"])]))
    /\ get t' (["home"; "codex"] ++ ["agents"])
       = Some (Link (sharedConfigPath Sample.cfg ++ Sample.P ["agents"]))
    /\ forall q, apart q (["home"; "codex"] ++ ["agents"]) = true ->
                 get t' q = get Sample.linked q.
Proof.
  apply (relink_replaces_link Sample.cfg "T" (Sample.P ["home"; "codex"])
           (Sample.P ["agents"]) "agents"
           {| path := Sample.P ["agents"]; nestedSkills := [] |}
           ["home"; "codex"] "agents" (Sample.P ["shared"; "agents"])
           Sample.linked []); reflexivity.
Defined.

Lemma status_line_link t resource l source :
  lstat t l = Some (Link source) ->
  ConfigSyncer.status_line t resource l = Linked resource source.
Proof. intros H. unfold ConfigSyncer.status_line. rewrite H. reflexivity. Qed.

(** X16: Linking and then cleaning is no round trip.  When the destination of a
    resource is a directory or a regular file of the tool's own,
    [sync_symlink] moves it to a backup and [show_status] then reports a
    link to the shared source; [cleanup_links] afterwards removes the link
    and stops there: the destination is reported missing, and what the tool
    had is still under the name of the backup. *)
Theorem link_then_cleanup_leaves_backup
    cfg ts config_dir relative_path resource r pd n n0 t c :
  let target := of_loc (pd ++ [n]) in
  let source := sharedConfigPath cfg ++ path r in
  afind resource (sharedResources cfg) = Some r ->
  config_dir ++ relative_path = target ->
  get t (pd ++ [n]) = Some n0 ->
  is_Link n0 = false ->
  get t (pd ++ [backup_name n ts]) = None ->
  exists t1 c1 t2,
    ConfigSyncer.sync_symlink_resource cfg ts config_dir (resource, relative_path)
      (World t c) = (Ok tt, World t1 c1)
    /\ ConfigSyncer.status_line t1 resource target = Linked resource source
    /\ ConfigSyncer.cleanup_resource config_dir (resource, relative_path) (World t1 c1)
       = (Ok [Deleted resource], World t2 c1)
    /\ ConfigSyncer.status_line t2 resource target = Missing resource
    /\ get t2 (pd ++ [n]) = None
    /\ get t2 (pd ++ [backup_name n ts]) = Some n0.
Proof.
  intros target source Ha Hp Hn Hl Hb. unfold target, source in *. clear target source.
  destruct (get_parent_dir pd n t) as [ed Hd]; [congruence|].
  destruct (move_keeps_content t pd n (backup_name n ts) n0 Hn Hl Hb
              (backup_name_differs n ts)) as [tb [Hm [Hnb [Hbb Hf]]]].
  destruct (present_no_link _ _ _ _ Hn Hl) as [He Hsl].
  destruct (get_parent_dir pd (backup_name n ts) tb) as [edb Hdb]; [congruence|].
  destruct (symlink_at tb pd n _ (sharedConfigPath cfg ++ path r) Hdb Hnb)
    as [t1 [Hp1 Hs1]].
  pose proof (get_put_same _ _ _ _ Hp1) as Hl1.
  destruct (unlink_at _ _ _ _ Hl1) as [t2 [Hd2 Hu2]].
  pose proof (siblings_apart pd n (backup_name n ts) (backup_name_differs n ts)) as Hap.
  assert (Hap' : apart (pd ++ [backup_name n ts]) (pd ++ [n]) = true)
    by (rewrite apart_sym; exact Hap).
  destruct (get_parent_dir pd n t1) as [ed1 Hd1]; [congruence|].
  pose proof (get_del_parent pd n t1 t2 ed1 Hd1 Hd2) as Hpd2.
  pose proof (get_del_same _ _ _ Hd2) as Hn2.
  eexists t1, _, t2. split; [|split; [|split; [|split; [|split]]]].
  - unfold ConfigSyncer.sync_symlink_resource. rewrite Ha, Hp.
    erewrite bind_libcall
      by (cbn [tree]; rewrite parent_of_loc;
          apply mkdir_parents_existing, (is_dir_of_loc _ _ _ Hd)).
    cbn [console].
    erewrite bind_eq
      by (apply (proj1 (backup_by_move ts t c _ tb He Hsl
                          ltac:(rewrite backup_path_of_loc; exact Hm)))).
    rewrite bind_query. cbn [tree].
    unfold is_symlink at 1. rewrite (lstat_absent _ _ _ _ Hdb Hnb).
    rewrite bind_ret.
    erewrite bind_syscall by (cbn [tree]; exact Hs1).
    unfold print. cbn [tree console]. reflexivity.
  - apply status_line_link. exact (proj2 (lstat_link _ _ _ _ Hl1)).
  - unfold ConfigSyncer.cleanup_resource. rewrite Hp.
    rewrite bind_query. cbn [tree]. rewrite (is_symlink_link _ _ _ _ Hl1).
    erewrite bind_syscall by (cbn [tree]; exact Hu2).
    reflexivity.
  - unfold ConfigSyncer.status_line, exists_.
    rewrite (lstat_absent _ _ _ _ Hpd2 Hn2), (stat_absent _ _ _ _ Hpd2 Hn2).
    reflexivity.
  - exact Hn2.
  - rewrite (get_del_apart _ _ _ _ Hd2 Hap'), (get_put_apart _ _ _ _ _ Hp1 Hap').
    exact Hbb.
Qed.

Lemma link_then_cleanup_leaves_backup_witness :
  exists t1 c1 t2,
    ConfigSyncer.sync_symlink_resource Sample.cfg "T" (Sample.P ["home"; "claude"])
      ("agents", Sample.P ["agents"]) (World Sample.no_source [])
      = (Ok tt, World t1 c1)
    /\ ConfigSyncer.status_line t1 "agents" (of_loc (["home"; "claude"] ++ ["agents"]))
       = Linked "agents" (sharedConfigPath Sample.cfg ++ Sample.P ["agents"])
    /\ ConfigSyncer.cleanup_resource (Sample.P ["home"; "claude"])
         ("agents", Sample.P ["agents"]) (World t1 c1)
       = (Ok [Deleted "agents"], World t2 c1)
    /\ ConfigSyncer.status_line t2 "agents" (of_loc (["home"; "claude"] ++ ["agents"]))
       = Missing "agents"
    /\ get t2 (["home"; "claude"] ++ ["agents"]) = None
    /\ get t2 (["home"; "claude"] ++ [backup_name "agents" "T"])
       = Some (Dir [("mine.md", File "M")]).
Proof.
  apply (link_then_cleanup_leaves_backup Sample.cfg "T" (Sample.P ["home"; "claude"])
           (Sample.P ["agents"]) "agents"
           {| path := Sample.P ["agents"]; nestedSkills := [] |}
           ["home"; "claude"] "agents" (Dir [("mine.md", File "M")])
           Sample.no_source []); reflexivity.
Defined.

(* ----------------------------------------------------------------- *)
(** ** Reports *)

Lemma status_line_is_about_a_resource t resource target :
  (forall a, ConfigSyncer.status_line t resource target <> Installed a)
  /\ (forall a, ConfigSyncer.status_line t resource target <> NotInstalled a).
Proof.
  unfold ConfigSyncer.status_line.
  destruct (lstat t target) as [[d|tg|es]|]; try destruct (exists_ t target);
    split; discriminate.
Qed.

Lemma show_status_agent_spec cfg agent w :
  exists lines c,
    ConfigSyncer.show_status_agent cfg agent w = (Ok lines, World (tree w) c)
    /\ (forall a, In (Installed a) lines -> a = agent /\ installed cfg (tree w) a = true)
    /\ (forall a, In (NotInstalled a) lines ->
                  a = agent /\ installed cfg (tree w) a = false
                  /\ amem a (agentCompatibility cfg) = true).
Proof.
  unfold ConfigSyncer.show_status_agent, ConfigSyncer._get_agent_config_dir, installed, amem.
  destruct w as [t c]. cbn [tree].
  destruct (afind agent (agentCompatibility cfg)) as [a|] eqn:Ha.
  - rewrite bind_ret, bind_query. cbn [tree].
    destruct (exists_ t (configDir a)) eqn:E; cbn [negb].
    + rewrite bind_query. cbn [tree].
      eexists; eexists. split; [reflexivity|]. split.
      * intros x [H|H].
        -- injection H as <-. rewrite Ha. split; [reflexivity|exact E].
        -- apply in_map_iff in H. destruct H as [y [H _]].
           exfalso. exact (proj1 (status_line_is_about_a_resource _ _ _) _ H).
      * intros x [H|H]; [discriminate H|].
        apply in_map_iff in H. destruct H as [y [H _]].
        exfalso. exact (proj2 (status_line_is_about_a_resource _ _ _) _ H).
    + eexists; eexists. split; [reflexivity|]. split.
      * intros x [H|[]]. discriminate H.
      * intros x [H|[]]. injection H as <-. rewrite Ha. auto.
  - run. cbn [tree console]. eexists; eexists. split; [reflexivity|].
    split; intros x [].
Qed.

Lemma show_status_returns cfg w :
  exists lines c, ConfigSyncer.show_status cfg w = (Ok lines, World (tree w) c).
Proof.
  unfold ConfigSyncer.show_status.
  induction (supportedAgents cfg) as [|agent rest IH] in w |- *.
  - destruct w as [t c]. exists [], c. reflexivity.
  - destruct (show_status_agent_spec cfg agent w) as [l1 [c1 [E1 _]]].
    destruct (IH (World (tree w) c1)) as [l2 [c2 E2]].
    cbn [tree] in *.
    exists (l1 ++ l2), c2. cbn [report_each].
    rewrite (bind_eq _ _ _ _ _ E1), (bind_eq _ _ _ _ _ E2). reflexivity.
Qed.

(** X17: [show_status] only reads and always returns, also when
    [supportedAgents] names a tool that [agentCompatibility] does not have;
    and its report is sound: a tool is reported installed only if the
    manifest knows it and its configuration directory exists, and reported
    not installed only if the manifest knows it, lists it as supported and
    the directory does not exist. *)
Theorem show_status_is_sound cfg w :
  exists lines c,
    ConfigSyncer.show_status cfg w = (Ok lines, World (tree w) c)
    /\ (forall a, In (Installed a) lines ->
                  In a (supportedAgents cfg) /\ installed cfg (tree w) a = true)
    /\ (forall a, In (NotInstalled a) lines ->
                  In a (supportedAgents cfg) /\ installed cfg (tree w) a = false
                  /\ amem a (agentCompatibility cfg) = true).
Proof.
  unfold ConfigSyncer.show_status.
  induction (supportedAgents cfg) as [|agent rest IH] in w |- *.
  - destruct w as [t c]. exists [], c. split; [reflexivity|]. split; intros a [].
  - destruct (show_status_agent_spec cfg agent w) as [l1 [c1 [E1 [I1 N1]]]].
    destruct (IH (World (tree w) c1)) as [l2 [c2 [E2 [I2 N2]]]].
    cbn [tree] in *.
    exists (l1 ++ l2), c2. cbn [report_each].
    rewrite (bind_eq _ _ _ _ _ E1), (bind_eq _ _ _ _ _ E2).
    split; [reflexivity|]. split.
    + intros a H. apply in_app_or in H. destruct H as [H|H].
      * destruct (I1 a H) as [-> Hi]. split; [left; reflexivity|exact Hi].
      * destruct (I2 a H) as [Hin Hi]. split; [right; exact Hin|exact Hi].
    + intros a H. apply in_app_or in H. destruct H as [H|H].
      * destruct (N1 a H) as [-> Hi]. split; [left; reflexivity|exact Hi].
      * destruct (N2 a H) as [Hin Hi]. split; [right; exact Hin|exact Hi].
Qed.

(** X18: [show_item_status] looks at the item itself, below the resolved
    directory of its kind: a link there is reported as a link, with the
    target it stores, whether that target exists or not. *)
Theorem show_item_status_reports_link cfg agent resource_type item_name w target_base tg :
  installed cfg (tree w) agent = true ->
  resolved_mapping cfg agent resource_type (tree w) = Some target_base ->
  lstat (tree w) (target_base ++ [Name item_name]) = Some (Link tg) ->
  SingleItemSyncer.show_item_status cfg agent resource_type item_name w
  = (Ok [IsLink tg; Location (target_base ++ [Name item_name])], w).
Proof.
  unfold installed, resolved_mapping,
    SingleItemSyncer.show_item_status, SingleItemSyncer._get_agent_config_dir.
  destruct (afind agent (agentCompatibility cfg)) as [a|] eqn:Ha; [|discriminate].
  intros Hi Hr Hl. rewrite bind_ret, bind_query, Hi. cbn [negb].
  erewrite bind_subscript by exact Ha.
  destruct (afind resource_type (resourceMapping a)) as [rel|]; [|discriminate].
  destruct (realpath MAXSYMLINKS (tree w) [] (configDir a ++ rel)) as [l|] eqn:R;
    [|discriminate].
  injection Hr as <-.
  erewrite bind_resolve by exact R.
  rewrite bind_query. unfold kind_line. rewrite Hl. reflexivity.
Qed.

Lemma show_item_status_reports_link_witness :
  exists_ Sample.dangling (Sample.P ["home"; "claude"; "agents"; "a.md"]) = false
  /\ SingleItemSyncer.show_item_status Sample.cfg "claude-code" "agents" "a.md"
       (Sample.start Sample.dangling)
     = (Ok [IsLink (Sample.P ["gone"]);
            Location (Sample.P ["home"; "claude"; "agents"] ++ [Name "a.md"])],
        Sample.start Sample.dangling).
Proof.
  split; [reflexivity|].
  apply (show_item_status_reports_link Sample.cfg "claude-code" "agents" "a.md"
           (Sample.start Sample.dangling) (Sample.P ["home"; "claude"; "agents"])
           (Sample.P ["gone"])); reflexivity.
Defined.

(* ----------------------------------------------------------------- *)
(** ** One run with the copy strategy *)

Lemma resource_backup_phase_present ts t c pd n n0 :
  get t (pd ++ [n]) = Some n0 ->
  is_Link n0 = false ->
  get t (pd ++ [backup_name n ts]) = None ->
  exists tb,
    (forall (X : Type) (k : M X),
        (ResourceSyncer._backup_if_exists ts (of_loc (pd ++ [n])) ;;
         old <- query (fun t => is_symlink t (of_loc (pd ++ [n]))) ;;
         (if old then
            syscall (fun t => os_unlink t (of_loc (pd ++ [n]))) ;;
            print (OldLinkRemoved (of_loc (pd ++ [n])))
          else ret tt) ;;
         k) (World t c) = k (World tb (c ++ [Backup n (backup_name n ts)])))
    /\ get tb (pd ++ [n]) = None
    /\ get tb (pd ++ [backup_name n ts]) = Some n0
    /\ frame t tb pd n (backup_name n ts).
Proof.
  intros Hn Hl Hb.
  destruct (move_keeps_content t pd n (backup_name n ts) n0 Hn Hl Hb
              (backup_name_differs n ts)) as [tb [Hm [Hnb [Hbb Hf]]]].
  destruct (present_no_link _ _ _ _ Hn Hl) as [He Hsl].
  destruct (get_parent_dir pd (backup_name n ts) tb) as [edb Hdb]; [congruence|].
  exists tb. split; [|split; [exact Hnb|split; [exact Hbb|exact Hf]]].
  intros X k.
  erewrite bind_eq
    by (apply (proj1 (proj2 (backup_by_move ts t c _ tb He Hsl
                               ltac:(rewrite backup_path_of_loc; exact Hm))))).
  rewrite bind_query. cbn [tree].
  unfold is_symlink at 1. rewrite (lstat_absent _ _ _ _ Hdb Hnb).
  rewrite bind_ret, name_of_loc, backup_path_of_loc, name_of_loc. reflexivity.
Qed.

(** X19: One run of the copy strategy over a destination of the tool's own, for
    [sync_resource] and for [sync_item]: when the source is a plain
    directory, the destination is a directory or a regular file, the name of
    the backup is free and the source lies apart from both, the run returns
    [True]; the destination then holds the very directory of the source,
    what the destination held is under the name of the backup, the source is
    as it was, and so is everything apart from the destination and the
    backup. *)
Theorem copy_run_postcondition cfg ts sp pd n es n0 w :
  copy_setting (tree w) sp pd n es ts ->
  get (tree w) (pd ++ [n]) = Some n0 ->
  (forall agent resource,
      installed cfg (tree w) agent = true ->
      shared_source cfg resource = Some (of_loc sp) ->
      resolved_mapping cfg agent resource (tree w) = Some (of_loc (pd ++ [n])) ->
      exists w',
        ResourceSyncer.sync_resource cfg ts agent resource copy w = (Ok true, w')
        /\ copied_to (tree w) (tree w') sp pd n es ts
        /\ get (tree w') (pd ++ [backup_name n ts]) = Some n0)
  /\ (forall agent resource_type,
      installed cfg (tree w) agent = true ->
      located_source cfg agent resource_type n w = Some (of_loc sp) ->
      resolved_mapping cfg agent resource_type (tree w) = Some (of_loc pd) ->
      exists w',
        SingleItemSyncer.sync_item cfg ts agent resource_type n copy w = (Ok true, w')
        /\ copied_to (tree w) (tree w') sp pd n es ts
        /\ get (tree w') (pd ++ [backup_name n ts]) = Some n0).
Proof.
  intros Hset Hn0.
  pose proof Hset as [Hs [Hp [[ed Hd] [Hnl [Hb [Ha1 Ha2]]]]]].
  assert (Hl : is_Link n0 = false)
    by (destruct n0 as [d|tg|e0]; try reflexivity; exfalso; apply (Hnl tg Hn0)).
  assert (Hap : apart (pd ++ [backup_name n ts]) (pd ++ [n]) = true)
    by (rewrite apart_sym; apply siblings_apart, backup_name_differs).
  split.
  - intros agent resource Hinst Hsrc Hmap.
    destruct w as [t c]. cbn [tree] in *.
    unfold installed in Hinst. unfold shared_source in Hsrc.
    unfold resolved_mapping in Hmap.
    destruct (afind agent (agentCompatibility cfg)) as [ac|] eqn:Hac; [|discriminate].
    destruct (afind resource (sharedResources cfg)) as [r|] eqn:Hr; [|discriminate].
    destruct (afind resource (resourceMapping ac)) as [rel|] eqn:Hrel; [|discriminate].
    destruct (realpath MAXSYMLINKS t [] (configDir ac ++ rel)) as [l|] eqn:Hreal;
      [|discriminate].
    injection Hsrc as Hsrc. injection Hmap as Hmap.
    destruct (resource_backup_phase_present ts t
                (c ++ [Plan (of_loc sp) (of_loc (pd ++ [n])) copy]) pd n n0
                Hn0 Hl Hb) as [tb [Hback [Hnb [Hbb Hf]]]].
    destruct (get_parent_dir pd (backup_name n ts) tb) as [edb Hdb]; [congruence|].
    assert (Hsb : get tb sp = Some (Dir es)) by (rewrite (Hf sp Ha1 Ha2); exact Hs).
    destruct (copy_phase tb
                ((c ++ [Plan (of_loc sp) (of_loc (pd ++ [n])) copy])
                 ++ [Backup n (backup_name n ts)])
                sp pd n es edb Hsb Hp Hdb Hnb Ha1) as [t' [Hexec Hput]].
    eexists. split; [|split].
    + unfold ResourceSyncer.sync_resource, ResourceSyncer._get_agent_config_dir.
      rewrite Hac, bind_ret. cbv beta iota.
      rewrite bind_query. cbn [tree]. rewrite Hinst. cbn [negb]. cbv beta iota.
      rewrite Hr. rewrite (bind_subscript _ _ _ _ _ Hac). cbv beta. rewrite Hrel.
      erewrite bind_resolve by (cbn [tree]; exact Hreal).
      rewrite Hmap, Hsrc. cbv beta.
      rewrite bind_print. cbn [tree console].
      rewrite parent_of_loc.
      erewrite bind_libcall
        by (cbn [tree]; apply mkdir_parents_existing;
            apply (is_dir_of_loc _ _ _ Hd)).
      cbn [tree console].
      rewrite Hback. rewrite (bind_eq _ _ _ _ _ Hexec). reflexivity.
    + cbn [tree]. eapply copied_after_phases; eauto.
    + cbn [tree]. rewrite (get_put_apart _ _ _ _ _ Hput Hap). exact Hbb.
  - intros agent resource_type Hinst Hsrc Hmap.
    unfold installed in Hinst. unfold located_source, shared_source in Hsrc.
    unfold resolved_mapping in Hmap.
    destruct (afind agent (agentCompatibility cfg)) as [ac|] eqn:Hac; [|discriminate].
    destruct (afind resource_type (sharedResources cfg)) as [r|] eqn:Hr;
      [|discriminate].
    destruct (afind resource_type (resourceMapping ac)) as [rel|] eqn:Hrel;
      [|discriminate].
    destruct (realpath MAXSYMLINKS (tree w) [] (configDir ac ++ rel)) as [l|] eqn:Hreal;
      [|discriminate].
    injection Hmap as Hmap.
    destruct (SingleItemSyncer.nested_source cfg (sharedConfigPath cfg ++ path r)
                ((sharedConfigPath cfg ++ path r) ++ [Name n])
                resource_type n w) as [[s1|e1] w1] eqn:E1; [|discriminate].
    destruct (SingleItemSyncer.skill_source s1 agent resource_type n w1)
      as [[s2|e2] w2] eqn:E2; [|discriminate].
    injection Hsrc as Hsrc. subst s2.
    pose proof (nested_source_tree _ _ _ _ _ _ _ _ E1) as T1.
    pose proof (skill_source_tree _ _ _ _ _ _ _ E2) as T2.
    assert (T : tree w2 = tree w) by congruence.
    destruct w2 as [t2 c2]. cbn [tree] in T. subst t2.
    destruct (move_keeps_content (tree w) pd n (backup_name n ts) n0 Hn0 Hl Hb
                (backup_name_differs n ts)) as [tb [Hm [Hnb [Hbb Hf]]]].
    destruct (present_no_link _ _ _ _ Hn0 Hl) as [He Hsl].
    destruct (get_parent_dir pd (backup_name n ts) tb) as [edb Hdb]; [congruence|].
    assert (Hsb : get tb sp = Some (Dir es)) by (rewrite (Hf sp Ha1 Ha2); exact Hs).
    destruct (copy_phase tb
                ((c2 ++ [Plan (of_loc sp) (of_loc (pd ++ [n])) copy])
                 ++ [Backup (name (of_loc (pd ++ [n])))
                       (name (backup_path_of (of_loc (pd ++ [n])) ts))])
                sp pd n es edb Hsb Hp Hdb Hnb Ha1)
      as [t' [Hexec Hput]].
    eexists. split; [|split].
    + unfold SingleItemSyncer.sync_item, SingleItemSyncer._get_agent_config_dir.
      rewrite Hac, bind_ret. cbv beta iota.
      rewrite bind_query. rewrite Hinst. cbn [negb]. cbv beta iota.
      rewrite Hr. rewrite (bind_eq _ _ _ _ _ E1), (bind_eq _ _ _ _ _ E2).
      rewrite bind_query. cbn [tree]. unfold exists_ at 1.
      rewrite (stat_dir _ _ _ Hs). cbn [negb]. cbv beta iota.
      rewrite (bind_subscript _ _ _ _ _ Hac). cbv beta. rewrite Hrel.
      erewrite bind_resolve by (cbn [tree]; exact Hreal).
      rewrite Hmap. cbv beta.
      rewrite bind_print. cbn [tree console].
      erewrite bind_libcall
        by (cbn [tree]; apply mkdir_parents_existing;
            apply (is_dir_of_loc _ _ _ Hd)).
      cbn [tree console]. rewrite of_loc_snoc.
      erewrite bind_eq
        by (apply (proj2 (proj2 (backup_by_move ts (tree w) _ _ tb He Hsl
                                   ltac:(rewrite backup_path_of_loc; exact Hm))))).
      rewrite (bind_eq _ _ _ _ _ Hexec).
      rewrite bind_print. reflexivity.
    + cbn [tree]. eapply copied_after_phases; eauto.
    + cbn [tree]. rewrite (get_put_apart _ _ _ _ _ Hput Hap). exact Hbb.
Qed.

Lemma copy_run_postcondition_witness :
  (exists w',
      ResourceSyncer.sync_resource Sample.cfg "T" "claude-code" "agents" copy
        (Sample.start Sample.own_agents) = (Ok true, w')
      /\ copied_to (tree (Sample.start Sample.own_agents)) (tree w')
           ["shared"; "agents"] ["home"; "claude"] "agents"
           [("a.md", File "A"); ("sub", Dir [("b.md", File "B")])] "T"
      /\ get (tree w') (["home"; "claude"] ++ [backup_name "agents" "T"])
         = Some (Dir [("mine.md", File "M")])).
Proof.
  assert (S1 : copy_setting (tree (Sample.start Sample.own_agents))
                 ["shared"; "agents"] ["home"; "claude"] "agents"
                 [("a.md", File "A"); ("sub", Dir [("b.md", File "B")])] "T").
  { repeat split; try reflexivity; [eexists; reflexivity|intros tg; discriminate]. }
  apply (proj1 (copy_run_postcondition Sample.cfg "T"
                  ["shared"; "agents"] ["home"; "claude"] "agents" _
                  (Dir [("mine.md", File "M")])
                  (Sample.start Sample.own_agents) S1 eq_refl)
           "claude-code" "agents"); reflexivity.
Defined.

(* ----------------------------------------------------------------- *)
(** ** Missing parent directories *)

Lemma get_dir_prefix t (cur : loc) c (pre : loc) es :
  get t ((cur ++ [c]) ++ pre) = Some (Dir es) ->
  exists es', get t (cur ++ [c]) = Some (Dir es').
Proof.
  destruct pre as [|x pre].
  - rewrite app_nil_r. eauto.
  - apply get_through.
Qed.

Lemma walk_through_dirs links t m : forall pre cur rest es,
  get t (cur ++ pre) = Some (Dir es) ->
  walk links t m cur (of_loc pre ++ rest) = walk links t m (cur ++ pre) rest.
Proof.
  induction pre as [|c pre IH]; intros cur rest es H.
  - rewrite app_nil_r. reflexivity.
  - change (of_loc (c :: pre) ++ rest) with (Name c :: (of_loc pre ++ rest)).
    rewrite walk_cons.
    destruct (get_through cur c pre t _ H) as [es0 ->].
    replace (cur ++ c :: pre) with ((cur ++ [c]) ++ pre) in *
      by (rewrite <- app_assoc; reflexivity).
    destruct (get_dir_prefix _ _ _ _ _ H) as [es1 ->].
    exact (IH _ _ _ H).
Qed.

Lemma locate_missing t m pd ed h x y :
  get t pd = Some (Dir ed) -> get t (pd ++ [h]) = None ->
  locate t m (of_loc ((pd ++ [h]) ++ x :: y)) = inl ENOENT.
Proof.
  intros Hd Hh. unfold locate.
  rewrite <- app_assoc, of_loc_app.
  rewrite (walk_through_dirs _ _ _ pd [] _ ed Hd).
  change (of_loc ([h] ++ x :: y)) with (Name h :: Name x :: of_loc y).
  change ([] ++ pd) with pd.
  rewrite walk_cons, Hd, Hh. reflexivity.
Qed.

(** [mkdir(parents=True)] below an existing directory makes the missing
    directories one by one, and touches nothing else. *)
Lemma mkdir_creates_chain t pd ed h :
  get t pd = Some (Dir ed) -> get t (pd ++ [h]) = None ->
  forall rest, exists t',
    mkdir_parents t (of_loc ((pd ++ [h]) ++ rest)) = (t', None)
    /\ get t' ((pd ++ [h]) ++ rest) = Some (Dir [])
    /\ (forall q, apart q (pd ++ [h]) = true -> get t' q = get t q).
Proof.
  intros Hd Hh rest. induction rest as [|a rest IH] using rev_ind.
  - rewrite app_nil_r.
    destruct (os_mkdir_fresh t pd h ed Hd Hh) as [t' [Hp Hm]].
    exists t'. split; [|split].
    + unfold mkdir_parents. rewrite mkdir_rev_eq, rev_involutive, Hm. reflexivity.
    + exact (get_put_same _ _ _ _ Hp).
    + intros q Hq. exact (get_put_apart _ _ _ _ _ Hp Hq).
  - destruct IH as [t1 [Hm1 [Hg1 Hf1]]].
    assert (Hn1 : get t1 (((pd ++ [h]) ++ rest) ++ [a]) = None)
      by (rewrite get_snoc, Hg1; reflexivity).
    destruct (os_mkdir_fresh t1 _ a [] Hg1 Hn1) as [t2 [Hp2 Hm2]].
    exists t2. rewrite app_assoc. split; [|split].
    + unfold mkdir_parents in *.
      rewrite of_loc_app. simpl of_loc. rewrite rev_app_distr. simpl rev at 1.
      simpl app. rewrite mkdir_rev_eq.
      change (rev (Name a :: rev (of_loc ((pd ++ [h]) ++ rest))))
        with (rev (rev (of_loc ((pd ++ [h]) ++ rest))) ++ [Name a]).
      rewrite rev_involutive, of_loc_snoc.
      assert (Hmiss : os_mkdir t (of_loc (((pd ++ [h]) ++ rest) ++ [a]))
                      = inl FileNotFoundError).
      { unfold os_mkdir. rewrite <- app_assoc.
        destruct (rest ++ [a]) as [|x y] eqn:E; [destruct rest; discriminate|].
        rewrite (locate_missing _ _ _ _ _ _ _ Hd Hh). reflexivity. }
      rewrite Hmiss, Hm1, Hm2. reflexivity.
    + exact (get_put_same _ _ _ _ Hp2).
    + intros q Hq. rewrite (get_put_apart _ _ _ _ _ Hp2).
      * exact (Hf1 q Hq).
      * rewrite <- app_assoc, apart_sym. apply apart_app_l. rewrite apart_sym. exact Hq.
Qed.

Lemma config_backup_skips_absent ts p w :
  exists_ (tree w) p = false -> ConfigSyncer._backup_if_exists ts p w = (Ok tt, w).
Proof.
  intros H. unfold ConfigSyncer._backup_if_exists.
  rewrite bind_query, H. reflexivity.
Qed.

(** X20: The link mode of [ConfigSyncer] makes the directories that are missing
    on the way to its destination: when the mapped path of a resource runs
    through directories that do not exist yet, below one that does, the run
    creates them, puts the link into the last one and leaves everything
    apart from the first new directory as it was; no backup is taken. *)
Theorem missing_parents_are_created
    cfg ts config_dir relative_path resource r pd ed h rest n t c :
  let target := of_loc (((pd ++ [h]) ++ rest) ++ [n]) in
  let source := sharedConfigPath cfg ++ path r in
  afind resource (sharedResources cfg) = Some r ->
  config_dir ++ relative_path = target ->
  get t pd = Some (Dir ed) ->
  get t (pd ++ [h]) = None ->
  exists t',
    ConfigSyncer.sync_symlink_resource cfg ts config_dir (resource, relative_path)
      (World t c)
    = (Ok tt, World t' (c ++ [LinkCreated target source]))
    /\ get t' ((pd ++ [h]) ++ rest) = Some (Dir [(n, Link source)])
    /\ forall q, apart q (pd ++ [h]) = true -> get t' q = get t q.
Proof.
  intros target source Ha Hp Hd Hh. unfold target, source in *. clear target source.
  destruct (mkdir_creates_chain t pd ed h Hd Hh rest) as [t1 [Hm1 [Hg1 Hf1]]].
  assert (Hn1 : get t1 (((pd ++ [h]) ++ rest) ++ [n]) = None)
    by (rewrite get_snoc, Hg1; reflexivity).
  destruct (symlink_at t1 _ n _ (sharedConfigPath cfg ++ path r) Hg1 Hn1)
    as [t2 [Hp2 Hs2]].
  exists t2. split; [|split].
  - unfold ConfigSyncer.sync_symlink_resource. rewrite Ha, Hp.
    erewrite bind_libcall by (cbn [tree]; rewrite parent_of_loc; exact Hm1).
    cbn [console].
    erewrite bind_eq
      by (apply config_backup_skips_absent; cbn [tree]; unfold exists_;
          rewrite (stat_absent _ _ _ _ Hg1 Hn1); reflexivity).
    rewrite bind_query. cbn [tree].
    unfold is_symlink at 1. rewrite (lstat_absent _ _ _ _ Hg1 Hn1).
    rewrite bind_ret.
    erewrite bind_syscall by (cbn [tree]; exact Hs2).
    reflexivity.
  - exact (get_put_parent _ n t1 _ t2 [] Hg1 Hp2).
  - intros q Hq. rewrite (get_put_apart _ _ _ _ _ Hp2).
    + exact (Hf1 q Hq).
    + rewrite <- (app_assoc (pd ++ [h])), apart_sym.
      apply apart_app_l. rewrite apart_sym. exact Hq.
Qed.

Lemma missing_parents_are_created_witness :
  exists t',
    ConfigSyncer.sync_symlink_resource Sample.deep_cfg "T" (Sample.P ["home"; "codex"])
      ("agents", Sample.P ["plugins"; "shared"; "agents"]) (World Sample.fresh [])
    = (Ok tt,
       World t' ([] ++ [LinkCreated
                          (of_loc (((["home"; "codex"] ++ ["plugins"]) ++ ["shared"])
                                   ++ ["agents"]))
                          (sharedConfigPath Sample.deep_cfg ++ Sample.P ["agents"])]))
    /\ get t' ((["home"; "codex"] ++ ["plugins"]) ++ ["shared"])
       = Some (Dir [("agents",
                     Link (sharedConfigPath Sample.deep_cfg ++ Sample.P ["agents"]))])
    /\ forall q, apart q (["home"; "codex"] ++ ["plugins"]) = true ->
                 get t' q = get Sample.fresh q.
Proof.
  apply (missing_parents_are_created Sample.deep_cfg "T" (Sample.P ["home"; "codex"])
           (Sample.P ["plugins"; "shared"; "agents"]) "agents"
           {| path := Sample.P ["agents"]; nestedSkills := [] |}
           ["home"; "codex"] [] "plugins" ["shared"] "agents" Sample.fresh []);
    reflexivity.
Defined.

(** X21: The copy mode of [ConfigSyncer], for one resource, over a destination
    of the tool's own: under the conditions of [copy_setting] the step
    completes, the destination holds the directory of the source, what the
    destination held is under the name of the backup, and the two messages
    are the backup and the copy. *)
Theorem sync_copy_resource_postcondition
    cfg ts config_dir relative_path resource r sp pd n es n0 t c :
  afind resource (sharedResources cfg) = Some r ->
  sharedConfigPath cfg ++ path r = of_loc sp ->
  config_dir ++ relative_path = of_loc (pd ++ [n]) ->
  copy_setting t sp pd n es ts ->
  get t (pd ++ [n]) = Some n0 ->
  exists t',
    ConfigSyncer.sync_copy_resource cfg ts config_dir (resource, relative_path)
      (World t c)
    = (Ok tt,
       World t' ((c ++ [Backup n (backup_name n ts)])
                 ++ [DirCopied (of_loc sp) (of_loc (pd ++ [n]))]))
    /\ copied_to t t' sp pd n es ts
    /\ get t' (pd ++ [backup_name n ts]) = Some n0.
Proof.
  intros Ha Hsrc Hp Hset Hn0.
  pose proof Hset as [Hs [Hpl [[ed Hd] [Hnl [Hb [Ha1 Ha2]]]]]].
  assert (Hl : is_Link n0 = false)
    by (destruct n0 as [d|tg|e0]; try reflexivity; exfalso; apply (Hnl tg Hn0)).
  assert (Hap : apart (pd ++ [backup_name n ts]) (pd ++ [n]) = true)
    by (rewrite apart_sym; apply siblings_apart, backup_name_differs).
  destruct (move_keeps_content t pd n (backup_name n ts) n0 Hn0 Hl Hb
              (backup_name_differs n ts)) as [tb [Hm [Hnb [Hbb Hf]]]].
  destruct (present_no_link _ _ _ _ Hn0 Hl) as [He Hsl].
  destruct (get_parent_dir pd (backup_name n ts) tb) as [edb Hdb]; [congruence|].
  assert (Hsb : get tb sp = Some (Dir es)) by (rewrite (Hf sp Ha1 Ha2); exact Hs).
  destruct (copytree_plain MAXSYMLINKS (Dir es) Hpl es eq_refl tb sp pd n edb
              Hsb Hdb Hnb Ha1) as [t' [Hput Hc]].
  exists t'. split; [|split].
  - unfold ConfigSyncer.sync_copy_resource. rewrite Ha, Hp, Hsrc.
    erewrite bind_libcall
      by (cbn [tree]; rewrite parent_of_loc;
          apply mkdir_parents_existing, (is_dir_of_loc _ _ _ Hd)).
    cbn [console].
    erewrite bind_eq
      by (apply (proj1 (backup_by_move ts t c _ tb He Hsl
                          ltac:(rewrite backup_path_of_loc; exact Hm)))).
    rewrite bind_query. cbn [tree]. rewrite (is_dir_of_loc _ _ _ Hsb).
    erewrite bind_libcall
      by (cbn [tree]; unfold shutil_copytree; rewrite (stat_dir _ _ _ Hsb), Hc;
          reflexivity).
    unfold print. cbn [tree console].
    rewrite name_of_loc, backup_path_of_loc, name_of_loc. reflexivity.
  - eapply copied_after_phases; eauto.
  - rewrite (get_put_apart _ _ _ _ _ Hput Hap). exact Hbb.
Qed.

Lemma sync_copy_resource_postcondition_witness :
  exists t',
    ConfigSyncer.sync_copy_resource Sample.cfg "T" (Sample.P ["home"; "claude"])
      ("agents", Sample.P ["agents"]) (World Sample.own_agents [])
    = (Ok tt,
       World t' (([] ++ [Backup "agents" (backup_name "agents" "T")])
                 ++ [DirCopied (of_loc ["shared"; "agents"])
                       (of_loc (["home"; "claude"] ++ ["agents"]))]))
    /\ copied_to Sample.own_agents t' ["shared"; "agents"] ["home"; "claude"] "agents"
         [("a.md", File "A"); ("sub", Dir [("b.md", File "B")])] "T"
    /\ get t' (["home"; "claude"] ++ [backup_name "agents" "T"])
       = Some (Dir [("mine.md", File "M")]).
Proof.
  assert (S1 : copy_setting Sample.own_agents
                 ["shared"; "agents"] ["home"; "claude"] "agents"
                 [("a.md", File "A"); ("sub", Dir [("b.md", File "B")])] "T").
  { repeat split; try reflexivity; [eexists; reflexivity|intros tg; discriminate]. }
  apply (sync_copy_resource_postcondition Sample.cfg "T" (Sample.P ["home"; "claude"])
           (Sample.P ["agents"]) "agents"
           {| path := Sample.P ["agents"]; nestedSkills := [] |}
           ["shared"; "agents"] ["home"; "claude"] "agents" _
           (Dir [("mine.md", File "M")]) Sample.own_agents []
           eq_refl eq_refl eq_refl S1 eq_refl).
Defined.

(* ----------------------------------------------------------------- *)
(** ** The command line of [sync-config.py] *)

(** X22: [--status] wins over every other option: a run with [--status]
    returns and leaves the tree as it was, whatever else the command line
    asks for ([--sync-all], [--agent], [--cleanup]); and so does a run that
    sets none of the four, which prints the help. *)
Theorem main_reads_only_unless_asked cfg ts args w :
  ConfigSyncer.arg_status args = true
  \/ (ConfigSyncer.arg_sync_all args = false /\ ConfigSyncer.arg_cleanup args = false
      /\ (ConfigSyncer.arg_agent args = None \/ ConfigSyncer.arg_agent args = Some "")) ->
  exists lines c, ConfigSyncer.main cfg ts args w = (Ok lines, World (tree w) c).
Proof.
  unfold ConfigSyncer.main. intros [H|[H1 [H2 H3]]].
  - rewrite H. apply show_status_returns.
  - destruct (ConfigSyncer.arg_status args).
    + apply show_status_returns.
    + rewrite H1, H2. destruct w as [t c].
      destruct H3 as [-> | ->]; exists [Help], c; reflexivity.
Qed.

Lemma main_reads_only_unless_asked_witness :
  exists lines c,
    ConfigSyncer.main Sample.cfg "T"
      {| ConfigSyncer.arg_status := true; ConfigSyncer.arg_sync_all := true; ConfigSyncer.arg_agent := Some "codex";
         ConfigSyncer.arg_strategy := copy; ConfigSyncer.arg_cleanup := true |}
      (Sample.start Sample.linked)
    = (Ok lines, World (tree (Sample.start Sample.linked)) c).
Proof.
  apply (main_reads_only_unless_asked Sample.cfg "T"
           {| ConfigSyncer.arg_status := true; ConfigSyncer.arg_sync_all := true; ConfigSyncer.arg_agent := Some "codex";
              ConfigSyncer.arg_strategy := copy; ConfigSyncer.arg_cleanup := true |}
           (Sample.start Sample.linked)).
  left. reflexivity.
Defined.
